(** * Power BI workspace backup / restore: orchestration and name reconciliation

    A shallow embedding of the Go packages [internal/backup],
    [internal/restore] and [internal/storage], together with the part of the
    Go standard library they call ([path/filepath], [fmt.Sprintf], [os]);
    then of [internal/auth], [internal/api] and [internal/config], of the
    command line [cmd/main.go] and of the background jobs of
    [cmd/server/main.go].

    Conventions.
    - A Go [string] is a [string]; a slice is a [list] (the nil slice and the
      empty slice are both [[]]).
    - Go's [int] is a 64-bit two's complement integer: a [Z] with an explicit
      wrap-around at every increment that can overflow.
    - A [map[string]bool] that only ever stores [true] is a [gset string];
      a [map[string]string] is a [gmap string string].
    - Every call that leaves the process (remote API, file system, clock) is
      an operation of the environment class [Env]; the embedding threads the
      world and records each call, with its arguments and its outcome, in a
      chronological event list. *)

From Stdlib Require Import ZArith Ascii String.
From stdpp Require Import prelude gmap strings pretty.

Set Warnings "-register-all,-clear-no-such-hyp".

Open Scope string_scope.
Open Scope list_scope.
Open Scope Z_scope.

(** ** Go's [int] *)

Definition int_max : Z := 2 ^ 63 - 1.
Definition int_min : Z := - 2 ^ 63.

(** Two's complement wrap-around of a 64-bit signed integer. *)
Definition int_wrap (z : Z) : Z := (z + 2 ^ 63) mod 2 ^ 64 - 2 ^ 63.

(** ** [path/filepath], slash-separated implementation *)

Module filepath.

Definition is_sep (c : ascii) : bool := Ascii.eqb c "/"%char.

(** [strings.Split(s, "/")] *)
Fixpoint split_sep (s : string) : list string :=
  match s with
  | EmptyString => [ EmptyString ]
  | String c s' =>
      if is_sep c then EmptyString :: split_sep s'
      else match split_sep s' with
           | x :: xs => String c x :: xs
           | [] => [ String c EmptyString ]
           end
  end.

(** [strings.Join(elems, "/")] *)
Fixpoint join_sep (elems : list string) : string :=
  match elems with
  | [] => ""
  | [ e ] => e
  | e :: rest => e +:+ "/" +:+ join_sep rest
  end.

(** One iteration of the loop of [filepath.Clean].  [out] is the stack of
    path elements already written, most recent first. *)
Definition clean_step (rooted : bool) (out : list string) (elem : string)
  : list string :=
  if decide (elem = "") then out
  else if decide (elem = ".") then out
  else if decide (elem = "..") then
    match out with
    | top :: rest => if decide (top = "..") then ".." :: out else rest
    | [] => if rooted then [] else [ ".." ]
    end
  else elem :: out.

(** [filepath.Clean] *)
Definition Clean (path : string) : string :=
  let rooted := match path with String c _ => is_sep c | _ => false end in
  let out := foldl (clean_step rooted) [] (split_sep path) in
  let body := join_sep (rev out) in
  if rooted then "/" +:+ body
  else if decide (body = "") then "." else body.

(** [filepath.Join] *)
Fixpoint Join (elem : list string) : string :=
  match elem with
  | [] => ""
  | e :: rest => if decide (e = "") then Join rest else Clean (join_sep elem)
  end.

(** The last element of a path that carries no trailing separator. *)
Fixpoint last_elem (s : string) : string :=
  match s with
  | EmptyString => EmptyString
  | String c s' =>
      if existsb is_sep (list_ascii_of_string s') then last_elem s'
      else if is_sep c then s' else s
  end.

Fixpoint strip_trailing_sep (s : string) : string :=
  match s with
  | EmptyString => EmptyString
  | String c s' =>
      match strip_trailing_sep s' with
      | EmptyString => if is_sep c then EmptyString else String c EmptyString
      | t => String c t
      end
  end.

(** [filepath.Base] *)
Definition Base (path : string) : string :=
  if decide (path = "") then "."
  else
    let p := last_elem (strip_trailing_sep path) in
    if decide (p = "") then "/" else p.

End filepath.

(** ** [fmt.Sprintf] at the two formats the code uses *)

(** [fmt.Sprintf("%s_%d", datasetName, counter)] *)
Definition Sprintf_s_d (datasetName : string) (counter : Z) : string :=
  datasetName +:+ "_" +:+ pretty counter.

(** [fmt.Sprintf("%s.pbix", name)] *)
Definition Sprintf_pbix (name : string) : string := name +:+ ".pbix".

(** ** The name reconciler of [restoreReportsPBIX] (service.go, 111-120) *)

(** The probing loop
    [for existingDatasets[fmt.Sprintf("%s_%d", datasetName, counter)] { counter++ }].
    The Go loop carries no bound; [fuel] bounds the number of tests of the
    loop condition and [None] stands for a loop still running when the fuel
    is spent. *)
Fixpoint probe (fuel : nat) (existingDatasets : gset string)
    (datasetName : string) (counter : Z) : option Z :=
  match fuel with
  | O => None
  | S fuel' =>
      if decide (Sprintf_s_d datasetName counter ∈ existingDatasets)
      then probe fuel' existingDatasets datasetName (int_wrap (counter + 1))
      else Some counter
  end.

(** [finalName] as computed for one candidate.  The probing loop only runs
    when [datasetName] itself is taken, so at most [size existingDatasets]
    tests of the loop condition are needed (see [probe_total]). *)
Definition finalName (existingDatasets : gset string) (datasetName : string)
  : option string :=
  if decide (datasetName ∈ existingDatasets) then
    counter ← probe (size existingDatasets) existingDatasets datasetName 1;
    Some (Sprintf_s_d datasetName counter)
  else Some datasetName.

(** ** Decoded JSON, as [encoding/json] hands it to the code

    [map[string]interface{}] is [JObject]; a lookup [m[key]] returns the first
    binding of [key].  Numbers are kept as their literal. *)

Inductive json : Type :=
  | JNull
  | JBool (b : bool)
  | JNumber (literal : string)
  | JString (s : string)
  | JArray (items : list json)
  | JObject (fields : list (string * json)).

Abbreviation jmap := (list (string * json)).

Fixpoint jlookup (m : jmap) (key : string) : option json :=
  match m with
  | [] => None
  | (k, v) :: rest => if decide (k = key) then Some v else jlookup rest key
  end.

(** [v, ok := m[key].(string)] *)
Definition as_string (v : option json) : option string :=
  match v with Some (JString s) => Some s | _ => None end.

(** [v, ok := m[key].(bool)] *)
Definition as_bool (v : option json) : option bool :=
  match v with Some (JBool b) => Some b | _ => None end.

(** [v, ok := m[key].([]interface{})] *)
Definition as_array (v : option json) : option (list json) :=
  match v with Some (JArray l) => Some l | _ => None end.

(** [v, ok := item.(map[string]interface{})] *)
Definition as_object (v : json) : option jmap :=
  match v with JObject m => Some m | _ => None end.

(** ** [internal/models] *)

Module models.

Record ReportPage := {
  rp_Name : string; rp_DisplayName : string; rp_Order : Z }.

Record Report := {
  r_ID : string; r_Name : string; r_DatasetID : string;
  r_EmbedURL : string; r_WebURL : string; r_Pages : list ReportPage }.

Record Dataset := {
  ds_ID : string; ds_Name : string; ds_ConfigRefreshType : option string;
  ds_IsRefreshable : bool;
  ds_IsEffectiveIdentityRequired : bool;
  ds_IsEffectiveIdentityRolesRequired : bool }.

Record Dataflow := {
  df_ObjectID : string; df_Name : string; df_Description : option string }.

Record Dashboard := {
  db_ID : string; db_DisplayName : string; db_IsReadOnly : bool;
  db_EmbedURL : string }.

Record App := { app_ID : string; app_Name : string; app_WorkspaceID : string }.

Record RefreshSchedule := {
  DatasetID : string; DatasetName : string; Schedule : jmap }.

Record WorkspaceSettings := {
  ws_ID : string; ws_Name : string; ws_Type : string; ws_State : string;
  ws_IsReadOnly : bool; ws_Settings : jmap }.

(** [time.Time], as seconds since the epoch. *)
Definition Time := Z.

Record CompleteBackup := {
  Timestamp : Time;
  WorkspaceID : string;
  WorkspaceName : string;
  Reports : list Report;
  Datasets : list Dataset;
  Dataflows : list Dataflow;
  Dashboards : list Dashboard;
  Apps : list App;
  RefreshSchedules : list RefreshSchedule;
  WorkspaceSettings_ : WorkspaceSettings }.

End models.

Import models.

(** ** Values, errors and file contents *)

(** A Go [error] value, by its message. *)
Definition error := string.

(** A Go result pair [(value, err)]. *)
Inductive res (A : Type) : Type :=
  | Ok (a : A)
  | Err (e : error).
Arguments Ok {A} a.
Arguments Err {A} e.

Definition is_ok {A} (r : res A) : bool :=
  match r with Ok _ => true | Err _ => false end.

(** The [interface{}] argument of [saveComponent]. *)
Inductive Component : Type :=
  | CReports (l : list Report)
  | CDatasets (l : list Dataset)
  | CDataflows (l : list Dataflow)
  | CDashboards (l : list Dashboard)
  | CApps (l : list App)
  | CRefreshSchedules (l : list RefreshSchedule)
  | CWorkspaceSettings (s : WorkspaceSettings).

(** The content of a file: the bytes of an exported artifact, or the JSON
    text of a value, kept symbolic. *)
Inductive Data : Type :=
  | Bytes (body : string)
  | BackupJSON (b : CompleteBackup)
  | ComponentJSON (c : Component).

(** ** Calls that leave the process *)

Inductive Event : Type :=
  | EvMkdirAll (path : string) (r : res unit)
  | EvStat (path : string) (notExist : bool)
  | EvWriteFile (path : string) (data : Data) (r : res unit)
  | EvReadFile (path : string) (r : res Data)
  | EvReadDir (path : string) (r : res (list (string * bool)))
  | EvGlob (pattern : string) (r : res (list string))
  | EvGetWorkspaceSettings (workspaceID : string) (r : res jmap)
  | EvGetReports (workspaceID : string) (r : res jmap)
  | EvGetDatasets (workspaceID : string) (r : res jmap)
  | EvGetDataflows (workspaceID : string) (r : res jmap)
  | EvGetDashboards (workspaceID : string) (r : res jmap)
  | EvGetApps (r : res jmap)
  | EvGetRefreshSchedule (workspaceID datasetID : string) (r : res jmap)
  | EvExportReport (workspaceID reportID outputPath : string) (ok : bool)
  | EvImportPBIX (workspaceID pbixPath datasetName : string) (ok : bool)
  | EvUpdateRefreshSchedule (workspaceID datasetID : string) (schedule : jmap)
      (r : res unit).

(** The environment: clock, [os], [path/filepath.Glob], [encoding/json] and
    the methods of [api.Client], each as a transition of the world [W]. *)
Class Env (W : Type) := {
  time_Now : W → Time * W;
  time_Format : Time → string;
  os_MkdirAll : string → W → res unit * W;
  os_Stat_IsNotExist : string → W → bool * W;
  os_WriteFile : string → Data → W → res unit * W;
  os_ReadFile : string → W → res Data * W;
  os_ReadDir : string → W → res (list (string * bool)) * W;
  filepath_Glob : string → W → res (list string) * W;
  json_MarshalBackup : CompleteBackup → res Data;
  json_MarshalComponent : Component → res Data;
  json_UnmarshalBackup : Data → res CompleteBackup;
  api_GetWorkspaceSettings : string → W → res jmap * W;
  api_GetReports : string → W → res jmap * W;
  api_GetDatasets : string → W → res jmap * W;
  api_GetDataflows : string → W → res jmap * W;
  api_GetDashboards : string → W → res jmap * W;
  api_GetApps : W → res jmap * W;
  api_GetRefreshSchedule : string → string → W → res jmap * W;
  api_ExportReport : string → string → string → W → res bool * W;
  api_ImportPBIX : string → string → string → W → res bool * W;
  api_UpdateRefreshSchedule : string → string → jmap → W → res unit * W
}.

(** ** The monad of the embedding: world passing plus the list of calls made *)

Definition M (W A : Type) : Type := W → A * W * list Event.

Definition ret {W A} (a : A) : M W A := λ w, (a, w, []).

Definition bind {W A B} (m : M W A) (k : A → M W B) : M W B :=
  λ w, let '(a, w1, e1) := m w in
       let '(b, w2, e2) := k a w1 in
       (b, w2, e1 ++ e2).

Notation "x ⇐ m ;; k" := (bind m (λ x, k))
  (at level 100, m at next level, right associativity,
   format "'[v' x  ⇐  m  ;;  '/' k ']'").

(** Lift an operation of the environment, recording the call. *)
Definition call {W A} (op : W → A * W) (ev : A → Event) : M W A :=
  λ w, let '(a, w') := op w in (a, w', [ ev a ]).

Definition result_of {W A} (x : A * W * list Event) : A := x.1.1.
Definition world_of {W A} (x : A * W * list Event) : W := x.1.2.
Definition events_of {W A} (x : A * W * list Event) : list Event := x.2.

(** [err != nil || !success], negated: the call counts as a success. *)
Definition succeeded (r : res bool) : bool :=
  match r with Ok true => true | _ => false end.

(** ** [internal/storage] *)

Module storage.

Record StorageService := { backupPath : string }.

Section with_env.
Context {W : Type} {env : Env W}.

Definition GetBackupPath (s : StorageService) : string := s.(backupPath).

Definition saveComponent (dir filename : string) (data : Component)
  : M W (res unit) :=
  let filePath := filepath.Join [dir; filename] in
  match json_MarshalComponent data with
  | Err e => ret (Err e)
  | Ok jsonData =>
      call (os_WriteFile filePath jsonData) (EvWriteFile filePath jsonData)
  end.

Definition SaveBackup (s : StorageService) (backup : CompleteBackup)
  : M W (res string) :=
  let timestamp := time_Format backup.(Timestamp) in
  let backupDir :=
    filepath.Join [s.(backupPath); backup.(WorkspaceID); timestamp] in
  r ⇐ call (os_MkdirAll backupDir) (EvMkdirAll backupDir) ;;
  match r with
  | Err e => ret (Err e)
  | Ok _ =>
      let backupFile := filepath.Join [backupDir; "complete_backup.json"] in
      match json_MarshalBackup backup with
      | Err e => ret (Err e)
      | Ok data =>
          r ⇐ call (os_WriteFile backupFile data) (EvWriteFile backupFile data) ;;
          match r with
          | Err e => ret (Err e)
          | Ok _ =>
              _ ⇐ saveComponent backupDir "reports.json"
                    (CReports backup.(Reports)) ;;
              _ ⇐ saveComponent backupDir "datasets.json"
                    (CDatasets backup.(Datasets)) ;;
              _ ⇐ saveComponent backupDir "dataflows.json"
                    (CDataflows backup.(Dataflows)) ;;
              _ ⇐ saveComponent backupDir "dashboards.json"
                    (CDashboards backup.(Dashboards)) ;;
              _ ⇐ saveComponent backupDir "apps.json"
                    (CApps backup.(Apps)) ;;
              _ ⇐ saveComponent backupDir "refresh_schedules.json"
                    (CRefreshSchedules backup.(RefreshSchedules)) ;;
              _ ⇐ saveComponent backupDir "workspace_settings.json"
                    (CWorkspaceSettings backup.(WorkspaceSettings_)) ;;
              ret (Ok backupDir)
          end
      end
  end.

Definition LoadBackup (s : StorageService) (backupPath : string)
  : M W (res CompleteBackup) :=
  let backupFile := filepath.Join [backupPath; "complete_backup.json"] in
  data ⇐ call (os_ReadFile backupFile) (EvReadFile backupFile) ;;
  match data with
  | Err e => ret (Err e)
  | Ok data => ret (json_UnmarshalBackup data)
  end.

Definition ListBackups (s : StorageService) (workspaceID : string)
  : M W (res (list string)) :=
  let workspaceDir := filepath.Join [s.(backupPath); workspaceID] in
  notExist ⇐ call (os_Stat_IsNotExist workspaceDir) (EvStat workspaceDir) ;;
  if (notExist : bool) then ret (Ok [])
  else
    entries ⇐ call (os_ReadDir workspaceDir) (EvReadDir workspaceDir) ;;
    match entries with
    | Err e => ret (Err e)
    | Ok entries =>
        ret (Ok (omap (λ entry : string * bool,
                         if entry.2
                         then Some (filepath.Join [workspaceDir; entry.1])
                         else None) entries))
    end.

Definition GetLatestBackup (s : StorageService) (workspaceID : string)
  : M W (res string) :=
  backups ⇐ ListBackups s workspaceID ;;
  match backups with
  | Err e => ret (Err e)
  | Ok backups =>
      match last backups with
      | None => ret (Err ("no backups found for workspace: " +:+ workspaceID))
      | Some latest => ret (Ok latest)
      end
  end.

End with_env.
End storage.

(** ** [internal/backup] *)

Module backup.

Record Service := { storageService : storage.StorageService }.

(** The [map[string]int] returned by [backupReportsPBIX]; both counters are
    bounded by [len(reports)] and cannot overflow. *)
Record PbixStatus := { st_succeeded : nat; st_failed : nat }.

Definition getString (m : jmap) (key : string) : string :=
  default "" (as_string (jlookup m key)).

Definition getBool (m : jmap) (key : string) : bool :=
  default false (as_bool (jlookup m key)).

Definition report_of (item : json) : option Report :=
  reportMap ← as_object item;
  Some {| r_ID := getString reportMap "id";
          r_Name := getString reportMap "name";
          r_DatasetID := getString reportMap "datasetId";
          r_EmbedURL := getString reportMap "embedUrl";
          r_WebURL := getString reportMap "webUrl";
          r_Pages := [] |}.

Definition dataset_of (item : json) : option Dataset :=
  datasetMap ← as_object item;
  Some {| ds_ID := getString datasetMap "id";
          ds_Name := getString datasetMap "name";
          ds_ConfigRefreshType := None;
          ds_IsRefreshable := getBool datasetMap "isRefreshable";
          ds_IsEffectiveIdentityRequired :=
            getBool datasetMap "isEffectiveIdentityRequired";
          ds_IsEffectiveIdentityRolesRequired :=
            getBool datasetMap "isEffectiveIdentityRolesRequired" |}.

Definition dataflow_of (item : json) : option Dataflow :=
  dataflowMap ← as_object item;
  Some {| df_ObjectID := getString dataflowMap "objectId";
          df_Name := getString dataflowMap "name";
          df_Description := None |}.

Definition dashboard_of (item : json) : option Dashboard :=
  dashboardMap ← as_object item;
  Some {| db_ID := getString dashboardMap "id";
          db_DisplayName := getString dashboardMap "displayName";
          db_IsReadOnly := getBool dashboardMap "isReadOnly";
          db_EmbedURL := getString dashboardMap "embedUrl" |}.

Definition app_of (workspaceID : string) (item : json) : option App :=
  appMap ← as_object item;
  if decide (getString appMap "workspaceId" = workspaceID)
  then Some {| app_ID := getString appMap "id";
               app_Name := getString appMap "name";
               app_WorkspaceID := getString appMap "workspaceId" |}
  else None.

(** The body shared by the four collection fetches: a missing or ill-typed
    ["value"] gives the empty slice, items that are not objects are skipped. *)
Definition collect {A} (of_item : json → option A) (response : jmap)
  : list A :=
  match as_array (jlookup response "value") with
  | None => []
  | Some value => omap of_item value
  end.

Section with_env.
Context {W : Type} {env : Env W}.

Definition backupReports (s : Service) (workspaceID : string)
  : M W (res (list Report)) :=
  response ⇐ call (api_GetReports workspaceID) (EvGetReports workspaceID) ;;
  match response with
  | Err e => ret (Err e)
  | Ok response => ret (Ok (collect report_of response))
  end.

Definition backupDatasets (s : Service) (workspaceID : string)
  : M W (res (list Dataset)) :=
  response ⇐ call (api_GetDatasets workspaceID) (EvGetDatasets workspaceID) ;;
  match response with
  | Err e => ret (Err e)
  | Ok response => ret (Ok (collect dataset_of response))
  end.

Definition backupDataflows (s : Service) (workspaceID : string)
  : M W (res (list Dataflow)) :=
  response ⇐ call (api_GetDataflows workspaceID) (EvGetDataflows workspaceID) ;;
  match response with
  | Err e => ret (Err e)
  | Ok response => ret (Ok (collect dataflow_of response))
  end.

Definition backupDashboards (s : Service) (workspaceID : string)
  : M W (res (list Dashboard)) :=
  response ⇐ call (api_GetDashboards workspaceID)
               (EvGetDashboards workspaceID) ;;
  match response with
  | Err e => ret (Err e)
  | Ok response => ret (Ok (collect dashboard_of response))
  end.

Definition backupApps (s : Service) (workspaceID : string)
  : M W (res (list App)) :=
  response ⇐ call api_GetApps EvGetApps ;;
  match response with
  | Err _ => ret (Ok [])
  | Ok response => ret (Ok (collect (app_of workspaceID) response))
  end.

(** The loop of [backupRefreshSchedules]; [schedules] is the slice built so
    far. *)
Fixpoint refreshSchedules_loop (workspaceID : string)
    (datasets : list Dataset) (schedules : list RefreshSchedule)
  : M W (list RefreshSchedule) :=
  match datasets with
  | [] => ret schedules
  | dataset :: rest =>
      schedule ⇐ call (api_GetRefreshSchedule workspaceID dataset.(ds_ID))
                   (EvGetRefreshSchedule workspaceID dataset.(ds_ID)) ;;
      match schedule with
      | Err _ => refreshSchedules_loop workspaceID rest schedules
      | Ok schedule =>
          refreshSchedules_loop workspaceID rest
            (schedules ++ [ {| DatasetID := dataset.(ds_ID);
                               DatasetName := dataset.(ds_Name);
                               Schedule := schedule |} ])
      end
  end.

Definition backupRefreshSchedules (s : Service) (workspaceID : string)
    (datasets : list Dataset) : M W (res (list RefreshSchedule)) :=
  schedules ⇐ refreshSchedules_loop workspaceID datasets [] ;;
  ret (Ok schedules).

(** The output path of one artifact (backup/service.go, 338). *)
Definition pbixFile_of (pbixDir : string) (report : Report) : string :=
  filepath.Join [pbixDir; Sprintf_pbix report.(r_Name)].

(** The export loop of [backupReportsPBIX]. *)
Fixpoint export_loop (workspaceID pbixDir : string) (reports : list Report)
    (st : PbixStatus) : M W PbixStatus :=
  match reports with
  | [] => ret st
  | report :: rest =>
      let pbixFile := pbixFile_of pbixDir report in
      ok ⇐ call (api_ExportReport workspaceID report.(r_ID) pbixFile)
             (λ r, EvExportReport workspaceID report.(r_ID) pbixFile
                     (succeeded r)) ;;
      if succeeded ok
      then export_loop workspaceID pbixDir rest
             {| st_succeeded := S st.(st_succeeded);
                st_failed := st.(st_failed) |}
      else export_loop workspaceID pbixDir rest
             {| st_succeeded := st.(st_succeeded);
                st_failed := S st.(st_failed) |}
  end.

Definition backupReportsPBIX (s : Service) (workspaceID : string)
    (reports : list Report) (backupDir : string) : M W (res PbixStatus) :=
  if decide (length reports = 0%nat)
  then ret (Ok {| st_succeeded := 0; st_failed := 0 |})
  else
    let pbixDir := filepath.Join [backupDir; "pbix"] in
    r ⇐ call (os_MkdirAll pbixDir) (EvMkdirAll pbixDir) ;;
    match r with
    | Err e => ret (Err e)
    | Ok _ =>
        st ⇐ export_loop workspaceID pbixDir reports
               {| st_succeeded := 0; st_failed := 0 |} ;;
        ret (Ok st)
    end.

(** The value of a slice variable after [v, err := f()]: the nil slice when
    [f] reported an error. *)
Definition slice_of {A} (r : res (list A)) : list A :=
  match r with Ok l => l | Err _ => [] end.

Definition BackupWorkspace (s : Service) (workspaceID : string)
  : M W (res CompleteBackup) :=
  backupTime ⇐ (λ w, let '(t, w') := time_Now w in (t, w', [])) ;;
  let timestamp := time_Format backupTime in
  let backupDir :=
    filepath.Join [storage.GetBackupPath s.(storageService);
                   workspaceID; timestamp] in
  r ⇐ call (os_MkdirAll backupDir) (EvMkdirAll backupDir) ;;
  match r with
  | Err e => ret (Err e)
  | Ok _ =>
  workspaceData ⇐ call (api_GetWorkspaceSettings workspaceID)
                    (EvGetWorkspaceSettings workspaceID) ;;
  match workspaceData with
  | Err e => ret (Err e)
  | Ok workspaceData =>
  let workspaceName := default "" (as_string (jlookup workspaceData "name")) in
  reports ⇐ backupReports s workspaceID ;;
  datasets ⇐ backupDatasets s workspaceID ;;
  dataflows ⇐ backupDataflows s workspaceID ;;
  dashboards ⇐ backupDashboards s workspaceID ;;
  apps ⇐ backupApps s workspaceID ;;
  schedules ⇐ backupRefreshSchedules s workspaceID (slice_of datasets) ;;
  _ ⇐ backupReportsPBIX s workspaceID (slice_of reports) backupDir ;;
  let backup :=
    {| Timestamp := backupTime;
       WorkspaceID := workspaceID;
       WorkspaceName := workspaceName;
       Reports := slice_of reports;
       Datasets := slice_of datasets;
       Dataflows := slice_of dataflows;
       Dashboards := slice_of dashboards;
       Apps := slice_of apps;
       RefreshSchedules := slice_of schedules;
       WorkspaceSettings_ :=
         {| ws_ID := workspaceID; ws_Name := workspaceName;
            ws_Type := ""; ws_State := ""; ws_IsReadOnly := false;
            ws_Settings := [] |} |} in
  saved ⇐ storage.SaveBackup s.(storageService) backup ;;
  match saved with
  | Err e => ret (Err e)
  | Ok _ => ret (Ok backup)
  end
  end
  end.

End with_env.
End backup.

(** ** [internal/restore] *)

Module restore.

Record Service := { storageService : storage.StorageService }.

(** How a Go function returning [error] can end: it returns (with a nil or
    non-nil error), it panics, or, for the fuel-bounded probing loop, it is
    still running when the fuel is spent. *)
Inductive outcome : Type :=
  | Returned (err : option error)
  | Panicked
  | OutOfFuel.

(** [fileName[:len(fileName)-5]]; a file name shorter than five bytes makes
    the slice expression panic. *)
Definition datasetName_of (fileName : string) : option string :=
  let n := String.length fileName in
  if decide (5 ≤ n)%nat then Some (substring 0 (n - 5) fileName) else None.

(** The names put in [existingDatasets] from the response of [GetDatasets]
    (restore/service.go, 87-99); an error leaves the map empty. *)
Definition existing_names (datasetsResp : res jmap) : gset string :=
  match datasetsResp with
  | Err _ => ∅
  | Ok datasetsResp =>
      match as_array (jlookup datasetsResp "value") with
      | None => ∅
      | Some value =>
          list_to_set
            (omap (λ item, ds ← as_object item; as_string (jlookup ds "name"))
                  value)
      end
  end.

(** The local variables of the import loop; the two counters are bounded by
    [len(files)] and cannot overflow. *)
Record ImportState := {
  existingDatasets : gset string;
  imported : nat;
  failed : nat }.

Inductive loop_result : Type :=
  | LoopDone (st : ImportState)
  | LoopPanicked
  | LoopOutOfFuel.

(** [datasetNameToID], built from the response of [GetDatasets]
    (restore/service.go, 156-167): later items overwrite earlier ones. *)
Definition index_step (datasetNameToID : gmap string string) (item : json)
  : gmap string string :=
  match as_object item with
  | None => datasetNameToID
  | Some ds =>
      let name := default "" (as_string (jlookup ds "name")) in
      let id := default "" (as_string (jlookup ds "id")) in
      if decide (name ≠ "" ∧ id ≠ "") then <[ name := id ]> datasetNameToID
      else datasetNameToID
  end.

Definition name_index (datasetsResp : jmap) : gmap string string :=
  match as_array (jlookup datasetsResp "value") with
  | None => ∅
  | Some value => foldl index_step ∅ value
  end.

(** The two counters of [restoreRefreshSchedules]; they are bounded by
    [len(schedules)] and cannot overflow. *)
Record ScheduleCount := { restored : nat; sc_failed : nat }.

Section with_env.
Context {W : Type} {env : Env W}.

(** The loop [for _, pbixFile := range files] of [restoreReportsPBIX]. *)
Fixpoint import_loop (workspaceID : string) (files : list string)
    (st : ImportState) : M W loop_result :=
  match files with
  | [] => ret (LoopDone st)
  | pbixFile :: rest =>
      let fileName := filepath.Base pbixFile in
      match datasetName_of fileName with
      | None => ret LoopPanicked
      | Some datasetName =>
          match finalName st.(existingDatasets) datasetName with
          | None => ret LoopOutOfFuel
          | Some final =>
              ok ⇐ call (api_ImportPBIX workspaceID pbixFile final)
                     (λ r, EvImportPBIX workspaceID pbixFile final
                             (succeeded r)) ;;
              if succeeded ok
              then import_loop workspaceID rest
                     {| existingDatasets :=
                          {[ final ]} ∪ st.(existingDatasets);
                        imported := S st.(imported);
                        failed := st.(failed) |}
              else import_loop workspaceID rest
                     {| existingDatasets := st.(existingDatasets);
                        imported := st.(imported);
                        failed := S st.(failed) |}
          end
      end
  end.

Definition restoreReportsPBIX (s : Service) (workspaceID backupPath : string)
  : M W outcome :=
  let pbixDir := filepath.Join [backupPath; "pbix"] in
  notExist ⇐ call (os_Stat_IsNotExist pbixDir) (EvStat pbixDir) ;;
  if (notExist : bool) then ret (Returned None)
  else
    let pattern := filepath.Join [pbixDir; "*.pbix"] in
    files ⇐ call (filepath_Glob pattern) (EvGlob pattern) ;;
    match files with
    | Err e => ret (Returned (Some e))
    | Ok files =>
        if decide (length files = 0%nat) then ret (Returned None)
        else
          datasetsResp ⇐ call (api_GetDatasets workspaceID)
                           (EvGetDatasets workspaceID) ;;
          r ⇐ import_loop workspaceID files
                {| existingDatasets := existing_names datasetsResp;
                   imported := 0; failed := 0 |} ;;
          match r with
          | LoopDone _ => ret (Returned None)
          | LoopPanicked => ret Panicked
          | LoopOutOfFuel => ret OutOfFuel
          end
    end.

(** The loop [for _, schedule := range schedules] of
    [restoreRefreshSchedules]. *)
Fixpoint schedule_loop (workspaceID : string)
    (datasetNameToID : gmap string string)
    (schedules : list RefreshSchedule) (c : ScheduleCount)
  : M W ScheduleCount :=
  match schedules with
  | [] => ret c
  | schedule :: rest =>
      match datasetNameToID !! schedule.(DatasetName) with
      | None =>
          schedule_loop workspaceID datasetNameToID rest
            {| restored := c.(restored); sc_failed := S c.(sc_failed) |}
      | Some newDatasetID =>
          r ⇐ call (api_UpdateRefreshSchedule workspaceID newDatasetID
                      schedule.(Schedule))
                 (EvUpdateRefreshSchedule workspaceID newDatasetID
                      schedule.(Schedule)) ;;
          match r with
          | Err _ =>
              schedule_loop workspaceID datasetNameToID rest
                {| restored := c.(restored); sc_failed := S c.(sc_failed) |}
          | Ok _ =>
              schedule_loop workspaceID datasetNameToID rest
                {| restored := S c.(restored); sc_failed := c.(sc_failed) |}
          end
      end
  end.

(** [restoreRefreshSchedules] returns an [error] after logging its two
    counters; the embedding returns the counters along with it ([None] when
    the loop was not reached). *)
Definition restoreRefreshSchedules (s : Service) (workspaceID : string)
    (schedules : list RefreshSchedule)
  : M W (option error * option ScheduleCount) :=
  if decide (length schedules = 0%nat) then ret (None, None)
  else
    datasetsResp ⇐ call (api_GetDatasets workspaceID)
                     (EvGetDatasets workspaceID) ;;
    match datasetsResp with
    | Err e => ret (Some e, None)
    | Ok datasetsResp =>
        c ⇐ schedule_loop workspaceID (name_index datasetsResp) schedules
              {| restored := 0; sc_failed := 0 |} ;;
        ret (None, Some c)
    end.

Definition RestoreWorkspace (s : Service)
    (targetWorkspaceID backupPath : string) : M W outcome :=
  backup ⇐ storage.LoadBackup s.(storageService) backupPath ;;
  match backup with
  | Err e => ret (Returned (Some e))
  | Ok backup =>
      r ⇐ restoreReportsPBIX s targetWorkspaceID backupPath ;;
      match r with
      | Returned (Some e) => ret (Returned (Some e))
      | Panicked => ret Panicked
      | OutOfFuel => ret OutOfFuel
      | Returned None =>
          _ ⇐ restoreRefreshSchedules s targetWorkspaceID
                backup.(RefreshSchedules) ;;
          ret (Returned None)
      end
  end.

End with_env.
End restore.

(** ** A concrete environment

    An in-memory file system and a scripted remote service, used to run the
    embedding on concrete inputs.  Paths are kept in their [filepath.Clean]
    form; ["."] and ["/"] always exist. *)

Module sim.

Record World := {
  clock : Z;
  dirs : list string;
  files : list (string * Data);
  (** names of the operations that currently fail: ["settings"], ["reports"],
      ["datasets"], ["dataflows"], ["dashboards"], ["apps"], ["write"],
      ["mkdir"] *)
  down : list string;
  (** the remote service: reports and datasets as (workspace, id, name),
      schedules by dataset id *)
  remote_reports : list (string * string * string);
  remote_datasets : list (string * string * string);
  remote_schedules : list (string * jmap);
  (** report ids whose export, artifact paths whose import and dataset ids
      whose schedule update the service refuses *)
  export_refused : list string;
  import_refused : list string;
  update_refused : list string }.

Definition is_down (w : World) (op : string) : bool :=
  bool_decide (op ∈ w.(down)).

(** The directory part of a cleaned path. *)
Fixpoint dir_chars (s : string) : string :=
  match s with
  | EmptyString => EmptyString
  | String c s' =>
      if existsb filepath.is_sep (list_ascii_of_string s') then
        String c (dir_chars s')
      else EmptyString
  end.

Definition parent (p : string) : string :=
  match p with
  | String c _ =>
      if existsb filepath.is_sep (list_ascii_of_string p) then
        match dir_chars p with
        | EmptyString => "/"
        | d => d
        end
      else "."
  | EmptyString => "."
  end.

Definition dir_exists (w : World) (p : string) : bool :=
  bool_decide (p = "." ∨ p = "/" ∨ p ∈ w.(dirs)).

Fixpoint assoc {A} (key : string) (l : list (string * A)) : option A :=
  match l with
  | [] => None
  | (k, v) :: rest => if decide (k = key) then Some v else assoc key rest
  end.

Definition file_lookup (w : World) (p : string) : option Data :=
  assoc p w.(files).

Definition exists_at (w : World) (p : string) : bool :=
  dir_exists w p || bool_decide (is_Some (file_lookup w p)).

(** [p] and its ancestors, nearest first. *)
Fixpoint ancestors (fuel : nat) (p : string) : list string :=
  match fuel with
  | O => []
  | S fuel' =>
      if bool_decide (p = "." ∨ p = "/") then []
      else p :: ancestors fuel' (parent p)
  end.

Definition set_dirs (w : World) (d : list string) : World :=
  {| clock := w.(clock); dirs := d; files := w.(files); down := w.(down);
     remote_reports := w.(remote_reports);
     remote_datasets := w.(remote_datasets);
     remote_schedules := w.(remote_schedules);
     export_refused := w.(export_refused);
     import_refused := w.(import_refused);
     update_refused := w.(update_refused) |}.

Definition set_files (w : World) (f : list (string * Data)) : World :=
  {| clock := w.(clock); dirs := w.(dirs); files := f; down := w.(down);
     remote_reports := w.(remote_reports);
     remote_datasets := w.(remote_datasets);
     remote_schedules := w.(remote_schedules);
     export_refused := w.(export_refused);
     import_refused := w.(import_refused);
     update_refused := w.(update_refused) |}.

Definition MkdirAll (path : string) (w : World) : res unit * World :=
  let p := filepath.Clean path in
  let chain := ancestors (S (String.length p)) p in
  if is_down w "mkdir" then (Err "mkdir: permission denied", w)
  else if existsb (λ a, bool_decide (is_Some (file_lookup w a))) chain
  then (Err "mkdir: not a directory", w)
  else (Ok (), set_dirs w (list_union w.(dirs) (reverse chain))).

Definition Stat_IsNotExist (path : string) (w : World) : bool * World :=
  (negb (exists_at w (filepath.Clean path)), w).

(** Create or truncate the file at [path]. *)
Definition write (path : string) (data : Data) (w : World)
  : res unit * World :=
  let p := filepath.Clean path in
  if is_down w "write" then (Err "write: no space left on device", w)
  else if negb (dir_exists w (parent p)) then
    (Err "open: no such file or directory", w)
  else if dir_exists w p then (Err "open: is a directory", w)
  else (Ok (), set_files w ((p, data) :: filter (λ e, e.1 ≠ p) w.(files))).

Definition ReadFile (path : string) (w : World) : res Data * World :=
  match file_lookup w (filepath.Clean path) with
  | Some d => (Ok d, w)
  | None => (Err "open: no such file or directory", w)
  end.

Fixpoint insert_sorted (x : string * bool) (l : list (string * bool))
  : list (string * bool) :=
  match l with
  | [] => [ x ]
  | y :: l' =>
      if String.leb x.1 y.1 then x :: l else y :: insert_sorted x l'
  end.

(** The entries of directory [p], sorted by name; the flag is [IsDir]. *)
Definition entries (w : World) (p : string) : list (string * bool) :=
  let sub := filter (λ d, parent d = p ∧ d ≠ p) w.(dirs) in
  let fil := filter (λ f, parent f = p) (fst <$> w.(files)) in
  foldr insert_sorted []
    (((λ d, (filepath.Base d, true)) <$> sub)
       ++ ((λ f, (filepath.Base f, false)) <$> fil)).

Definition ReadDir (path : string) (w : World)
  : res (list (string * bool)) * World :=
  let p := filepath.Clean path in
  if dir_exists w p then (Ok (entries w p), w)
  else (Err "open: no such file or directory", w).

Fixpoint has_suffix (suffix s : string) : bool :=
  bool_decide (s = suffix)
  || match s with
     | EmptyString => false
     | String _ s' => has_suffix suffix s'
     end.

(** [filepath.Glob] on the one pattern shape the code uses: a directory
    without metacharacters followed by [*.pbix]. *)
Definition Glob (pattern : string) (w : World) : res (list string) * World :=
  let dir := parent pattern in
  if bool_decide (filepath.Base pattern = "*.pbix") then
    (Ok ((λ e : string * bool, filepath.Join [dir; e.1])
           <$> filter (λ e, has_suffix ".pbix" e.1 = true) (entries w dir)), w)
  else (Err "syntax error in pattern", w).

Definition jdataset (d : string * string * string) : json :=
  JObject [("id", JString d.1.2); ("name", JString d.2)].

Definition listing (ws : string) (l : list (string * string * string))
  : jmap :=
  [("value", JArray (jdataset <$> filter (λ d, d.1.1 = ws) l))].

Definition fetch (op : string) (body : jmap) (w : World) : res jmap * World :=
  if is_down w op then (Err "API error 500", w) else (Ok body, w).

Definition GetRefreshSchedule (ws id : string) (w : World)
  : res jmap * World :=
  match assoc id w.(remote_schedules) with
  | Some sch => (Ok sch, w)
  | None => (Err "API error 404", w)
  end.

(** [api.Client.ExportReport]: the body of the response is written to
    [outputPath] with [os.Create] and [io.Copy]. *)
Definition ExportReport (ws reportID outputPath : string) (w : World)
  : res bool * World :=
  if bool_decide (reportID ∈ w.(export_refused))
  then (Err "export failed: status 500", w)
  else match write outputPath (Bytes ("pbix of " +:+ reportID)) w with
       | (Ok _, w') => (Ok true, w')
       | (Err e, w') => (Err e, w')
       end.

(** [api.Client.ImportPBIX]: the file is opened and posted with
    [nameConflict=Abort]; an accepted import creates the dataset. *)
Definition ImportPBIX (ws pbixPath datasetName : string) (w : World)
  : res bool * World :=
  match file_lookup w (filepath.Clean pbixPath) with
  | None => (Err "open: no such file or directory", w)
  | Some _ =>
      if bool_decide (filepath.Clean pbixPath ∈ w.(import_refused))
         || bool_decide ((ws, datasetName) ∈
               (λ d, (d.1.1, d.2)) <$> w.(remote_datasets))
      then (Err "import failed: 409", w)
      else (Ok true,
            {| clock := w.(clock); dirs := w.(dirs); files := w.(files);
               down := w.(down);
               remote_reports := w.(remote_reports);
               remote_datasets :=
                 w.(remote_datasets)
                   ++ [ (ws, "id-" +:+ datasetName, datasetName) ];
               remote_schedules := w.(remote_schedules);
               export_refused := w.(export_refused);
               import_refused := w.(import_refused);
               update_refused := w.(update_refused) |})
  end.

Definition UpdateRefreshSchedule (ws id : string) (schedule : jmap)
    (w : World) : res unit * World :=
  if bool_decide (id ∈ w.(update_refused)) then (Err "API error 400", w)
  else (Ok (),
        {| clock := w.(clock); dirs := w.(dirs); files := w.(files);
           down := w.(down);
           remote_reports := w.(remote_reports);
           remote_datasets := w.(remote_datasets);
           remote_schedules :=
             (id, schedule) :: filter (λ e, e.1 ≠ id) w.(remote_schedules);
           export_refused := w.(export_refused);
           import_refused := w.(import_refused);
           update_refused := w.(update_refused) |}).

#[global] Instance env : Env World := {|
  time_Now := λ w, (w.(clock), w);
  time_Format := λ t, pretty t;
  os_MkdirAll := MkdirAll;
  os_Stat_IsNotExist := Stat_IsNotExist;
  os_WriteFile := write;
  os_ReadFile := ReadFile;
  os_ReadDir := ReadDir;
  filepath_Glob := Glob;
  json_MarshalBackup := λ b, Ok (BackupJSON b);
  json_MarshalComponent := λ c, Ok (ComponentJSON c);
  json_UnmarshalBackup := λ d,
    match d with
    | BackupJSON b => Ok b
    | _ => Err "json: cannot unmarshal"
    end;
  api_GetWorkspaceSettings := λ ws,
    fetch "settings" [("id", JString ws); ("name", JString ("name of " +:+ ws))];
  api_GetReports := λ ws w, fetch "reports" (listing ws w.(remote_reports)) w;
  api_GetDatasets := λ ws w,
    fetch "datasets" (listing ws w.(remote_datasets)) w;
  api_GetDataflows := λ ws, fetch "dataflows" [("value", JArray [])];
  api_GetDashboards := λ ws, fetch "dashboards" [("value", JArray [])];
  api_GetApps := fetch "apps" [("value", JArray [])];
  api_GetRefreshSchedule := GetRefreshSchedule;
  api_ExportReport := ExportReport;
  api_ImportPBIX := ImportPBIX;
  api_UpdateRefreshSchedule := UpdateRefreshSchedule
|}.

End sim.

(** ** Reading a run off its list of calls *)

(** The imports attempted, as (artifact path, dataset name, success). *)
Definition import_of (e : Event) : option (string * string * bool) :=
  match e with
  | EvImportPBIX _ pbixPath datasetName ok => Some (pbixPath, datasetName, ok)
  | _ => None
  end.

Definition imports (evs : list Event) : list (string * string * bool) :=
  omap import_of evs.

(** The dataset names of the imports attempted, in order. *)
Definition import_names (evs : list Event) : list string :=
  (λ x : string * string * bool, x.1.2) <$> imports evs.

(** The names of the imports that succeeded: the names the loop registers in
    [existingDatasets]. *)
Definition reserved (imps : list (string * string * bool)) : list string :=
  omap (λ x : string * string * bool, if x.2 then Some x.1.2 else None) imps.

(** The exports attempted, as (report id, output path, success). *)
Definition export_of (e : Event) : option (string * string * bool) :=
  match e with
  | EvExportReport _ reportID outputPath ok => Some (reportID, outputPath, ok)
  | _ => None
  end.

Definition exports (evs : list Event) : list (string * string * bool) :=
  omap export_of evs.

(** The schedule updates pushed, as (dataset id, schedule). *)
Definition update_of (e : Event) : option (string * jmap) :=
  match e with
  | EvUpdateRefreshSchedule _ datasetID schedule _ => Some (datasetID, schedule)
  | _ => None
  end.

Definition updates (evs : list Event) : list (string * jmap) :=
  omap update_of evs.

(** ** The reconciler as the specification words it *)

(** [final] is ["{d}_{n}"] for the smallest positive [n] whose form is not
    in [E]. *)
Definition is_minimal_suffix (E : gset string) (d final : string) : Prop :=
  ∃ n, 1 ≤ n ∧ final = Sprintf_s_d d n ∧ (final ∉ E) ∧
       ∀ m, 1 ≤ m < n → Sprintf_s_d d m ∈ E.

(** A run of the reconciler over the candidates [stems], starting from the
    taken set [E]: every name handed out is outside the taken set, equal to
    the candidate when the candidate is free and the minimal suffixed form
    otherwise; the name joins the taken set when its import succeeded. *)
Fixpoint reconciled (E : gset string) (stems : list string)
    (imps : list (string * string * bool)) : Prop :=
  match stems, imps with
  | [], [] => True
  | d :: stems', (f, final, ok) :: imps' =>
      (final ∉ E) ∧ (d ∉ E → final = d) ∧
      (d ∈ E → is_minimal_suffix E d final) ∧
      reconciled (if ok : bool then {[ final ]} ∪ E else E) stems' imps'
  | _, _ => False
  end.

(** ** Concrete worlds *)

Module scenario.
Import sim.

Definition store : storage.StorageService :=
  {| storage.backupPath := "./backups" |}.
Definition backup_service : backup.Service :=
  {| backup.storageService := store |}.
Definition restore_service : restore.Service :=
  {| restore.storageService := store |}.

Definition empty_snapshot : CompleteBackup :=
  {| Timestamp := 7; WorkspaceID := "W"; WorkspaceName := "name of W";
     Reports := []; Datasets := []; Dataflows := []; Dashboards := [];
     Apps := []; RefreshSchedules := [];
     WorkspaceSettings_ :=
       {| ws_ID := "W"; ws_Name := "name of W"; ws_Type := "";
          ws_State := ""; ws_IsReadOnly := false; ws_Settings := [] |} |}.

(** A snapshot directory [snap] holding the artifacts [A.pbix] and
    [A_1.pbix]; the target workspace [T] already has a dataset named [A],
    and the service rejects the first artifact. *)
Definition rejected_artifact : World :=
  {| clock := 8;
     dirs := [ "snap"; "snap/pbix" ];
     files := [ ("snap/complete_backup.json", BackupJSON empty_snapshot);
                ("snap/pbix/A.pbix", Bytes "a");
                ("snap/pbix/A_1.pbix", Bytes "b") ];
     down := [];
     remote_reports := [];
     remote_datasets := [ ("T", "d0", "A") ];
     remote_schedules := [];
     export_refused := [];
     import_refused := [ "snap/pbix/A.pbix" ];
     update_refused := [] |}.

End scenario.

(** ** Schedule remapping as the specification words it *)

(** The updates to push: for each schedule, in order, whose captured dataset
    name is in the index, the dataset id found there and the schedule. *)
Definition remapped (index : gmap string string)
    (schedules : list RefreshSchedule) : list (string * jmap) :=
  omap (λ sch, id ← index !! sch.(DatasetName); Some (id, sch.(Schedule)))
       schedules.

(** The schedules whose captured dataset name has no match in the index. *)
Definition unmatched (index : gmap string string)
    (schedules : list RefreshSchedule) : list RefreshSchedule :=
  filter (λ sch, index !! sch.(DatasetName) = None) schedules.

(** The update calls that the service refused. *)
Definition refused_update (e : Event) : option string :=
  match e with
  | EvUpdateRefreshSchedule _ datasetID _ (Err _) => Some datasetID
  | _ => None
  end.

Definition refused_updates (evs : list Event) : list string :=
  omap refused_update evs.

(** A dataset of the response of [GetDatasets] carrying this name and id. *)
Definition lists_dataset (datasetsResp : jmap) (name id : string) : Prop :=
  ∃ value ds,
    as_array (jlookup datasetsResp "value") = Some value ∧
    JObject ds ∈ value ∧
    as_string (jlookup ds "name") = Some name ∧
    as_string (jlookup ds "id") = Some id.

(** ** Kinds of calls *)

Definition is_update (e : Event) : Prop :=
  match e with EvUpdateRefreshSchedule _ _ _ _ => True | _ => False end.

Definition is_import (e : Event) : Prop :=
  match e with EvImportPBIX _ _ _ _ => True | _ => False end.

Definition is_export (e : Event) : Prop :=
  match e with EvExportReport _ _ _ _ => True | _ => False end.

Definition is_schedule_fetch (e : Event) : Prop :=
  match e with EvGetRefreshSchedule _ _ _ => True | _ => False end.

(** ** Concrete worlds, continued *)

Module scenario_remap.
Import sim.

(** Two captured schedules, for the datasets named [A] and [Gone]. *)
Definition captured : list RefreshSchedule :=
  [ {| DatasetID := "old-1"; DatasetName := "A";
       Schedule := [ ("enabled", JBool true) ] |};
    {| DatasetID := "old-2"; DatasetName := "Gone";
       Schedule := [ ("enabled", JBool false) ] |} ].

(** The target workspace [T] after import: datasets [A] and [B]. *)
Definition after_import : World :=
  {| clock := 9; dirs := []; files := []; down := [];
     remote_reports := [];
     remote_datasets := [ ("T", "new-1", "A"); ("T", "new-2", "B") ];
     remote_schedules := [];
     export_refused := []; import_refused := []; update_refused := [] |}.

End scenario_remap.

Definition is_remap_call (e : Event) : Prop :=
  match e with
  | EvGetDatasets _ _ | EvUpdateRefreshSchedule _ _ _ _ => True
  | _ => False
  end.

(** The calls [restoreReportsPBIX] makes once it has found artifacts. *)
Definition is_import_call (e : Event) : Prop :=
  match e with
  | EvGetDatasets _ _ | EvImportPBIX _ _ _ _ => True
  | _ => False
  end.

Module scenario_restore.
Import sim.

Definition snapshot : CompleteBackup :=
  {| Timestamp := 7; WorkspaceID := "W"; WorkspaceName := "name of W";
     Reports := []; Datasets := []; Dataflows := []; Dashboards := [];
     Apps := []; RefreshSchedules := scenario_remap.captured;
     WorkspaceSettings_ :=
       {| ws_ID := "W"; ws_Name := "name of W"; ws_Type := "";
          ws_State := ""; ws_IsReadOnly := false; ws_Settings := [] |} |}.

(** A snapshot directory [snap] with one artifact and two captured
    schedules; the dataset listing of the service is failing. *)
Definition listing_down : World :=
  {| clock := 8;
     dirs := [ "snap"; "snap/pbix" ];
     files := [ ("snap/complete_backup.json", BackupJSON snapshot);
                ("snap/pbix/A.pbix", Bytes "a") ];
     down := [ "datasets" ];
     remote_reports := []; remote_datasets := []; remote_schedules := [];
     export_refused := []; import_refused := []; update_refused := [] |}.

(** A snapshot directory [snap] without a [pbix] subdirectory. *)
Definition no_pbix_dir : World :=
  {| clock := 8;
     dirs := [ "snap" ];
     files := [ ("snap/complete_backup.json", BackupJSON snapshot) ];
     down := [];
     remote_reports := []; remote_datasets := []; remote_schedules := [];
     export_refused := []; import_refused := []; update_refused := [] |}.

(** A snapshot directory [snap] whose [pbix] subdirectory holds no artifact. *)
Definition empty_pbix_dir : World :=
  {| clock := 8;
     dirs := [ "snap"; "snap/pbix" ];
     files := [ ("snap/complete_backup.json", BackupJSON snapshot);
                ("snap/pbix/notes.txt", Bytes "n") ];
     down := [];
     remote_reports := []; remote_datasets := []; remote_schedules := [];
     export_refused := []; import_refused := []; update_refused := [] |}.

End scenario_restore.

(** The calls [restoreReportsPBIX] can make. *)
Definition is_step_call (e : Event) : Prop :=
  match e with
  | EvStat _ _ | EvGlob _ _ | EvGetDatasets _ _ | EvImportPBIX _ _ _ _ => True
  | _ => False
  end.

(** The calls [backupReportsPBIX] and [SaveBackup] can make. *)
Definition is_pbix_call (e : Event) : Prop :=
  match e with
  | EvMkdirAll _ _ | EvExportReport _ _ _ _ => True
  | _ => False
  end.

Definition is_save_call (e : Event) : Prop :=
  match e with
  | EvMkdirAll _ _ | EvWriteFile _ _ _ => True
  | _ => False
  end.

(** ** Outcomes of a backup run, read off its calls *)

(** The snapshot file of the run was written. *)
Definition persisted (evs : list Event) : Prop :=
  ∃ dir data,
    EvWriteFile (filepath.Join [dir; "complete_backup.json"]) data (Ok ())
      ∈ evs.

(** No file was written through [os.WriteFile]. *)
Definition nothing_written (evs : list Event) : Prop :=
  ∀ path data r, EvWriteFile path data r ∉ evs.

(** Every [GetRefreshSchedule] call of the run failed. *)
Definition schedule_fetches_failed (evs : list Event) : Prop :=
  ∀ ws id r, EvGetRefreshSchedule ws id r ∈ evs → is_ok r = false.

(** The schedule kept for a dataset, given the call made for it. *)
Definition schedule_kept (x : Dataset * Event) : option RefreshSchedule :=
  match x.2 with
  | EvGetRefreshSchedule _ _ (Ok schedule) =>
      Some {| DatasetID := x.1.(ds_ID); DatasetName := x.1.(ds_Name);
              Schedule := schedule |}
  | _ => None
  end.

(** The value a collection has in the snapshot, given the response. *)
Definition collected {A} (of_item : json → option A) (r : res jmap) : list A :=
  match r with
  | Ok response => backup.collect of_item response
  | Err _ => []
  end.

(** The output paths of the exports that succeeded. *)
Definition exported (exps : list (string * string * bool)) : list string :=
  omap (λ x : string * string * bool, if x.2 then Some x.1.2 else None) exps.

(** The snapshot a backup run assembles, given the time of the run, the
    workspace settings, the responses of the five collection fetches and the
    calls made for the refresh schedules. *)
Definition snapshot_of (t : Time) (workspaceID : string) (settings : jmap)
    (reports datasets dataflows dashboards apps : res jmap)
    (schedule_calls : list Event) : CompleteBackup :=
  let workspaceName := default "" (as_string (jlookup settings "name")) in
  {| Timestamp := t;
     WorkspaceID := workspaceID;
     WorkspaceName := workspaceName;
     Reports := collected backup.report_of reports;
     Datasets := collected backup.dataset_of datasets;
     Dataflows := collected backup.dataflow_of dataflows;
     Dashboards := collected backup.dashboard_of dashboards;
     Apps := collected (backup.app_of workspaceID) apps;
     RefreshSchedules :=
       omap schedule_kept
         (zip (collected backup.dataset_of datasets) schedule_calls);
     WorkspaceSettings_ :=
       {| ws_ID := workspaceID; ws_Name := workspaceName;
          ws_Type := ""; ws_State := ""; ws_IsReadOnly := false;
          ws_Settings := [] |} |}.

Module scenario_backup.
Import sim.

(** Workspace [W] holds three reports, two of them named [A], and one
    dataset with a refresh schedule; the store is empty and the clock reads
    7. *)
Definition healthy : World :=
  {| clock := 7; dirs := []; files := []; down := [];
     remote_reports :=
       [ ("W", "r1", "A"); ("W", "r2", "A"); ("W", "r3", "B") ];
     remote_datasets := [ ("W", "d1", "A") ];
     remote_schedules := [ ("d1", [ ("enabled", JBool true) ]) ];
     export_refused := []; import_refused := []; update_refused := [] |}.

(** The same world with one operation failing. *)
Definition failing (op : string) : World :=
  {| clock := 7; dirs := []; files := []; down := [ op ];
     remote_reports :=
       [ ("W", "r1", "A"); ("W", "r2", "A"); ("W", "r3", "B") ];
     remote_datasets := [ ("W", "d1", "A") ];
     remote_schedules := [ ("d1", [ ("enabled", JBool true) ]) ];
     export_refused := []; import_refused := []; update_refused := [] |}.

End scenario_backup.

(** ** Artifact paths as the specification words them *)

(** A name that can serve as one file name: it has no path separator. *)
Definition file_system_safe (name : string) : Prop :=
  ∀ c, c ∈ list_ascii_of_string name → filepath.is_sep c = false.

(** [path] is [<pbixDir>/<name>.pbix] for a file-system-safe [name]. *)
Definition under_sanitized_name (pbixDir path : string) : Prop :=
  ∃ name, file_system_safe name ∧
          path = pbixDir +:+ "/" +:+ name +:+ ".pbix".

Module scenario_paths.
Import sim.

(** Workspace [W] holds one report whose display name climbs out of the
    directory it is written to. *)
Definition escaping_name : World :=
  {| clock := 7; dirs := []; files := []; down := [];
     remote_reports := [ ("W", "r1", "../x") ];
     remote_datasets := [];
     remote_schedules := [];
     export_refused := []; import_refused := []; update_refused := [] |}.

End scenario_paths.

(** ** Proof support *)

(** Path computations stay folded unless a proof asks for them. *)
Arguments filepath.Join : simpl never.
Arguments filepath.Clean : simpl never.
Arguments filepath.Base : simpl never.
Arguments backup.pbixFile_of : simpl never.

(** Reduce the projections of a run that has been written out. *)
Ltac run_simpl := cbn [result_of world_of events_of ret fst snd app].

(** Locate a call in a list of calls that has been computed. *)
Ltac find_event := repeat first [ by left | right ].

(** ** Paths that end in a plain file name *)

(** A proper file name: not empty, not a dot name, without separator. *)
Definition plain_name (f : string) : Prop :=
  f ≠ "" ∧ f ≠ "." ∧ f ≠ ".." ∧ file_system_safe f.

(** [s] is [f] itself or ends in ["/" +:+ f]. *)
Definition ends_with_file (f s : string) : Prop :=
  s = f ∨ ∃ q, s = q +:+ "/" +:+ f.

(** ** Further readings of a run *)

(** The schedule fetches of a run, as (workspace id, dataset id). *)
Definition fetch_of (e : Event) : option (string * string) :=
  match e with
  | EvGetRefreshSchedule workspaceID datasetID _ => Some (workspaceID, datasetID)
  | _ => None
  end.

Definition schedule_fetches (evs : list Event) : list (string * string) :=
  omap fetch_of evs.

(** A call that stays on the local file system. *)
Definition is_local_call (e : Event) : Prop :=
  match e with
  | EvMkdirAll _ _ | EvStat _ _ | EvWriteFile _ _ _ | EvReadFile _ _
  | EvReadDir _ _ | EvGlob _ _ => True
  | _ => False
  end.

(** ** The client side: [net/http], [internal/auth] and [internal/api]

    The functions of [auth.go] and [client.go] are embedded one level below
    [Env]: over the requests they send and the files they open.  The mutex of
    [AuthService] guards single reads and writes of the token cache; the
    embedding is of one goroutine. *)

Module http.

(** What the code puts in a [*http.Request]: headers in the order set; a nil
    body is [None]. *)
Record Request := {
  Method : string;
  URL : string;
  Header : list (string * string);
  Body : option string }.

(** What the code reads of a [*http.Response]: the status code and the
    outcome of [io.ReadAll(resp.Body)] (the bytes read and the error, if
    any). *)
Record Response := {
  StatusCode : Z;
  ReadAll : string * option error }.

Definition StatusOK : Z := 200.
Definition StatusAccepted : Z := 202.

End http.

(** [auth.TokenResponse] *)
Record TokenResponse := {
  AccessToken : string; TokenType : string; ExpiresIn : string }.

(** The calls the client side makes. *)
Inductive Call : Type :=
  | CDo (req : http.Request) (r : res http.Response)
  | CCreate (path : string) (r : res unit)
  | CCopy (path : string) (r : res unit)
  | COpen (path : string) (r : res unit)
  | CFormFile (fieldname filename path : string) (r : res (string * string)).

(** The environment of the client side.  [http_NewRequest] is the check
    [http.NewRequestWithContext] makes of the method and the URL;
    [multipart_FormFile] stands for [CreateFormFile], the copy of the opened
    file into the part and [Close], and returns the body and its content
    type; [io_Copy] copies the body of a response to the created file. *)
Class Net (W : Type) := {
  http_NewRequest : string → string → option error;
  http_Do : http.Request → W → res http.Response * W;
  url_Values_Encode : list (string * string) → string;
  json_Marshal : jmap → res string;
  json_Unmarshal : string → res jmap;
  json_UnmarshalToken : string → res TokenResponse;
  os_Create : string → W → res unit * W;
  io_Copy : string → http.Response → W → res unit * W;
  os_Open : string → W → res unit * W;
  multipart_FormFile : string → string → string → W
                       → res (string * string) * W
}.

(** The state the client side threads: the token cache of the one
    [AuthService] the client points to, and the world. *)
Record State (W : Type) := { tokenCache : string; world : W }.
Arguments tokenCache {W} _.
Arguments world {W} _.

Definition N (W A : Type) : Type := State W → A * State W * list Call.

Definition nret {W A} (a : A) : N W A := λ st, (a, st, []).

Definition nbind {W A B} (m : N W A) (k : A → N W B) : N W B :=
  λ st, let '(a, st1, c1) := m st in
        let '(b, st2, c2) := k a st1 in
        (b, st2, c1 ++ c2).

Notation "x ⇚ m ;; k" := (nbind m (λ x, k))
  (at level 100, m at next level, right associativity,
   format "'[v' x  ⇚  m  ;;  '/' k ']'").

(** Lift an operation of the environment, recording the call; the token
    cache is left as it is. *)
Definition ncall {W A} (op : W → A * W) (c : A → Call) : N W A :=
  λ st, let '(a, w') := op st.(world) in
        (a, {| tokenCache := st.(tokenCache); world := w' |}, [ c a ]).

Definition value_of {W A} (x : A * State W * list Call) : A := x.1.1.
Definition state_of {W A} (x : A * State W * list Call) : State W := x.1.2.
Definition calls_of {W A} (x : A * State W * list Call) : list Call := x.2.

(** [http.NewRequestWithContext(ctx, method, url, body)] *)
Definition NewRequest `{Net W} (method url : string) (body : option string)
  : res http.Request :=
  match http_NewRequest method url with
  | Some e => Err e
  | None =>
      Ok {| http.Method := method; http.URL := url; http.Header := [];
            http.Body := body |}
  end.

(** [req.Header.Set(key, value)] *)
Definition Header_Set (req : http.Request) (key value : string)
  : http.Request :=
  {| http.Method := req.(http.Method); http.URL := req.(http.URL);
     http.Header :=
       filter (λ h : string * string, h.1 ≠ key) req.(http.Header)
         ++ [ (key, value) ];
     http.Body := req.(http.Body) |}.

Module auth.

Record AuthService := {
  clientID : string;
  clientSecret : string;
  tenantID : string;
  resource : string;
  authorityURL : string }.

Section with_net.
Context {W : Type} {net : Net W}.

(** The request [GetAccessToken] sends when the cache is empty. *)
Definition tokenRequest (a : AuthService) : res http.Request :=
  let tokenURL :=
    a.(authorityURL) +:+ "/" +:+ a.(tenantID) +:+ "/oauth2/token" in
  let data := [ ("grant_type", "client_credentials");
                ("client_id", a.(clientID));
                ("client_secret", a.(clientSecret));
                ("resource", a.(resource)) ] in
  match NewRequest "POST" tokenURL (Some (url_Values_Encode data)) with
  | Err e => Err e
  | Ok req =>
      Ok (Header_Set req "Content-Type" "application/x-www-form-urlencoded")
  end.

Definition GetAccessToken (a : AuthService) : N W (res string) :=
  λ st,
  if decide (st.(tokenCache) ≠ "") then nret (Ok st.(tokenCache)) st
  else
    match tokenRequest a with
    | Err e => nret (Err e) st
    | Ok req =>
        (resp ⇚ ncall (http_Do req) (CDo req) ;;
         match resp with
         | Err e => nret (Err e)
         | Ok resp =>
             match resp.(http.ReadAll) with
             | (_, Some e) => nret (Err e)
             | (body, None) =>
                 if decide (resp.(http.StatusCode) ≠ http.StatusOK)
                 then nret (Err ("failed to obtain token: " +:+ body))
                 else
                   match json_UnmarshalToken body with
                   | Err e => nret (Err e)
                   | Ok tokenResp =>
                       λ st', (Ok tokenResp.(AccessToken),
                               {| tokenCache := tokenResp.(AccessToken);
                                  world := st'.(world) |}, [])
                   end
             end
         end) st
    end.

Definition ClearTokenCache (a : AuthService) : N W unit :=
  λ st, (tt, {| tokenCache := ""; world := st.(world) |}, []).

End with_net.
End auth.

Module api.

Record Client := { authService : auth.AuthService; baseURL : string }.

Section with_net.
Context {W : Type} {net : Net W}.

(** The request [fetchWithAuth] sends, once it has a token. *)
Definition apiRequest (c : Client) (token method endpoint : string)
    (body : option jmap) : res http.Request :=
  let url := c.(baseURL) +:+ endpoint in
  match
    match body with
    | None => Ok None
    | Some body =>
        match json_Marshal body with
        | Err e => Err e
        | Ok jsonData => Ok (Some jsonData)
        end
    end
  with
  | Err e => Err e
  | Ok reqBody =>
      match NewRequest method url reqBody with
      | Err e => Err e
      | Ok req =>
          Ok (Header_Set
                (Header_Set req "Authorization" ("Bearer " +:+ token))
                "Content-Type" "application/json")
      end
  end.

Definition fetchWithAuth (c : Client) (method endpoint : string)
    (body : option jmap) : N W (res jmap) :=
  token ⇚ auth.GetAccessToken c.(authService) ;;
  match token with
  | Err e => nret (Err e)
  | Ok token =>
      match apiRequest c token method endpoint body with
      | Err e => nret (Err e)
      | Ok req =>
          resp ⇚ ncall (http_Do req) (CDo req) ;;
          match resp with
          | Err e => nret (Err e)
          | Ok resp =>
              match resp.(http.ReadAll) with
              | (_, Some e) => nret (Err e)
              | (respBody, None) =>
                  if decide (400 ≤ resp.(http.StatusCode))
                  then nret (Err ("API error "
                                  +:+ pretty resp.(http.StatusCode)
                                  +:+ ": " +:+ respBody))
                  else nret (json_Unmarshal respBody)
              end
          end
      end
  end.

Definition GetReports (c : Client) (workspaceID : string) : N W (res jmap) :=
  fetchWithAuth c "GET" ("/groups/" +:+ workspaceID +:+ "/reports") None.

Definition GetDatasets (c : Client) (workspaceID : string) : N W (res jmap) :=
  fetchWithAuth c "GET" ("/groups/" +:+ workspaceID +:+ "/datasets") None.

Definition GetDataflows (c : Client) (workspaceID : string)
  : N W (res jmap) :=
  fetchWithAuth c "GET" ("/groups/" +:+ workspaceID +:+ "/dataflows") None.

Definition GetDashboards (c : Client) (workspaceID : string)
  : N W (res jmap) :=
  fetchWithAuth c "GET" ("/groups/" +:+ workspaceID +:+ "/dashboards") None.

Definition GetApps (c : Client) : N W (res jmap) :=
  fetchWithAuth c "GET" "/apps" None.

Definition GetWorkspaceSettings (c : Client) (workspaceID : string)
  : N W (res jmap) :=
  fetchWithAuth c "GET" ("/groups/" +:+ workspaceID) None.

Definition refreshSchedule_endpoint (workspaceID datasetID : string)
  : string :=
  "/groups/" +:+ workspaceID +:+ "/datasets/" +:+ datasetID
    +:+ "/refreshSchedule".

Definition GetRefreshSchedule (c : Client) (workspaceID datasetID : string)
  : N W (res jmap) :=
  fetchWithAuth c "GET" (refreshSchedule_endpoint workspaceID datasetID) None.

Definition UpdateRefreshSchedule (c : Client)
    (workspaceID datasetID : string) (schedule : jmap) : N W (option error) :=
  r ⇚ fetchWithAuth c "PATCH" (refreshSchedule_endpoint workspaceID datasetID)
        (Some schedule) ;;
  nret (match r with Ok _ => None | Err e => Some e end).

Definition GetWorkspaces (c : Client) : N W (res jmap) :=
  fetchWithAuth c "GET" "/groups" None.

Definition CreateWorkspace (c : Client) (workspaceData : jmap)
  : N W (res jmap) :=
  result ⇚ fetchWithAuth c "POST" "/groups" (Some workspaceData) ;;
  match result with
  | Err e => nret (Err e)
  | Ok result => nret (Ok result)
  end.

(** The request [ExportReport] sends. *)
Definition exportRequest (c : Client) (token workspaceID reportID : string)
  : res http.Request :=
  let exportURL :=
    c.(baseURL) +:+ "/groups/" +:+ workspaceID +:+ "/reports/" +:+ reportID
      +:+ "/Export" in
  match NewRequest "GET" exportURL None with
  | Err e => Err e
  | Ok req => Ok (Header_Set req "Authorization" ("Bearer " +:+ token))
  end.

(** [ExportReport] returns the Go pair [(bool, error)]. *)
Definition ExportReport (c : Client)
    (workspaceID reportID outputPath : string) : N W (bool * option error) :=
  token ⇚ auth.GetAccessToken c.(authService) ;;
  match token with
  | Err e => nret (false, Some e)
  | Ok token =>
      match exportRequest c token workspaceID reportID with
      | Err e => nret (false, Some e)
      | Ok req =>
          resp ⇚ ncall (http_Do req) (CDo req) ;;
          match resp with
          | Err e => nret (false, Some e)
          | Ok resp =>
              if decide (resp.(http.StatusCode) ≠ http.StatusOK)
              then nret (false,
                         Some ("export failed: status "
                               +:+ pretty resp.(http.StatusCode)))
              else
                file ⇚ ncall (os_Create outputPath) (CCreate outputPath) ;;
                match file with
                | Err e => nret (false, Some e)
                | Ok _ =>
                    copied ⇚ ncall (io_Copy outputPath resp)
                               (CCopy outputPath) ;;
                    match copied with
                    | Err e => nret (false, Some e)
                    | Ok _ => nret (true, None)
                    end
                end
          end
      end
  end.

(** The URL [ImportPBIX] posts to: the dataset name goes in as it is. *)
Definition importURL (c : Client) (workspaceID datasetName : string)
  : string :=
  c.(baseURL) +:+ "/groups/" +:+ workspaceID
    +:+ "/imports?datasetDisplayName=" +:+ datasetName
    +:+ "&nameConflict=Abort".

Definition importRequest (c : Client)
    (token workspaceID datasetName body contentType : string)
  : res http.Request :=
  match NewRequest "POST" (importURL c workspaceID datasetName) (Some body)
  with
  | Err e => Err e
  | Ok req =>
      Ok (Header_Set
            (Header_Set req "Authorization" ("Bearer " +:+ token))
            "Content-Type" contentType)
  end.

Definition ImportPBIX (c : Client)
    (workspaceID pbixPath datasetName : string) : N W (bool * option error) :=
  token ⇚ auth.GetAccessToken c.(authService) ;;
  match token with
  | Err e => nret (false, Some e)
  | Ok token =>
      file ⇚ ncall (os_Open pbixPath) (COpen pbixPath) ;;
      match file with
      | Err e => nret (false, Some e)
      | Ok _ =>
          form ⇚ ncall (multipart_FormFile "file" (filepath.Base pbixPath)
                          pbixPath)
                   (CFormFile "file" (filepath.Base pbixPath) pbixPath) ;;
          match form with
          | Err e => nret (false, Some e)
          | Ok (body, contentType) =>
              match importRequest c token workspaceID datasetName body
                      contentType with
              | Err e => nret (false, Some e)
              | Ok req =>
                  resp ⇚ ncall (http_Do req) (CDo req) ;;
                  match resp with
                  | Err e => nret (false, Some e)
                  | Ok resp =>
                      if decide (resp.(http.StatusCode) = http.StatusAccepted
                                 ∨ resp.(http.StatusCode) = http.StatusOK)
                      then nret (true, None)
                      else nret (false,
                                 Some ("import failed: "
                                       +:+ pretty resp.(http.StatusCode)
                                       +:+ " - " +:+ resp.(http.ReadAll).1))
                  end
              end
          end
      end
  end.

End with_net.
End api.

(** ** Readings of a client-side run *)

(** The value [fetchWithAuth] returns for a reply. *)
Definition fetch_value `{Net W} (r : res http.Response) : res jmap :=
  match r with
  | Err e => Err e
  | Ok resp =>
      match resp.(http.ReadAll) with
      | (_, Some e) => Err e
      | (respBody, None) =>
          if decide (400 ≤ resp.(http.StatusCode))
          then Err ("API error " +:+ pretty resp.(http.StatusCode)
                    +:+ ": " +:+ respBody)
          else json_Unmarshal respBody
      end
  end.

(** The call is a request. *)
Definition is_request (c : Call) : Prop :=
  match c with CDo _ _ => True | _ => False end.

(** The request presents [token] as its bearer token. *)
Definition presents (token : string) (req : http.Request) : Prop :=
  ("Authorization", "Bearer " +:+ token) ∈ req.(http.Header).

(** ** A concrete client-side environment

    A scripted network: every request consumes the next prepared reply.  The
    codec is a stand-in: the body of a token reply is the token itself, and
    only the text [{}] decodes as an object. *)

Module simnet.

Record World := {
  replies : list (res http.Response);
  present : list string;
  created : list string }.

Definition Do (req : http.Request) (w : World)
  : res http.Response * World :=
  match w.(replies) with
  | [] => (Err "dial tcp: connection refused", w)
  | r :: rest =>
      (r, {| replies := rest; present := w.(present);
             created := w.(created) |})
  end.

Definition Create (path : string) (w : World) : res unit * World :=
  (Ok (), {| replies := w.(replies); present := w.(present);
             created := path :: w.(created) |}).

Definition Copy (path : string) (resp : http.Response) (w : World)
  : res unit * World :=
  match resp.(http.ReadAll) with
  | (_, Some e) => (Err e, w)
  | (_, None) => (Ok (), w)
  end.

Definition Open (path : string) (w : World) : res unit * World :=
  if bool_decide (path ∈ w.(present)) then (Ok (), w)
  else (Err "open: no such file or directory", w).

Definition UnmarshalToken (body : string) : res TokenResponse :=
  if decide (body = "") then Err "unexpected end of JSON input"
  else Ok {| AccessToken := body; TokenType := "Bearer";
             ExpiresIn := "3599" |}.

#[global] Instance net : Net World := {|
  http_NewRequest := λ method url, None;
  http_Do := Do;
  url_Values_Encode := λ data,
    filepath.join_sep ((λ kv : string * string, kv.1 +:+ "=" +:+ kv.2) <$> data);
  json_Marshal := λ m, Ok "{}";
  json_Unmarshal := λ s,
    if decide (s = "{}") then Ok [] else Err "invalid character";
  json_UnmarshalToken := UnmarshalToken;
  os_Create := Create;
  io_Copy := Copy;
  os_Open := Open;
  multipart_FormFile := λ fieldname filename path w,
    (Ok ("form " +:+ filename, "multipart/form-data"), w)
|}.

Definition reply (status : Z) (body : string) : res http.Response :=
  Ok {| http.StatusCode := status; http.ReadAll := (body, None) |}.

Definition service : auth.AuthService :=
  {| auth.clientID := "app"; auth.clientSecret := "secret";
     auth.tenantID := "tenant";
     auth.resource := "https://analysis.windows.net/powerbi/api";
     auth.authorityURL := "https://login.microsoftonline.com" |}.

Definition client : api.Client :=
  {| api.authService := service;
     api.baseURL := "https://api.powerbi.com/v1.0/myorg" |}.

(** No token cached yet; the replies are prepared in the order given. *)
Definition fresh (replies : list (res http.Response)) : State World :=
  {| tokenCache := "";
     world := {| replies := replies; present := [ "snap/pbix/A.pbix" ];
                 created := [] |} |}.

(** The token [token] is cached. *)
Definition cached (token : string) (replies : list (res http.Response))
  : State World :=
  {| tokenCache := token;
     world := {| replies := replies; present := [ "snap/pbix/A.pbix" ];
                 created := [] |} |}.

End simnet.

(** ** [internal/config] *)

Module config.

Record Settings := {
  PowerBIClientID : string;
  PowerBIClientSecret : string;
  PowerBITenantID : string;
  APIBaseURL : string;
  Resource : string;
  AuthorityURL : string;
  BackupPath : string;
  Debug : bool }.

(** [environ] is [os.Getenv] once [godotenv.Load] has run. *)
Definition getEnv (environ : string → string) (key defaultValue : string)
  : string :=
  let value := environ key in
  if decide (value = "") then defaultValue else value.

(** [LoadConfig] always returns a nil error. *)
Definition LoadConfig (environ : string → string) : Settings :=
  {| PowerBIClientID := getEnv environ "POWERBI_CLIENT_ID" "";
     PowerBIClientSecret := getEnv environ "POWERBI_CLIENT_SECRET" "";
     PowerBITenantID := getEnv environ "POWERBI_TENANT_ID" "";
     APIBaseURL :=
       getEnv environ "API_BASE_URL" "https://api.powerbi.com/v1.0/myorg";
     Resource := "https://analysis.windows.net/powerbi/api";
     AuthorityURL := "https://login.microsoftonline.com";
     BackupPath := getEnv environ "BACKUP_PATH" "./backups";
     Debug := bool_decide (getEnv environ "DEBUG" "false" = "true") |}.

End config.

(** [auth.NewAuthService] and [api.NewClient] *)
Definition NewAuthService (settings : config.Settings) : auth.AuthService :=
  {| auth.clientID := settings.(config.PowerBIClientID);
     auth.clientSecret := settings.(config.PowerBIClientSecret);
     auth.tenantID := settings.(config.PowerBITenantID);
     auth.resource := settings.(config.Resource);
     auth.authorityURL := settings.(config.AuthorityURL) |}.

Definition NewClient (authService : auth.AuthService)
    (settings : config.Settings) : api.Client :=
  {| api.authService := authService;
     api.baseURL := settings.(config.APIBaseURL) |}.

(** ** [cmd/main.go] *)

Module cli.

(** The command line, once [flag.Parse] has read it. *)
Record Flags := {
  cmd : string;
  workspaceID : string;
  backupPathArg : string;
  allWorkspaces : bool }.

(** How the process ends: [os.Exit(code)], a return from [main] (exit
    status 0), a panic, or a probing loop still running. *)
Inductive ending : Type :=
  | Exit (code : Z)
  | Return
  | Panic
  | Running.

Section with_env.
Context {W : Type} {env : Env W}.
(** [apiClient.GetWorkspaces] *)
Variable api_GetWorkspaces : W → res jmap * W.

(** [time.Now()] and [time.Since(startTime)]: a reading of the clock. *)
Definition now : M W Time :=
  λ w, let '(t, w') := time_Now w in (t, w', []).

Definition backupWorkspace (workspaceID : string)
    (storageService : storage.StorageService) : M W ending :=
  let backupService := {| backup.storageService := storageService |} in
  startTime ⇐ now ;;
  backupData ⇐ backup.BackupWorkspace backupService workspaceID ;;
  match backupData with
  | Err _ => ret (Exit 1)
  | Ok _ => duration ⇐ now ;; ret Return
  end.

(** The loop of [backupAllWorkspaces]; the two counters are bounded by
    [len(value)] and cannot overflow. *)
Fixpoint backupAll_loop (backupService : backup.Service) (value : list json)
    (successCount failCount : nat) : M W (nat * nat) :=
  match value with
  | [] => ret (successCount, failCount)
  | item :: rest =>
      match as_object item with
      | None => backupAll_loop backupService rest successCount failCount
      | Some workspaceMap =>
          let wsID := default "" (as_string (jlookup workspaceMap "id")) in
          r ⇐ backup.BackupWorkspace backupService wsID ;;
          match r with
          | Err _ =>
              backupAll_loop backupService rest successCount (S failCount)
          | Ok _ =>
              backupAll_loop backupService rest (S successCount) failCount
          end
      end
  end.

Definition backupAllWorkspaces (storageService : storage.StorageService)
  : M W ending :=
  workspacesResp ⇐ (λ w, let '(r, w') := api_GetWorkspaces w in (r, w', [])) ;;
  match workspacesResp with
  | Err _ => ret (Exit 1)
  | Ok workspacesResp =>
      match as_array (jlookup workspacesResp "value") with
      | None => ret Return
      | Some value =>
          if decide (length value = 0%nat) then ret Return
          else
            let backupService :=
              {| backup.storageService := storageService |} in
            counts ⇐ backupAll_loop backupService value 0 0 ;;
            ret Return
      end
  end.

Definition restoreWorkspace (workspaceID backupPath : string)
    (storageService : storage.StorageService) : M W ending :=
  let restoreService := {| restore.storageService := storageService |} in
  startTime ⇐ now ;;
  err ⇐ restore.RestoreWorkspace restoreService workspaceID backupPath ;;
  match err with
  | restore.Returned (Some _) => ret (Exit 1)
  | restore.Returned None => duration ⇐ now ;; ret Return
  | restore.Panicked => ret Panic
  | restore.OutOfFuel => ret Running
  end.

Definition main (flags : Flags) (environ : string → string) : M W ending :=
  let settings := config.LoadConfig environ in
  if decide (settings.(config.PowerBIClientID) = ""
             ∨ settings.(config.PowerBIClientSecret) = ""
             ∨ settings.(config.PowerBITenantID) = "")
  then ret (Exit 1)
  else
    let storageService :=
      {| storage.backupPath := settings.(config.BackupPath) |} in
    if decide (flags.(cmd) = "backup") then
      if flags.(allWorkspaces) then backupAllWorkspaces storageService
      else if decide (flags.(workspaceID) ≠ "") then
        backupWorkspace flags.(workspaceID) storageService
      else ret (Exit 1)
    else if decide (flags.(cmd) = "restore") then
      if decide (flags.(workspaceID) = "" ∨ flags.(backupPathArg) = "")
      then ret (Exit 1)
      else restoreWorkspace flags.(workspaceID) flags.(backupPathArg)
             storageService
    else ret (Exit 1).

End with_env.
End cli.

(** The workspace ids the loop of [backupAllWorkspaces] runs a backup for:
    one per item that is an object, the empty id when the item has none. *)
Definition listed_ids (value : list json) : list string :=
  omap (λ item, workspaceMap ← as_object item;
                Some (default "" (as_string (jlookup workspaceMap "id"))))
       value.

(** The command line is turned down before any work is done. *)
Definition turned_down (flags : cli.Flags) (settings : config.Settings)
  : Prop :=
  settings.(config.PowerBIClientID) = ""
  ∨ settings.(config.PowerBIClientSecret) = ""
  ∨ settings.(config.PowerBITenantID) = ""
  ∨ (flags.(cli.cmd) = "backup" ∧ flags.(cli.allWorkspaces) = false
     ∧ flags.(cli.workspaceID) = "")
  ∨ (flags.(cli.cmd) = "restore"
     ∧ (flags.(cli.workspaceID) = "" ∨ flags.(cli.backupPathArg) = ""))
  ∨ (flags.(cli.cmd) ≠ "backup" ∧ flags.(cli.cmd) ≠ "restore").

(** A world for the command line: credentials present or absent. *)
Module scenario_cli.

Definition environ (key : string) : string :=
  if decide (key = "POWERBI_CLIENT_ID") then "app"
  else if decide (key = "POWERBI_CLIENT_SECRET") then "secret"
  else if decide (key = "POWERBI_TENANT_ID") then "tenant"
  else "".

Definition no_environ (key : string) : string := "".

(** The listing of the workspaces: [W], an item that is not an object, and
    a workspace without id. *)
Definition GetWorkspaces (w : sim.World) : res jmap * sim.World :=
  sim.fetch "workspaces"
    [ ("value",
       JArray [ JObject [ ("id", JString "W"); ("name", JString "one") ];
                JString "stray";
                JObject [ ("name", JString "two") ] ]) ] w.

End scenario_cli.

(** ** [storage.CreateBackupMetadata] *)

Module metadata.

(** [m[key] = v] on a map that is not nil. *)
Definition map_set (m : jmap) (key : string) (v : json) : jmap :=
  (key, v) :: filter (λ e : string * json, e.1 ≠ key) m.

(** The function returns an [error]; the caller's map is the one written
    to, so the embedding returns the map as the caller sees it afterwards.
    An assignment to a nil map panics. *)
Inductive outcome : Type :=
  | Returned (err : option error) (metadata : jmap)
  | Panicked.

Section with_env.
Context {W : Type} {env : Env W}.
(** [t.Format(time.RFC3339)] and [json.MarshalIndent] of the map. *)
Variable time_Format_RFC3339 : Time → string.
Variable json_MarshalMetadata : jmap → res Data.

(** [metadata] is [None] for the nil map. *)
Definition CreateBackupMetadata (s : storage.StorageService)
    (backupDir : string) (metadata : option jmap) : M W outcome :=
  t ⇐ (λ w, let '(t, w') := time_Now w in (t, w', [])) ;;
  match metadata with
  | None => ret Panicked
  | Some metadata =>
      let metadata :=
        map_set metadata "created_at" (JString (time_Format_RFC3339 t)) in
      let metadataFile := filepath.Join [backupDir; "metadata.json"] in
      match json_MarshalMetadata metadata with
      | Err e => ret (Returned (Some e) metadata)
      | Ok data =>
          r ⇐ call (os_WriteFile metadataFile data)
                 (EvWriteFile metadataFile data) ;;
          ret (Returned (match r with Ok _ => None | Err e => Some e end)
                        metadata)
      end
  end.

End with_env.
End metadata.

(** Command lines used on the concrete worlds. *)
Module scenario_flags.

Definition restore_without_path : cli.Flags :=
  {| cli.cmd := "restore"; cli.workspaceID := "T"; cli.backupPathArg := "";
     cli.allWorkspaces := false |}.

Definition backup_all : cli.Flags :=
  {| cli.cmd := "backup"; cli.workspaceID := "ignored";
     cli.backupPathArg := ""; cli.allWorkspaces := true |}.

Definition backup_one : cli.Flags :=
  {| cli.cmd := "backup"; cli.workspaceID := "W"; cli.backupPathArg := "";
     cli.allWorkspaces := false |}.

End scenario_flags.

(** ** Snapshot files written during a run *)

(** The call is a successful write of a file named [complete_backup.json]. *)
Definition snapshot_write (e : Event) : bool :=
  match e with
  | EvWriteFile path _ (Ok _) =>
      bool_decide (filepath.Base path = "complete_backup.json")
  | _ => false
  end.

Definition snapshots_written (evs : list Event) : nat :=
  length (filter (λ e, snapshot_write e = true) evs).

(** ** [cmd/server/main.go]: the background jobs *)

Module server.

(** How a job started with [go] ends: it returns, it panics (which takes the
    server down), or a probing loop is still running. *)
Inductive job_end : Type :=
  | Finished
  | Crashed
  | Spinning.

Section with_env.
Context {W : Type} {env : Env W}.
(** [s.apiClient.GetWorkspaces] *)
Variable api_GetWorkspaces : W → res jmap * W.

Definition backupWorkspace (storageService : storage.StorageService)
    (workspaceID : string) : M W job_end :=
  start ⇐ cli.now ;;
  let backupService := {| backup.storageService := storageService |} in
  backupData ⇐ backup.BackupWorkspace backupService workspaceID ;;
  match backupData with
  | Err _ => ret Finished
  | Ok _ => duration ⇐ cli.now ;; ret Finished
  end.

(** The loop of [backupAllWorkspaces]; the [getString] of this file has the
    text of [backup.getString]. *)
Fixpoint backupAll_loop (backupService : backup.Service) (value : list json)
    (successCount failCount : nat) : M W (nat * nat) :=
  match value with
  | [] => ret (successCount, failCount)
  | ws :: rest =>
      match as_object ws with
      | None => backupAll_loop backupService rest successCount failCount
      | Some wsMap =>
          let wsID := backup.getString wsMap "id" in
          r ⇐ backup.BackupWorkspace backupService wsID ;;
          match r with
          | Err _ =>
              backupAll_loop backupService rest successCount (S failCount)
          | Ok _ =>
              backupAll_loop backupService rest (S successCount) failCount
          end
      end
  end.

Definition backupAllWorkspaces (storageService : storage.StorageService)
  : M W job_end :=
  workspaces ⇐ (λ w, let '(r, w') := api_GetWorkspaces w in (r, w', [])) ;;
  match workspaces with
  | Err _ => ret Finished
  | Ok workspaces =>
      match as_array (jlookup workspaces "value") with
      | None => ret Finished
      | Some value =>
          let backupService :=
            {| backup.storageService := storageService |} in
          counts ⇐ backupAll_loop backupService value 0 0 ;;
          ret Finished
      end
  end.

Definition restoreWorkspace (storageService : storage.StorageService)
    (workspaceID backupPath : string) : M W job_end :=
  start ⇐ cli.now ;;
  let restoreService := {| restore.storageService := storageService |} in
  err ⇐ restore.RestoreWorkspace restoreService workspaceID backupPath ;;
  match err with
  | restore.Returned (Some _) => ret Finished
  | restore.Returned None => duration ⇐ cli.now ;; ret Finished
  | restore.Panicked => ret Crashed
  | restore.OutOfFuel => ret Spinning
  end.

End with_env.
End server.

(** Two runs from the same world make the same calls and leave the same
    world. *)
Definition same_work {W A B} (job : M W A) (command : M W B) (w : W) : Prop :=
  world_of (job w) = world_of (command w) ∧
  events_of (job w) = events_of (command w).

Module scenario_listing.
Import sim.

(** The store holds two run directories of workspace [W], [7] and [8], and
    a plain file beside them. *)
Definition two_runs : World :=
  {| clock := 9;
     dirs := [ "backups"; "backups/W"; "backups/W/7"; "backups/W/8" ];
     files := [ ("backups/W/notes.txt", Bytes "n") ];
     down := [];
     remote_reports := []; remote_datasets := []; remote_schedules := [];
     export_refused := []; import_refused := []; update_refused := [] |}.

End scenario_listing.

Module scenario_roundtrip.
Import sim.


End scenario_roundtrip.

(** * Properties *)

(** ** The library functions on the examples of their documentation *)

Example Clean_examples :
  filepath.Clean <$> [ "a/c"; "a//c"; "a/c/."; "a/c/b/.."; "/../a/c";
                       "/../a/b/../././/c"; ""; "./backups"; "../../a/.." ]
  = [ "a/c"; "a/c"; "a/c"; "a/c"; "/a/c"; "/a/c"; "."; "backups"; "../.." ].
Proof. reflexivity. Qed.

Example Join_examples :
  filepath.Join <$> [ [ "a"; "b"; "c" ]; [ "a"; "b/c" ]; [ "a/b"; "/c" ];
                      [ "a/b"; "../../../xyz" ]; [ ""; "" ]; [ ""; "a" ];
                      [ "./backups"; "W"; "7" ] ]
  = [ "a/b/c"; "a/b/c"; "a/b/c"; "../xyz"; ""; "a"; "backups/W/7" ].
Proof. reflexivity. Qed.

Example Base_examples :
  filepath.Base <$> [ "/foo/bar/baz.js"; "/foo/bar/baz"; "/foo/bar/baz/";
                      "dev.txt"; "../todo.txt"; ".."; "."; "/"; "" ]
  = [ "baz.js"; "baz"; "baz"; "dev.txt"; "todo.txt"; ".."; "."; "/"; "." ].
Proof. reflexivity. Qed.

Example Sprintf_examples :
  Sprintf_s_d "Sales" 1 = "Sales_1" ∧ Sprintf_s_d "Sales" 12 = "Sales_12" ∧
  Sprintf_s_d "Sales" (-3) = "Sales_-3" ∧ Sprintf_pbix "Sales" = "Sales.pbix".
Proof. repeat split; reflexivity. Qed.

Example int_wrap_examples :
  int_wrap 5 = 5 ∧ int_wrap (int_max + 1) = int_min ∧
  int_wrap (int_min - 1) = int_max.
Proof. repeat split; reflexivity. Qed.

Example datasetName_of_examples :
  restore.datasetName_of "Sales.pbix" = Some "Sales" ∧
  restore.datasetName_of ".pbix" = Some "" ∧
  restore.datasetName_of "abcd" = None.
Proof. repeat split; reflexivity. Qed.

(** ** The probing loop and the reconciler *)

Lemma int_wrap_id z : int_min ≤ z ≤ int_max → int_wrap z = z.
Proof.
  unfold int_min, int_max, int_wrap. intros Hz.
  rewrite Z.mod_small by lia. lia.
Qed.

Lemma Sprintf_s_d_inj d : Inj (=) (=) (Sprintf_s_d d).
Proof.
  intros c1 c2 Heq. unfold Sprintf_s_d in Heq.
  apply (inj (String.app d)) in Heq.
  apply (inj (String.app "_")) in Heq.
  by apply (inj pretty) in Heq.
Qed.

Lemma Sprintf_s_d_ne d c : Sprintf_s_d d c ≠ d.
Proof.
  unfold Sprintf_s_d. intros Heq.
  assert (Hd : d = d +:+ "").
  { clear. induction d as [|a d IH]; [done|]. unfold String.app in *. simpl. by rewrite <- IH. }
  rewrite Hd in Heq at 2.
  apply (inj (String.app d)) in Heq. discriminate.
Qed.

Lemma probe_spec fuel E d c :
  1 ≤ c → (c + Z.of_nat fuel ≤ 2 ^ 63) →
  match probe fuel E d c with
  | Some n =>
      (c ≤ n < c + Z.of_nat fuel) ∧ (Sprintf_s_d d n ∉ E) ∧
      ∀ m, c ≤ m < n → Sprintf_s_d d m ∈ E
  | None => ∀ m, c ≤ m < c + Z.of_nat fuel → Sprintf_s_d d m ∈ E
  end.
Proof.
  revert c. induction fuel as [|fuel IH]; intros c Hc Hb; simpl.
  - intros m Hm. lia.
  - destruct (decide (Sprintf_s_d d c ∈ E)) as [Hin|Hout].
    + destruct fuel as [|fuel'].
      { simpl. intros m Hm. assert (m = c) as -> by lia. done. }
      rewrite int_wrap_id by (unfold int_min, int_max; lia).
      specialize (IH (c + 1) ltac:(lia) ltac:(lia)).
      destruct (probe (S fuel') E d (c + 1)) as [n|].
      * destruct IH as (Hn & Hfree & Hbelow). split; [lia|]. split; [done|].
        intros m Hm. destruct (decide (m = c)) as [->|]; [done|].
        apply Hbelow. lia.
      * intros m Hm. destruct (decide (m = c)) as [->|]; [done|].
        apply IH. lia.
    + split; [lia|]. split; [done|]. intros m Hm. lia.
Qed.

Lemma taken_bound (E : gset string) d (k : nat) :
  d ∈ E → (∀ m, 1 ≤ m < 1 + Z.of_nat k → Sprintf_s_d d m ∈ E) →
  (S k ≤ size E)%nat.
Proof.
  intros Hd Hall.
  set (l := d :: (Sprintf_s_d d <$> seqZ 1 (Z.of_nat k))).
  assert (Hnd : NoDup l).
  { apply NoDup_cons. split.
    - intros (m & Hm & _)%list_elem_of_fmap. symmetry in Hm. by apply Sprintf_s_d_ne in Hm.
    - apply NoDup_fmap_2; [apply Sprintf_s_d_inj|apply NoDup_seqZ]. }
  assert (Hsub : list_to_set (C := gset string) l ⊆ E).
  { intros x [->|(m & -> & Hm%elem_of_seqZ)%list_elem_of_fmap]%elem_of_list_to_set%elem_of_cons;
      [done|]. apply Hall. lia. }
  apply subseteq_size in Hsub. rewrite size_list_to_set in Hsub by done.
  unfold l in Hsub. simpl in Hsub. rewrite length_fmap, length_seqZ in Hsub. lia.
Qed.

Lemma probe_total E d :
  d ∈ E → Z.of_nat (size E) ≤ int_max →
  ∃ n, probe (size E) E d 1 = Some n.
Proof.
  intros Hd Hsz. pose proof (probe_spec (size E) E d 1 ltac:(lia)) as Hp.
  destruct (probe (size E) E d 1) as [n|]; [by eexists|].
  exfalso. unfold int_max in Hsz.
  pose proof (taken_bound E d (size E) Hd (Hp ltac:(lia))). lia.
Qed.

Lemma length_app_string (a b : string) :
  String.length (a +:+ b) = (String.length a + String.length b)%nat.
Proof. induction a as [|c a IH]; [done|]. unfold String.app in *. simpl. by rewrite IH. Qed.

Lemma substring_app_prefix (a b : string) :
  substring 0 (String.length a) (a +:+ b) = a.
Proof.
  induction a as [|c a IH]; simpl.
  - by destruct b.
  - unfold String.app in *. simpl. by rewrite IH.
Qed.

Lemma datasetName_of_pbix stem :
  restore.datasetName_of (Sprintf_pbix stem) = Some stem.
Proof.
  unfold restore.datasetName_of, Sprintf_pbix.
  rewrite length_app_string. simpl String.length.
  rewrite decide_True by lia.
  replace (String.length stem + 5 - 5)%nat with (String.length stem) by lia.
  by rewrite substring_app_prefix.
Qed.

(** The reconciler on one candidate. *)
Lemma finalName_fresh E d :
  d ∉ E → finalName E d = Some d.
Proof. intros Hd. unfold finalName. by rewrite decide_False. Qed.

Lemma finalName_taken E d :
  Z.of_nat (size E) ≤ int_max → d ∈ E →
  ∃ final, finalName E d = Some final ∧ is_minimal_suffix E d final.
Proof.
  intros Hsz Hd. unfold finalName. rewrite decide_True by done.
  destruct (probe_total E d Hd Hsz) as [n Hn].
  pose proof (probe_spec (size E) E d 1 ltac:(lia)) as Hp.
  rewrite Hn in Hp. unfold int_max in Hsz.
  destruct (Hp ltac:(lia)) as (Hr & Hfree & Hbelow).
  exists (Sprintf_s_d d n). rewrite Hn. simpl. split; [done|].
  exists n. split; [lia|]. done.
Qed.

Lemma finalName_not_taken E d :
  Z.of_nat (size E) ≤ int_max →
  ∃ final, finalName E d = Some final ∧ final ∉ E.
Proof.
  intros Hsz. destruct (decide (d ∈ E)) as [Hd|Hd].
  - destruct (finalName_taken E d Hsz Hd) as (final & Hf & n & _ & _ & Hfree & _).
    eauto.
  - exists d. split; [by apply finalName_fresh|done].
Qed.

Section loop.
Context {W : Type} {env : Env W}.

Lemma import_loop_spec ws files : ∀ stems st w,
  Forall2 (λ f stem, filepath.Base f = Sprintf_pbix stem) files stems →
  Z.of_nat (size st.(restore.existingDatasets)) + Z.of_nat (length files) ≤ int_max →
  ∃ st',
    result_of (restore.import_loop ws files st w) = restore.LoopDone st' ∧
    events_of (restore.import_loop ws files st w)
      = (λ x : string * string * bool, EvImportPBIX ws x.1.1 x.1.2 x.2)
          <$> imports (events_of (restore.import_loop ws files st w)) ∧
    (λ x : string * string * bool, x.1.1)
      <$> imports (events_of (restore.import_loop ws files st w)) = files ∧
    reconciled st.(restore.existingDatasets) stems
      (imports (events_of (restore.import_loop ws files st w))) ∧
    st'.(restore.existingDatasets)
      = list_to_set (reserved (imports (events_of (restore.import_loop ws files st w))))
          ∪ st.(restore.existingDatasets) ∧
    st'.(restore.imported)
      = (st.(restore.imported)
         + length (reserved (imports (events_of (restore.import_loop ws files st w)))))%nat ∧
    (st'.(restore.imported) + st'.(restore.failed)
      = st.(restore.imported) + st.(restore.failed) + length files)%nat.
Proof.
  induction files as [|f files IH]; intros stems st w Hst Hsz.
  - apply Forall2_nil_inv_l in Hst as ->. exists st. simpl.
    split_and!; try done; [set_solver|lia..].
  - apply Forall2_cons_inv_l in Hst as (stem & stems' & Hf & Hst & ->).
    simpl. rewrite Hf, datasetName_of_pbix.
    destruct (finalName_not_taken (restore.existingDatasets st) stem)
      as (final & Hfinal & Hfresh).
    { simpl in Hsz. lia. }
    rewrite Hfinal. unfold bind, call.
    destruct (api_ImportPBIX ws f final w) as [r w1].
    assert (Hrec : (stem ∉ restore.existingDatasets st → final = stem) ∧
              (stem ∈ restore.existingDatasets st →
               is_minimal_suffix (restore.existingDatasets st) stem final)).
    { split; intros Hd.
      - rewrite finalName_fresh in Hfinal by done. congruence.
      - destruct (finalName_taken (restore.existingDatasets st) stem
                    ltac:(simpl in Hsz; lia) Hd) as (final' & Hfn & Hmin).
        congruence. }
    destruct (succeeded r) eqn:Hok.
    + match goal with |- context [restore.import_loop ws files ?st1 w1] =>
        destruct (IH stems' st1 w1 Hst) as (st' & Hres & Hevs & Hfiles & Hr & HE & Hi & Hc);
        [simpl; rewrite size_union by set_solver; rewrite size_singleton; simpl in Hsz; lia|];
        destruct (restore.import_loop ws files st1 w1) as [[res w2] evs]
      end.
      unfold result_of, events_of in *. simpl in *. exists st'.
      split; [done|]. split; [by f_equal|]. split; [by f_equal|].
      split; [by destruct Hrec|]. split; [rewrite HE; set_solver|]. lia.
    + match goal with |- context [restore.import_loop ws files ?st1 w1] =>
        destruct (IH stems' st1 w1 Hst) as (st' & Hres & Hevs & Hfiles & Hr & HE & Hi & Hc);
        [simpl; simpl in Hsz; lia|];
        destruct (restore.import_loop ws files st1 w1) as [[res w2] evs]
      end.
      unfold result_of, events_of in *. simpl in *. exists st'.
      split; [done|]. split; [by f_equal|]. split; [by f_equal|].
      split; [by destruct Hrec|]. split; [rewrite HE; set_solver|]. lia.
Qed.
End loop.

Lemma reconciled_reserved : ∀ stems E imps,
  reconciled E stems imps →
  NoDup (reserved imps) ∧ ∀ n, n ∈ reserved imps → n ∉ E.
Proof.
  induction stems as [|d stems IH]; intros E [|[[f final] ok] imps] Hr;
    simpl in Hr; try done.
  - split; [constructor|]. intros n Hn. by apply elem_of_nil in Hn.
  - destruct Hr as (Hfresh & _ & _ & Hr). apply IH in Hr as [Hnd Hdisj].
    unfold reserved in *. simpl. destruct ok; simpl.
    + split.
      * constructor; [|done]. intros Hin. apply Hdisj in Hin. set_solver.
      * intros n [->|Hn]%elem_of_cons; [done|]. apply Hdisj in Hn. set_solver.
    + done.
Qed.

Lemma reconciled_lookup : ∀ stems E imps,
  reconciled E stems imps →
  length imps = length stems ∧
  ∀ (i : nat) stem, stems !! i = Some stem →
    ∃ f final ok, imps !! i = Some (f, final, ok) ∧
      let taken := list_to_set (reserved (take i imps)) ∪ E in
      (final ∉ taken) ∧ (stem ∉ taken → final = stem) ∧
      (stem ∈ taken → is_minimal_suffix taken stem final).
Proof.
  induction stems as [|d stems IH]; intros E [|[[f final] ok] imps] Hr;
    simpl in Hr; try done.
  destruct Hr as (Hfresh & Hsame & Hmin & Hr). apply IH in Hr as [Hlen Hr].
  split; [simpl; by rewrite Hlen|]. intros [|i] stem Hi; simpl in Hi.
  - injection Hi as ->. exists f, final, ok. split; [done|]. simpl.
    rewrite (left_id_L ∅ (∪) E). split; [done|]. split; done.
  - destruct (Hr i stem Hi) as (f' & final' & ok' & Hlook & Hprop).
    exists f', final', ok'. split; [done|]. simpl in *.
    replace (list_to_set (reserved ((f, final, ok) :: take i imps)) ∪ E)
      with (list_to_set (reserved (take i imps))
              ∪ (if ok then {[final]} ∪ E else E)); [done|].
    unfold reserved. simpl. destruct ok; simpl; set_solver.
Qed.

(** ** The reconciler on one candidate, and the three-Sales scenario *)

(** C2.  For a taken set [E] that a Go map can hold and a desired name [d]:
    when [d] is not in [E] the reconciler returns [d] unchanged; when [d] is
    in [E] it returns ["{d}_{n}"] for the smallest positive [n] whose form is
    not in [E].  In particular three artifacts named [Sales.pbix], imported
    successfully against an empty set, are imported as [Sales], [Sales_1],
    [Sales_2], in that order. *)
Theorem reconciler_first_unused {W : Type} {env : Env W}
    (E : gset string) (d : string) :
  Z.of_nat (size E) ≤ int_max →
  (d ∉ E → finalName E d = Some d) ∧
  (d ∈ E →
   ∃ n, 1 ≤ n ∧ finalName E d = Some (Sprintf_s_d d n) ∧
        (Sprintf_s_d d n ∉ E) ∧ ∀ m, 1 ≤ m < n → Sprintf_s_d d m ∈ E) ∧
  (∀ ws f1 f2 f3 (w : W),
     filepath.Base f1 = "Sales.pbix" →
     filepath.Base f2 = "Sales.pbix" →
     filepath.Base f3 = "Sales.pbix" →
     let run :=
       restore.import_loop ws [f1; f2; f3]
         {| restore.existingDatasets := ∅;
            restore.imported := 0; restore.failed := 0 |} w in
     Forall (λ x : string * string * bool, x.2 = true)
            (imports (events_of run)) →
     import_names (events_of run) = ["Sales"; "Sales_1"; "Sales_2"]).
Proof.
  intros Hsz. split; [apply finalName_fresh|]. split.
  - intros Hd. destruct (finalName_taken E d Hsz Hd)
      as (final & Hf & n & Hn & -> & Hfree & Hbelow). by exists n.
  - intros ws f1 f2 f3 w Hf1 Hf2 Hf3 run Hok.
    destruct (import_loop_spec ws [f1; f2; f3] ["Sales"; "Sales"; "Sales"]
                {| restore.existingDatasets := ∅;
                   restore.imported := 0; restore.failed := 0 |} w)
      as (st' & _ & _ & _ & Hrec & _).
    { by repeat constructor. }
    { change (Z.of_nat (size (∅ : gset string)) + 3 ≤ int_max).
      rewrite size_empty. by vm_compute. }
    fold run in Hrec. unfold import_names.
    destruct (imports (events_of run))
      as [|[[g1 n1] o1] [|[[g2 n2] o2] [|[[g3 n3] o3] [|? ?]]]];
      simpl in Hrec; try done; try (by destruct Hrec as (_ & _ & _ & ?));
      try (by destruct Hrec as (_ & _ & _ & _ & _ & _ & ?));
      try (by destruct Hrec as (_ & _ & _ & _ & _ & _ & _ & _ & _ & ?)).
    apply Forall_cons in Hok as [Ho1 Hok]. apply Forall_cons in Hok as [Ho2 _].
    simpl in Ho1, Ho2. subst o1 o2.
    destruct Hrec as (_ & H1 & _ & _ & _ & H2 & _ & _ & H3 & _).
    rewrite (H1 (not_elem_of_empty _)) in *. clear H1.
    assert (Hin1 : "Sales" ∈ ({[ "Sales" ]} ∪ ∅ : gset string))
      by (apply elem_of_union_l; by apply elem_of_singleton).
    destruct (H2 Hin1) as (k & Hk & -> & _ & Hbelow). clear H2.
    assert (k = 1) as ->.
    { destruct (decide (k = 1)) as [|Hne]; [done|]. exfalso.
      specialize (Hbelow 1 ltac:(lia)).
      apply elem_of_union in Hbelow as [Hb%elem_of_singleton|Hb].
      - by apply Sprintf_s_d_ne in Hb.
      - by apply elem_of_empty in Hb. }
    assert (Hin2 : "Sales" ∈ ({[ Sprintf_s_d "Sales" 1 ]}
                               ∪ ({[ "Sales" ]} ∪ ∅) : gset string))
      by (apply elem_of_union_r, Hin1).
    destruct (H3 Hin2) as (j & Hj & -> & Hfree & Hbelow3).
    assert (j = 2) as ->; [|done].
    destruct (decide (j = 1)) as [->|Hne1].
    { exfalso. apply Hfree. apply elem_of_union_l. by apply elem_of_singleton. }
    destruct (decide (j = 2)) as [|Hne2]; [done|]. exfalso.
    specialize (Hbelow3 2 ltac:(lia)).
    apply elem_of_union in Hbelow3 as [Hb%elem_of_singleton|Hb].
    + by apply Sprintf_s_d_inj in Hb.
    + apply elem_of_union in Hb as [Hb%elem_of_singleton|Hb].
      * by apply Sprintf_s_d_ne in Hb.
      * by apply elem_of_empty in Hb.
Qed.

Lemma reconciler_first_unused_witness :
  Z.of_nat (size ({[ "Sales"; "Sales_1" ]} : gset string)) ≤ int_max ∧
  ∃ n, 1 ≤ n ∧
    finalName {[ "Sales"; "Sales_1" ]} "Sales" = Some (Sprintf_s_d "Sales" n) ∧
    (Sprintf_s_d "Sales" n ∉ ({[ "Sales"; "Sales_1" ]} : gset string)) ∧
    ∀ m, 1 ≤ m < n →
      Sprintf_s_d "Sales" m ∈ ({[ "Sales"; "Sales_1" ]} : gset string).
Proof.
  assert (Hsz : Z.of_nat (size ({[ "Sales"; "Sales_1" ]} : gset string))
                ≤ int_max) by (by vm_compute).
  split; [exact Hsz|].
  apply (reconciler_first_unused (env := sim.env)
           {[ "Sales"; "Sales_1" ]} "Sales" Hsz).
  by vm_compute.
Defined.

(** ** One restore run of the reconciler *)

(** C1, as the code has it.  Over any sequence of artifacts whose file names
    are [stem.pbix] (stems may repeat), the import loop ends normally and
    attempts one import per artifact.  Each name handed out lies outside the
    seeded set and outside the names of the earlier imports that succeeded;
    it is the candidate itself when the candidate is outside them, and the
    minimal suffixed form otherwise.  The names of the successful imports are
    pairwise distinct, none of them is in the seeded set, and they are
    exactly what the loop has added to the taken set: a name is registered
    only once its import has succeeded. *)
Theorem reconciler_run_registers_successes {W : Type} {env : Env W}
    (ws : string) (files stems : list string) (st : restore.ImportState)
    (w : W) :
  Forall2 (λ f stem, filepath.Base f = Sprintf_pbix stem) files stems →
  Z.of_nat (size st.(restore.existingDatasets)) + Z.of_nat (length files)
    ≤ int_max →
  let run := restore.import_loop ws files st w in
  let imps := imports (events_of run) in
  ∃ st',
    result_of run = restore.LoopDone st' ∧
    (λ x : string * string * bool, x.1.1) <$> imps = files ∧
    NoDup (reserved imps) ∧
    (∀ n, n ∈ reserved imps → n ∉ st.(restore.existingDatasets)) ∧
    st'.(restore.existingDatasets)
      = list_to_set (reserved imps) ∪ st.(restore.existingDatasets) ∧
    ∀ (i : nat) stem, stems !! i = Some stem →
      ∃ f final ok, imps !! i = Some (f, final, ok) ∧
        let taken :=
          list_to_set (reserved (take i imps))
            ∪ st.(restore.existingDatasets) in
        (final ∉ taken) ∧ (stem ∉ taken → final = stem) ∧
        (stem ∈ taken → is_minimal_suffix taken stem final).
Proof.
  intros Hst Hsz run imps.
  destruct (import_loop_spec ws files stems st w Hst Hsz)
    as (st' & Hres & _ & Hfiles & Hrec & HE & _).
  fold run in Hres, Hfiles, Hrec, HE. fold imps in Hfiles, Hrec, HE.
  destruct (reconciled_reserved _ _ _ Hrec) as [Hnd Hdisj].
  destruct (reconciled_lookup _ _ _ Hrec) as [_ Hlook].
  exists st'. split; [done|]. split; [done|]. split; [done|].
  split; [done|]. split; done.
Qed.

Lemma reconciler_run_registers_successes_witness :
  ∃ st',
    result_of
      (restore.import_loop "T" ["snap/pbix/A.pbix"; "snap/pbix/A_1.pbix"]
         {| restore.existingDatasets := {[ "A" ]};
            restore.imported := 0; restore.failed := 0 |}
         scenario.rejected_artifact) = restore.LoopDone st' ∧
    st'.(restore.existingDatasets)
      = list_to_set
          (reserved
             (imports
                (events_of
                   (restore.import_loop "T"
                      ["snap/pbix/A.pbix"; "snap/pbix/A_1.pbix"]
                      {| restore.existingDatasets := {[ "A" ]};
                         restore.imported := 0; restore.failed := 0 |}
                      scenario.rejected_artifact))))
          ∪ {[ "A" ]}.
Proof.
  destruct (reconciler_run_registers_successes (env := sim.env) "T"
              ["snap/pbix/A.pbix"; "snap/pbix/A_1.pbix"] ["A"; "A_1"]
              {| restore.existingDatasets := {[ "A" ]};
                 restore.imported := 0; restore.failed := 0 |}
              scenario.rejected_artifact)
    as (st' & Hres & _ & _ & _ & HE & _).
  - repeat constructor.
  - change (Z.of_nat (size ({[ "A" ]} : gset string)) + 2 ≤ int_max).
    rewrite size_singleton. by vm_compute.
  - exists st'. split; [exact Hres|exact HE].
Defined.

(** C1 as stated fails: when the import of [A.pbix] under the name [A_1] is
    rejected, the name is not registered, and the next artifact, [A_1.pbix],
    is handed the same name [A_1]. *)
Lemma same_name_returned_twice :
  let run :=
    restore.RestoreWorkspace scenario.restore_service "T" "snap"
      scenario.rejected_artifact in
  result_of run = restore.Returned None ∧
  imports (events_of run)
    = [ ("snap/pbix/A.pbix", "A_1", false);
        ("snap/pbix/A_1.pbix", "A_1", true) ] ∧
  ¬ NoDup (import_names (events_of run)).
Proof.
  assert (Hn : imports
            (events_of
               (restore.RestoreWorkspace scenario.restore_service "T" "snap"
                  scenario.rejected_artifact))
          = [ ("snap/pbix/A.pbix", "A_1", false);
              ("snap/pbix/A_1.pbix", "A_1", true) ])
    by (vm_compute; reflexivity).
  cbv zeta. split; [vm_compute; reflexivity|]. split; [exact Hn|].
  unfold import_names. rewrite Hn. intros Hnd.
  apply NoDup_cons in Hnd as [Hnotin _].
  apply Hnotin. by left.
Qed.

(** ** The schedule loop and the name index *)

Section schedules.
Context {W : Type} {env : Env W}.

Lemma schedule_loop_spec ws index : ∀ schedules c (w : W),
  let run := restore.schedule_loop ws index schedules c w in
  Forall is_update (events_of run) ∧
  updates (events_of run) = remapped index schedules ∧
  (restore.sc_failed (result_of run)
   = restore.sc_failed c + length (unmatched index schedules)
     + length (refused_updates (events_of run)))%nat ∧
  (restore.restored (result_of run) + restore.sc_failed (result_of run)
   = restore.restored c + restore.sc_failed c + length schedules)%nat.
Proof.
  induction schedules as [|sch schedules IH]; intros c w; simpl.
  - split; [constructor|]. split; [done|]. unfold result_of; simpl. lia.
  - unfold remapped, unmatched in *. simpl.
    destruct (index !! DatasetName sch) as [id|] eqn:Hlook; simpl;
      [rewrite filter_cons_False by (by rewrite Hlook)
      |rewrite filter_cons_True by done].
    + unfold bind, call.
      destruct (api_UpdateRefreshSchedule ws id (Schedule sch) w) as [r w1].
      destruct r as [[]|e].
      * match goal with |- context [restore.schedule_loop ws index schedules ?c1 w1] =>
          specialize (IH c1 w1);
          destruct (restore.schedule_loop ws index schedules c1 w1)
            as [[c' w2] evs] end.
        unfold result_of, events_of, updates, refused_updates in *; cbn in *.
        destruct IH as (Hall & Hup & Hf & Hsum).
        split; [by constructor|]. split; [by f_equal|]. lia.
      * match goal with |- context [restore.schedule_loop ws index schedules ?c1 w1] =>
          specialize (IH c1 w1);
          destruct (restore.schedule_loop ws index schedules c1 w1)
            as [[c' w2] evs] end.
        unfold result_of, events_of, updates, refused_updates in *; cbn in *.
        destruct IH as (Hall & Hup & Hf & Hsum).
        split; [by constructor|]. split; [by f_equal|]. lia.
    + match goal with |- context [restore.schedule_loop ws index schedules ?c1 w] =>
        specialize (IH c1 w);
        destruct (restore.schedule_loop ws index schedules c1 w)
          as [[c' w2] evs] end.
      unfold result_of, events_of, updates, refused_updates in *; cbn in *.
      destruct IH as (Hall & Hup & Hf & Hsum).
      simpl.
      split; [done|]. split; [done|]. lia.
Qed.

End schedules.

Lemma index_step_lookup acc item n id :
  restore.index_step acc item !! n = Some id →
  acc !! n = Some id ∨
  ∃ ds, item = JObject ds ∧ as_string (jlookup ds "name") = Some n ∧
        as_string (jlookup ds "id") = Some id.
Proof.
  unfold restore.index_step. destruct item as [| | | |?|ds]; simpl; auto.
  case_decide as Hc; [|auto]. destruct Hc as [Hn Hi].
  intros [[Hk Hv]|[_ ?]]%lookup_insert_Some; [right|auto].
  exists ds. split; [done|].
  destruct (as_string (jlookup ds "name")) as [name|]; simpl in *; [|done].
  destruct (as_string (jlookup ds "id")) as [i|]; simpl in *; [|done].
  by subst.
Qed.

Lemma index_fold_lookup value : ∀ acc n id,
  foldl restore.index_step acc value !! n = Some id →
  acc !! n = Some id ∨
  ∃ ds, JObject ds ∈ value ∧ as_string (jlookup ds "name") = Some n ∧
        as_string (jlookup ds "id") = Some id.
Proof.
  induction value as [|item value IH]; intros acc n id Hl; simpl in Hl; [auto|].
  apply IH in Hl as [Hl|(ds & Hin & Hn & Hi)].
  - apply index_step_lookup in Hl as [Hl|(ds & -> & Hn & Hi)]; [auto|].
    right. exists ds. split; [by left|done].
  - right. exists ds. split; [by right|done].
Qed.

Lemma index_step_is_Some acc item n :
  is_Some (acc !! n) → is_Some (restore.index_step acc item !! n).
Proof.
  intros Hs. unfold restore.index_step. destruct (as_object item) as [ds|]; [|done].
  case_decide; [|done]. rewrite lookup_insert_is_Some.
  destruct (decide (default "" (as_string (jlookup ds "name")) = n)); auto.
Qed.

Lemma index_fold_is_Some value : ∀ acc n,
  (is_Some (acc !! n) ∨
   ∃ ds id, JObject ds ∈ value ∧ as_string (jlookup ds "name") = Some n ∧
            as_string (jlookup ds "id") = Some id ∧ n ≠ "" ∧ id ≠ "") →
  is_Some (foldl restore.index_step acc value !! n).
Proof.
  induction value as [|item value IH]; intros acc n Hs; simpl.
  - destruct Hs as [Hs|(ds & id & Hin & _)]; [done|]. by apply elem_of_nil in Hin.
  - apply IH. destruct Hs as [Hs|(ds & id & Hin & Hn & Hi & Hne)].
    + left. by apply index_step_is_Some.
    + apply elem_of_cons in Hin as [<-|Hin].
      * left. unfold restore.index_step. simpl. rewrite Hn, Hi. simpl.
        rewrite decide_True by done. rewrite lookup_insert_eq. by eexists.
      * right. by exists ds, id.
Qed.

(** ** Refresh-schedule remapping *)

(** C6.  When [restoreRefreshSchedules] has fetched the datasets of the
    target workspace, the index it builds maps a name to the id of a dataset
    listed under that name, and has an entry for every listed dataset with a
    non-empty name and id.  The update calls made are exactly, in order, one
    per schedule whose captured dataset name is in the index, carrying the id
    found there and the schedule blob.  A schedule with no match makes no
    call and is counted as failed, the remaining schedules are processed all
    the same, and the function returns a nil error. *)
Theorem schedules_remapped_by_name {W : Type} {env : Env W}
    (s : restore.Service) (ws : string) (schedules : list RefreshSchedule)
    (w : W) (datasetsResp : jmap) :
  let run := restore.restoreRefreshSchedules s ws schedules w in
  EvGetDatasets ws (Ok datasetsResp) ∈ events_of run →
  let index := restore.name_index datasetsResp in
  (∀ name id, index !! name = Some id → lists_dataset datasetsResp name id) ∧
  (∀ name id, lists_dataset datasetsResp name id → name ≠ "" → id ≠ "" →
              is_Some (index !! name)) ∧
  updates (events_of run) = remapped index schedules ∧
  ∃ c, result_of run = (None, Some c) ∧
       restore.sc_failed c
         = (length (unmatched index schedules)
            + length (refused_updates (events_of run)))%nat ∧
       (restore.restored c + restore.sc_failed c = length schedules)%nat.
Proof.
  intros run Hev index. split; [|split].
  - intros name id Hl. unfold index, restore.name_index in Hl.
    unfold lists_dataset.
    destruct (as_array (jlookup datasetsResp "value")) as [value|] eqn:Hv;
      [|by rewrite lookup_empty in Hl].
    apply index_fold_lookup in Hl as [Hl|(ds & Hin & Hn & Hi)];
      [by rewrite lookup_empty in Hl|].
    by exists value, ds.
  - intros name id (value & ds & Hv & Hin & Hn & Hi) Hne1 Hne2.
    unfold index, restore.name_index. rewrite Hv.
    apply index_fold_is_Some. right. by exists ds, id.
  - unfold run, restore.restoreRefreshSchedules in *.
    case_decide as Hlen.
    { unfold events_of, ret in Hev. simpl in Hev. by apply elem_of_nil in Hev. }
    unfold bind, call in *.
    destruct (api_GetDatasets ws w) as [r w1].
    destruct r as [resp|e].
    + pose proof (schedule_loop_spec ws (restore.name_index resp) schedules
                    {| restore.restored := 0; restore.sc_failed := 0 |} w1)
        as Hloop.
      destruct (restore.schedule_loop ws (restore.name_index resp) schedules
                  {| restore.restored := 0; restore.sc_failed := 0 |} w1)
        as [[c w2] evs].
      unfold result_of, events_of, ret in *. cbn in *.
      destruct Hloop as (Hall & Hup & Hf & Hsum).
      assert (resp = datasetsResp) as ->.
      { apply elem_of_cons in Hev as [Heq|Hin]; [congruence|].
        rewrite app_nil_r in Hin.
        by apply (proj1 (Forall_forall _ _) Hall) in Hin. }
      rewrite app_nil_r. unfold updates, refused_updates in *. cbn.
      split; [done|]. exists c. split; [done|]. split; [exact Hf|exact Hsum].
    + unfold events_of, ret in Hev. cbn in Hev.
      apply elem_of_cons in Hev as [Heq|Hin]; [congruence|].
      by apply elem_of_nil in Hin.
Qed.

Lemma schedules_remapped_by_name_witness :
  updates
    (events_of
       (restore.restoreRefreshSchedules scenario.restore_service "T"
          scenario_remap.captured scenario_remap.after_import))
  = [ ("new-1", [ ("enabled", JBool true) ]) ] ∧
  ∃ c,
    result_of
      (restore.restoreRefreshSchedules scenario.restore_service "T"
         scenario_remap.captured scenario_remap.after_import)
    = (None, Some c) ∧
    restore.restored c = 1%nat ∧ restore.sc_failed c = 1%nat.
Proof.
  destruct (schedules_remapped_by_name (env := sim.env)
              scenario.restore_service "T" scenario_remap.captured
              scenario_remap.after_import
              (sim.listing "T"
                 (sim.remote_datasets scenario_remap.after_import)))
    as (_ & _ & Hup & c & Hres & Hf & Hsum).
  - vm_compute. by left.
  - split.
    + rewrite Hup. vm_compute. reflexivity.
    + exists c. split; [exact Hres|].
      assert (Hfc : restore.sc_failed c = 1%nat).
      { rewrite Hf. vm_compute. reflexivity. }
      split; [|exact Hfc]. rewrite Hfc in Hsum. simpl in Hsum. lia.
Defined.

(** ** The restore orchestrator *)

Section restore_run.
Context {W : Type} {env : Env W}.

Lemma run_bind {A B} (m : M W A) (k : A → M W B) (w : W) :
  bind m k w
  = (result_of (k (result_of (m w)) (world_of (m w))),
     world_of (k (result_of (m w)) (world_of (m w))),
     events_of (m w) ++ events_of (k (result_of (m w)) (world_of (m w)))).
Proof.
  unfold bind, result_of, world_of, events_of.
  destruct (m w) as [[a w1] e1]. simpl.
  by destruct (k a w1) as [[b w2] e2].
Qed.

Lemma LoadBackup_events (st : storage.StorageService) path (w : W) :
  ∃ r, events_of (storage.LoadBackup st path w)
       = [ EvReadFile (filepath.Join [path; "complete_backup.json"]) r ] ∧
       result_of (storage.LoadBackup st path w)
       = match r with Ok d => json_UnmarshalBackup d | Err e => Err e end.
Proof.
  unfold storage.LoadBackup, bind, call.
  destruct (os_ReadFile _ w) as [[d|e] w1]; by eexists.
Qed.

Lemma import_loop_events ws files : ∀ st (w : W),
  Forall is_import (events_of (restore.import_loop ws files st w)).
Proof.
  induction files as [|f files IH]; intros st w; simpl; [constructor|].
  destruct (restore.datasetName_of (filepath.Base f)); [|constructor].
  destruct (finalName (restore.existingDatasets st) s); [|constructor].
  rewrite run_bind. unfold events_of at 1. simpl. apply Forall_app. split.
  - unfold call. destruct (api_ImportPBIX ws f s0 w). by repeat constructor.
  - destruct (succeeded _); apply IH.
Qed.

Lemma restoreRefreshSchedules_events s ws schedules (w : W) :
  Forall is_remap_call
    (events_of (restore.restoreRefreshSchedules s ws schedules w)).
Proof.
  unfold restore.restoreRefreshSchedules. case_decide; [constructor|].
  rewrite run_bind. unfold events_of at 1. simpl. apply Forall_app. split.
  - unfold call. destruct (api_GetDatasets ws w). by repeat constructor.
  - destruct (result_of _) as [resp|e]; [|constructor].
    rewrite run_bind. unfold events_of at 1. simpl. rewrite app_nil_r.
    eapply Forall_impl; [apply schedule_loop_spec|]. by intros [].
Qed.

(** The events of [restoreReportsPBIX], by cases on what the file system
    answered. *)
Lemma restoreReportsPBIX_cases s ws path (w : W) :
  let pbixDir := filepath.Join [path; "pbix"] in
  let pattern := filepath.Join [pbixDir; "*.pbix"] in
  let run := restore.restoreReportsPBIX s ws path w in
  (events_of run = [ EvStat pbixDir true ] ∧
   result_of run = restore.Returned None) ∨
  (∃ e, events_of run = [ EvStat pbixDir false; EvGlob pattern (Err e) ] ∧
        result_of run = restore.Returned (Some e)) ∨
  (events_of run = [ EvStat pbixDir false; EvGlob pattern (Ok []) ] ∧
   result_of run = restore.Returned None) ∨
  (∃ f files rest,
     events_of run
       = EvStat pbixDir false :: EvGlob pattern (Ok (f :: files)) :: rest ∧
     Forall is_import_call rest).
Proof.
  intros pbixDir pattern run. unfold run, restore.restoreReportsPBIX.
  fold pbixDir. fold pattern. unfold bind, call, ret, result_of, events_of.
  destruct (os_Stat_IsNotExist pbixDir w) as [[|] w1];
    [left; split; reflexivity|].
  right.
  destruct (filepath_Glob pattern w1) as [[files|e] w2].
  - destruct files as [|f files]; [right; left; split; reflexivity|].
    right. right. rewrite decide_False by done.
    destruct (api_GetDatasets ws w2) as [resp w3].
    pose proof (import_loop_events ws (f :: files)
                  {| restore.existingDatasets := restore.existing_names resp;
                     restore.imported := 0; restore.failed := 0 |} w3) as Hall.
    destruct (restore.import_loop ws (f :: files) _ w3) as [[r w4] evs].
    unfold events_of in Hall. cbn in Hall.
    exists f, files. eexists. split.
    + destruct r; reflexivity.
    + constructor; [done|].
      destruct r; cbn; rewrite app_nil_r;
        (eapply Forall_impl; [exact Hall|]; by intros []).
  - left. exists e. split; reflexivity.
Qed.

End restore_run.

Section restore_claims.
Context {W : Type} {env : Env W}.

Lemma RestoreWorkspace_run (s : restore.Service) ws path (w : W) :
  let run := restore.RestoreWorkspace s ws path w in
  let load := storage.LoadBackup s.(restore.storageService) path w in
  match result_of load with
  | Err e =>
      result_of run = restore.Returned (Some e) ∧
      events_of run = events_of load
  | Ok b =>
      let step := restore.restoreReportsPBIX s ws path (world_of load) in
      match result_of step with
      | restore.Returned None =>
          let sched :=
            restore.restoreRefreshSchedules s ws b.(RefreshSchedules)
              (world_of step) in
          result_of run = restore.Returned None ∧
          events_of run = events_of load ++ events_of step ++ events_of sched
      | other =>
          result_of run = other ∧
          events_of run = events_of load ++ events_of step
      end
  end.
Proof.
  intros run load. unfold run, restore.RestoreWorkspace. rewrite run_bind.
  fold load. destruct (result_of load) as [b|e].
  - cbn zeta. rewrite run_bind.
    destruct (result_of (restore.restoreReportsPBIX s ws path (world_of load)))
      as [[e|]| |].
    + unfold result_of, events_of, ret. cbn. by rewrite !app_nil_r.
    + rewrite run_bind. unfold result_of at 1, events_of at 1, ret. cbn.
      split; [done|]. unfold events_of at 1. cbn.
      unfold events_of at 4. cbn. by rewrite !app_nil_r.
    + unfold result_of, events_of, ret. cbn. by rewrite !app_nil_r.
    + unfold result_of, events_of, ret. cbn. by rewrite !app_nil_r.
  - unfold result_of, events_of, ret. cbn. by rewrite !app_nil_r.
Qed.

(** C5.  [RestoreWorkspace] returns the error of [LoadBackup] when loading
    the snapshot fails.  When loading succeeds and the artifact-import step
    returns a nil error, [RestoreWorkspace] returns nil after running the
    schedule step, whatever that step returns: an error of the schedule step
    never reaches the caller. *)
Theorem restore_result_ignores_schedule_step (s : restore.Service)
    (ws path : string) (w : W) :
  let run := restore.RestoreWorkspace s ws path w in
  let load := storage.LoadBackup s.(restore.storageService) path w in
  (∀ e, result_of load = Err e → result_of run = restore.Returned (Some e)) ∧
  (∀ b, result_of load = Ok b →
     let step := restore.restoreReportsPBIX s ws path (world_of load) in
     result_of step = restore.Returned None →
     let sched :=
       restore.restoreRefreshSchedules s ws b.(RefreshSchedules)
         (world_of step) in
     result_of run = restore.Returned None ∧
     events_of run = events_of load ++ events_of step ++ events_of sched ∧
     ∀ e, (result_of sched).1 = Some e →
          result_of run = restore.Returned None).
Proof.
  intros run load. pose proof (RestoreWorkspace_run s ws path w) as Hrun.
  cbn zeta in Hrun. fold run in Hrun. fold load in Hrun. split.
  - intros e He. rewrite He in Hrun. by destruct Hrun.
  - intros b Hb step Hstep sched. rewrite Hb in Hrun. fold step in Hrun.
    rewrite Hstep in Hrun. destruct Hrun as [Hres Hevs].
    split; [done|]. split; [done|]. by intros _ _.
Qed.

Lemma restoreReportsPBIX_events (s : restore.Service) ws path (w : W) :
  Forall is_step_call (events_of (restore.restoreReportsPBIX s ws path w)).
Proof.
  destruct (restoreReportsPBIX_cases s ws path w)
    as [[-> _]|[(e & -> & _)|[[-> _]|(f & files & rest & -> & Hall)]]];
    repeat (constructor; [done|]); try constructor.
  eapply Forall_impl; [exact Hall|]. by intros [].
Qed.

Lemma RestoreWorkspace_events (s : restore.Service) ws path (w : W) :
  let run := restore.RestoreWorkspace s ws path w in
  let load := storage.LoadBackup s.(restore.storageService) path w in
  let step := restore.restoreReportsPBIX s ws path (world_of load) in
  ∃ tail,
    Forall is_remap_call tail ∧
    events_of run
      = events_of load
          ++ (if result_of load is Ok _ then events_of step ++ tail else []) ∧
    (is_ok (result_of load) = true →
     result_of step = restore.Returned None →
     result_of run = restore.Returned None).
Proof.
  intros run load step. pose proof (RestoreWorkspace_run s ws path w) as Hrun.
  cbn zeta in Hrun. fold run in Hrun. fold load in Hrun.
  destruct (result_of load) as [b|e].
  - fold step in Hrun. destruct (result_of step) as [[e|]| |].
    + exists []. destruct Hrun as [_ ->]. by rewrite app_nil_r.
    + eexists. destruct Hrun as [-> ->].
      split; [apply restoreRefreshSchedules_events|done].
    + exists []. destruct Hrun as [_ ->]. by rewrite app_nil_r.
    + exists []. destruct Hrun as [_ ->]. by rewrite app_nil_r.
  - exists []. destruct Hrun as [_ ->]. by rewrite app_nil_r.
Qed.

(** C10.  When [os.Stat] reports that the [pbix] directory of the snapshot
    does not exist, or [filepath.Glob] returns no artifact, the import step
    returns a nil error without calling [ImportPBIX]; and a restore whose
    snapshot loaded returns nil with no import attempted. *)
Theorem no_artifact_no_import (s : restore.Service) (ws path : string)
    (w : W) :
  let pbixDir := filepath.Join [path; "pbix"] in
  let pattern := filepath.Join [pbixDir; "*.pbix"] in
  let absent (evs : list Event) :=
    EvStat pbixDir true ∈ evs ∨ EvGlob pattern (Ok []) ∈ evs in
  let step := restore.restoreReportsPBIX s ws path w in
  let run := restore.RestoreWorkspace s ws path w in
  (absent (events_of step) →
   result_of step = restore.Returned None ∧ imports (events_of step) = []) ∧
  (∀ d b,
     EvReadFile (filepath.Join [path; "complete_backup.json"]) (Ok d)
       ∈ events_of run →
     json_UnmarshalBackup d = Ok b →
     absent (events_of run) →
     result_of run = restore.Returned None ∧ imports (events_of run) = []).
Proof.
  intros pbixDir pattern absent step run.
  assert (Hstep : ∀ w',
            absent (events_of (restore.restoreReportsPBIX s ws path w')) →
            result_of (restore.restoreReportsPBIX s ws path w')
              = restore.Returned None ∧
            imports (events_of (restore.restoreReportsPBIX s ws path w')) = []).
  { intros w' Habs.
    destruct (restoreReportsPBIX_cases s ws path w')
      as [[Hev Hres]|[(e & Hev & Hres)|[[Hev Hres]|(f & files & rest & Hev & Hall)]]];
      fold pbixDir in Hev; fold pattern in Hev; unfold absent in Habs;
      rewrite Hev in *.
    - done.
    - exfalso. destruct Habs as [Ha|Ha];
        repeat (apply elem_of_cons in Ha as [Ha|Ha]; [congruence|]);
        by apply elem_of_nil in Ha.
    - done.
    - exfalso. destruct Habs as [Ha|Ha];
        repeat (apply elem_of_cons in Ha as [Ha|Ha]; [congruence|]);
        by apply (proj1 (Forall_forall _ _) Hall) in Ha. }
  split; [apply Hstep|].
  intros d b Hread Hun Habs.
  destruct (RestoreWorkspace_events s ws path w) as (tail & Htail & Hevs & Hres).
  fold run in Hevs, Hres.
  destruct (LoadBackup_events (restore.storageService s) path w)
    as (r & Hlev & Hlres).
  rewrite Hlev in Hevs. rewrite Hlres in Hevs, Hres.
  set (w1 := world_of (storage.LoadBackup (restore.storageService s) path w)) in *.
  pose proof (restoreReportsPBIX_events s ws path w1) as Hkind.
  assert (Hrest : ∀ e, e ∈ (if match r with
                                | Ok d0 => json_UnmarshalBackup d0
                                | Err e0 => Err e0
                                end is Ok _
                            then events_of (restore.restoreReportsPBIX s ws path w1)
                                 ++ tail else []) →
                       is_step_call e ∨ is_remap_call e).
  { intros e He. destruct (match r with Ok _ => _ | Err _ => _ end);
      [|by apply elem_of_nil in He].
    apply elem_of_app in He as [He|He].
    - left. by apply (proj1 (Forall_forall _ _) Hkind).
    - right. by apply (proj1 (Forall_forall _ _) Htail). }
  assert (Hr : r = Ok d).
  { rewrite Hevs in Hread. apply elem_of_cons in Hread as [Heq|Hin];
      [congruence|]. by apply Hrest in Hin as [[]|[]]. }
  subst r. rewrite Hun in *. clear Hrest.
  assert (Habs' : absent (events_of (restore.restoreReportsPBIX s ws path w1))).
  { unfold absent in *. rewrite Hevs in Habs.
    destruct Habs as [Ha|Ha]; [left|right];
      (apply elem_of_cons in Ha as [Ha|Ha]; [congruence|]);
      (apply elem_of_app in Ha as [Ha|Ha]; [done|]);
      by apply (proj1 (Forall_forall _ _) Htail) in Ha. }
  destruct (Hstep w1 Habs') as [Hsres Himp].
  split; [by apply Hres|].
  rewrite Hevs. unfold imports in *. cbn. rewrite omap_app, Himp. cbn.
  clear -Htail. induction Htail as [|e tail He _ IH]; [done|].
  cbn. destruct e; try done.
Qed.

End restore_claims.

Lemma restore_result_ignores_schedule_step_witness :
  let run :=
    restore.RestoreWorkspace scenario.restore_service "T" "snap"
      scenario_restore.listing_down in
  let load :=
    storage.LoadBackup scenario.store "snap" scenario_restore.listing_down in
  let step :=
    restore.restoreReportsPBIX scenario.restore_service "T" "snap"
      (world_of load) in
  let sched :=
    restore.restoreRefreshSchedules scenario.restore_service "T"
      scenario_remap.captured (world_of step) in
  result_of load = Ok scenario_restore.snapshot ∧
  result_of step = restore.Returned None ∧
  (result_of sched).1 = Some "API error 500" ∧
  result_of run = restore.Returned None.
Proof.
  cbv zeta.
  assert (Hload : result_of (storage.LoadBackup scenario.store "snap"
                               scenario_restore.listing_down)
                  = Ok scenario_restore.snapshot)
    by (vm_compute; reflexivity).
  assert (Hstep : result_of
                    (restore.restoreReportsPBIX scenario.restore_service "T"
                       "snap"
                       (world_of (storage.LoadBackup scenario.store "snap"
                                    scenario_restore.listing_down)))
                  = restore.Returned None)
    by (vm_compute; reflexivity).
  split; [exact Hload|]. split; [exact Hstep|].
  split; [vm_compute; reflexivity|].
  exact (proj1 (proj2 (restore_result_ignores_schedule_step (env := sim.env)
                         scenario.restore_service "T" "snap"
                         scenario_restore.listing_down)
                  scenario_restore.snapshot Hload Hstep)).
Defined.

Lemma no_artifact_no_import_witness :
  (result_of
     (restore.RestoreWorkspace scenario.restore_service "T" "snap"
        scenario_restore.no_pbix_dir) = restore.Returned None ∧
   imports
     (events_of
        (restore.RestoreWorkspace scenario.restore_service "T" "snap"
           scenario_restore.no_pbix_dir)) = []) ∧
  (result_of
     (restore.RestoreWorkspace scenario.restore_service "T" "snap"
        scenario_restore.empty_pbix_dir) = restore.Returned None ∧
   imports
     (events_of
        (restore.RestoreWorkspace scenario.restore_service "T" "snap"
           scenario_restore.empty_pbix_dir)) = []).
Proof.
  split.
  - apply (proj2 (no_artifact_no_import (env := sim.env)
                    scenario.restore_service "T" "snap"
                    scenario_restore.no_pbix_dir)
             (BackupJSON scenario_restore.snapshot) scenario_restore.snapshot).
    + vm_compute. by left.
    + reflexivity.
    + left. vm_compute. right. by left.
  - apply (proj2 (no_artifact_no_import (env := sim.env)
                    scenario.restore_service "T" "snap"
                    scenario_restore.empty_pbix_dir)
             (BackupJSON scenario_restore.snapshot) scenario_restore.snapshot).
    + vm_compute. by left.
    + reflexivity.
    + right. vm_compute. right. right. by left.
Defined.

(** ** The backup orchestrator *)

Section backup_run.
Context {W : Type} {env : Env W}.

Lemma refreshSchedules_loop_spec ws : ∀ datasets acc (w : W),
  let run := backup.refreshSchedules_loop ws datasets acc w in
  Forall is_schedule_fetch (events_of run) ∧
  length (events_of run) = length datasets ∧
  result_of run = acc ++ omap schedule_kept (zip datasets (events_of run)).
Proof.
  induction datasets as [|ds datasets IH]; intros acc w; simpl.
  - unfold result_of, events_of, ret. cbn. by rewrite app_nil_r.
  - unfold bind, call.
    destruct (api_GetRefreshSchedule ws (ds_ID ds) w) as [r w1].
    destruct r as [sch|e];
      match goal with |- context [backup.refreshSchedules_loop ws datasets ?a w1] =>
        destruct (IH a w1) as (Hall & Hlen & Hres);
        destruct (backup.refreshSchedules_loop ws datasets a w1)
          as [[res w2] evs] end;
      unfold result_of, events_of in *; cbn in *.
    + split; [by constructor|]. split; [by f_equal|].
      rewrite Hres. by rewrite <- app_assoc.
    + split; [by constructor|]. split; [by f_equal|]. done.
Qed.

Lemma export_loop_spec ws pbixDir : ∀ reports st (w : W),
  let run := backup.export_loop ws pbixDir reports st w in
  Forall is_export (events_of run) ∧
  (λ x : string * string * bool, (x.1.1, x.1.2)) <$> exports (events_of run)
    = (λ r, (r.(r_ID), backup.pbixFile_of pbixDir r)) <$> reports ∧
  (backup.st_succeeded (result_of run)
   = backup.st_succeeded st + length (exported (exports (events_of run))))%nat ∧
  (backup.st_succeeded (result_of run) + backup.st_failed (result_of run)
   = backup.st_succeeded st + backup.st_failed st + length reports)%nat.
Proof.
  induction reports as [|r reports IH]; intros st w; simpl.
  - unfold result_of, events_of, ret. cbn. split; [constructor|]. split; [done|]. lia.
  - unfold bind, call.
    destruct (api_ExportReport ws (r_ID r) (backup.pbixFile_of pbixDir r) w)
      as [ok w1].
    destruct (succeeded ok) eqn:Hok;
      match goal with |- context [backup.export_loop ws pbixDir reports ?a w1] =>
        destruct (IH a w1) as (Hall & Hexp & Hs & Hsum);
        destruct (backup.export_loop ws pbixDir reports a w1)
          as [[res w2] evs] end;
      unfold result_of, events_of in *; simpl in *.
    + split; [by constructor|]. split; [by f_equal|]. lia.
    + split; [by constructor|]. split; [by f_equal|]. lia.
Qed.

Lemma result_bind {A B} (m : M W A) (k : A → M W B) (w : W) :
  result_of (bind m k w) = result_of (k (result_of (m w)) (world_of (m w))).
Proof. by rewrite run_bind. Qed.

Lemma events_bind {A B} (m : M W A) (k : A → M W B) (w : W) :
  events_of (bind m k w)
  = events_of (m w) ++ events_of (k (result_of (m w)) (world_of (m w))).
Proof. by rewrite run_bind. Qed.

Lemma call_run {A} (op : W → A * W) (ev : A → Event) (w : W) :
  call op ev w = ((op w).1, (op w).2, [ ev (op w).1 ]).
Proof. unfold call. by destruct (op w). Qed.

Lemma Forall_events_bind {A B} (P : Event → Prop) (m : M W A)
    (k : A → M W B) (w : W) :
  Forall P (events_of (m w)) →
  (∀ a w', Forall P (events_of (k a w'))) →
  Forall P (events_of (bind m k w)).
Proof. intros Hm Hk. rewrite events_bind. apply Forall_app. by split. Qed.

Lemma saveComponent_events dir filename c (w : W) :
  Forall is_save_call (events_of (storage.saveComponent dir filename c w)).
Proof.
  unfold storage.saveComponent.
  destruct (json_MarshalComponent c); [|constructor].
  unfold call. destruct (os_WriteFile _ _ w). by repeat constructor.
Qed.

Lemma SaveBackup_spec (st : storage.StorageService) (b : CompleteBackup)
    (w : W) :
  let run := storage.SaveBackup st b w in
  let dir :=
    filepath.Join [st.(storage.backupPath); b.(WorkspaceID);
                   time_Format b.(Timestamp)] in
  Forall is_save_call (events_of run) ∧
  ((∃ e, result_of run = Err e ∧
         ∀ path data, EvWriteFile path data (Ok ()) ∉ events_of run) ∨
   (∃ data, result_of run = Ok dir ∧ json_MarshalBackup b = Ok data ∧
            EvWriteFile (filepath.Join [dir; "complete_backup.json"]) data
              (Ok ()) ∈ events_of run)).
Proof.
  intros run dir. unfold run, storage.SaveBackup. fold dir.
  rewrite result_bind, events_bind, !call_run.
  destruct (os_MkdirAll dir w) as [[[]|e] w1]; run_simpl.
  - destruct (json_MarshalBackup b) as [data|e] eqn:Hm; run_simpl.
    + rewrite result_bind, events_bind, !call_run.
      destruct (os_WriteFile (filepath.Join [dir; "complete_backup.json"])
                  data w1) as [[[]|e] w2]; run_simpl.
      * split.
        -- constructor; [done|]. constructor; [done|].
           repeat (apply Forall_events_bind;
                   [apply saveComponent_events|intros ? ?]).
           constructor.
        -- right. exists data. split; [|split; [done|]].
           ++ repeat rewrite result_bind. reflexivity.
           ++ right. by left.
      * split; [by repeat constructor|]. left. exists e. split; [done|].
        intros path d Hin.
        repeat (apply elem_of_cons in Hin as [Hin|Hin]; [congruence|]).
        by apply elem_of_nil in Hin.
    + split; [by repeat constructor|]. left. exists e. split; [done|].
      intros path d Hin.
      repeat (apply elem_of_cons in Hin as [Hin|Hin]; [congruence|]).
      by apply elem_of_nil in Hin.
  - split; [by repeat constructor|]. left. exists e. split; [done|].
    intros path d Hin.
    repeat (apply elem_of_cons in Hin as [Hin|Hin]; [congruence|]).
    by apply elem_of_nil in Hin.
Qed.

End backup_run.

Section backup_steps.
Context {W : Type} {env : Env W}.

Lemma backupReports_run s ws (w : W) :
  backup.backupReports s ws w
  = (match (api_GetReports ws w).1 with
     | Ok response => Ok (backup.collect backup.report_of response)
     | Err e => Err e
     end, (api_GetReports ws w).2, [ EvGetReports ws (api_GetReports ws w).1 ]).
Proof.
  unfold backup.backupReports. rewrite run_bind, call_run. run_simpl.
  by destruct (api_GetReports ws w) as [[r|e] w1].
Qed.

Lemma backupDatasets_run s ws (w : W) :
  backup.backupDatasets s ws w
  = (match (api_GetDatasets ws w).1 with
     | Ok response => Ok (backup.collect backup.dataset_of response)
     | Err e => Err e
     end, (api_GetDatasets ws w).2,
     [ EvGetDatasets ws (api_GetDatasets ws w).1 ]).
Proof.
  unfold backup.backupDatasets. rewrite run_bind, call_run. run_simpl.
  by destruct (api_GetDatasets ws w) as [[r|e] w1].
Qed.

Lemma backupDataflows_run s ws (w : W) :
  backup.backupDataflows s ws w
  = (match (api_GetDataflows ws w).1 with
     | Ok response => Ok (backup.collect backup.dataflow_of response)
     | Err e => Err e
     end, (api_GetDataflows ws w).2,
     [ EvGetDataflows ws (api_GetDataflows ws w).1 ]).
Proof.
  unfold backup.backupDataflows. rewrite run_bind, call_run. run_simpl.
  by destruct (api_GetDataflows ws w) as [[r|e] w1].
Qed.

Lemma backupDashboards_run s ws (w : W) :
  backup.backupDashboards s ws w
  = (match (api_GetDashboards ws w).1 with
     | Ok response => Ok (backup.collect backup.dashboard_of response)
     | Err e => Err e
     end, (api_GetDashboards ws w).2,
     [ EvGetDashboards ws (api_GetDashboards ws w).1 ]).
Proof.
  unfold backup.backupDashboards. rewrite run_bind, call_run. run_simpl.
  by destruct (api_GetDashboards ws w) as [[r|e] w1].
Qed.

Lemma backupApps_run s ws (w : W) :
  backup.backupApps s ws w
  = (Ok (collected (backup.app_of ws) (api_GetApps w).1),
     (api_GetApps w).2, [ EvGetApps (api_GetApps w).1 ]).
Proof.
  unfold backup.backupApps. rewrite run_bind, call_run. run_simpl.
  by destruct (api_GetApps w) as [[r|e] w1].
Qed.

Lemma backupRefreshSchedules_run s ws datasets (w : W) :
  let loop := backup.refreshSchedules_loop ws datasets [] w in
  backup.backupRefreshSchedules s ws datasets w
  = (Ok (omap schedule_kept (zip datasets (events_of loop))),
     world_of loop, events_of loop).
Proof.
  intros loop. unfold backup.backupRefreshSchedules. rewrite run_bind.
  fold loop. run_simpl. rewrite app_nil_r.
  destruct (refreshSchedules_loop_spec ws datasets [] w) as (_ & _ & Hres).
  fold loop in Hres. by rewrite Hres.
Qed.

Lemma backupReportsPBIX_spec s ws reports dir (w : W) :
  let run := backup.backupReportsPBIX s ws reports dir w in
  let pbixDir := filepath.Join [dir; "pbix"] in
  Forall is_pbix_call (events_of run) ∧
  (exports (events_of run) = [] ∨
   (λ x : string * string * bool, (x.1.1, x.1.2)) <$> exports (events_of run)
   = (λ r, (r.(r_ID), backup.pbixFile_of pbixDir r)) <$> reports) ∧
  (∀ st, result_of run = Ok st →
         backup.st_succeeded st
         = length (exported (exports (events_of run))) ∧
         (backup.st_succeeded st + backup.st_failed st = length reports)%nat).
Proof.
  intros run pbixDir. unfold run, backup.backupReportsPBIX. fold pbixDir.
  case_decide as Hlen.
  { run_simpl. split; [constructor|]. split; [by left|].
    intros st [= <-]. cbn. by rewrite Hlen. }
  rewrite run_bind, call_run. run_simpl.
  destruct (os_MkdirAll pbixDir w) as [[[]|e] w1]; run_simpl.
  - rewrite run_bind. run_simpl. rewrite app_nil_r.
    destruct (export_loop_spec ws pbixDir reports
                {| backup.st_succeeded := 0; backup.st_failed := 0 |} w1)
      as (Hall & Hexp & Hs & Hsum).
    split; [|split].
    + constructor; [done|]. eapply Forall_impl; [exact Hall|]. by intros [].
    + right. exact Hexp.
    + intros st [= <-]. cbn in Hs, Hsum. by split.
  - split; [by repeat constructor|]. split; [by left|]. by intros st [=].
Qed.

End backup_steps.

Section backup_whole.
Context {W : Type} {env : Env W}.

(** The three ways a backup run can go: the run directory cannot be created;
    the workspace settings cannot be fetched; or every step runs and the
    outcome is that of [SaveBackup]. *)
Lemma BackupWorkspace_spec (s : backup.Service) ws (w : W) :
  let run := backup.BackupWorkspace s ws w in
  let t := (time_Now w).1 in
  let dir :=
    filepath.Join [storage.backupPath s.(backup.storageService); ws;
                   time_Format t] in
  (∃ e, result_of run = Err e ∧ events_of run = [ EvMkdirAll dir (Err e) ]) ∨
  (∃ e, result_of run = Err e ∧
        events_of run
        = [ EvMkdirAll dir (Ok ()); EvGetWorkspaceSettings ws (Err e) ]) ∨
  (∃ j rr rd rf rb ra sevs pevs saveevs,
     events_of run
     = [ EvMkdirAll dir (Ok ()); EvGetWorkspaceSettings ws (Ok j);
         EvGetReports ws rr; EvGetDatasets ws rd; EvGetDataflows ws rf;
         EvGetDashboards ws rb; EvGetApps ra ] ++ sevs ++ pevs ++ saveevs ∧
     Forall is_schedule_fetch sevs ∧
     Forall is_pbix_call pevs ∧
     Forall is_save_call saveevs ∧
     (exports pevs = [] ∨
      (λ x : string * string * bool, (x.1.1, x.1.2)) <$> exports pevs
      = (λ r, (r.(r_ID),
               backup.pbixFile_of (filepath.Join [dir; "pbix"]) r))
          <$> collected backup.report_of rr) ∧
     let b := snapshot_of t ws j rr rd rf rb ra sevs in
     ((∃ e, result_of run = Err e ∧
            ∀ path data, EvWriteFile path data (Ok ()) ∉ saveevs) ∨
      (result_of run = Ok b ∧
       ∃ data,
         EvWriteFile (filepath.Join [dir; "complete_backup.json"]) data
           (Ok ()) ∈ saveevs))).
Proof.
  intros run t dir. unfold run, backup.BackupWorkspace.
  rewrite run_bind. unfold storage.GetBackupPath.
  destruct (time_Now w) as [t0 w0] eqn:Hnow. run_simpl.
  subst t. cbn [fst] in dir. fold dir.
  rewrite run_bind, call_run.
  destruct (os_MkdirAll dir w0) as [[[]|e] w1]; run_simpl;
    [|left; by exists e].
  right. rewrite run_bind, call_run.
  destruct (api_GetWorkspaceSettings ws w1) as [[j|e] w2]; run_simpl;
    [|left; by exists e].
  right.
  rewrite run_bind, backupReports_run. run_simpl.
  destruct (api_GetReports ws w2) as [rr w3]. run_simpl.
  rewrite run_bind, backupDatasets_run. run_simpl.
  destruct (api_GetDatasets ws w3) as [rd w4]. run_simpl.
  rewrite run_bind, backupDataflows_run. run_simpl.
  destruct (api_GetDataflows ws w4) as [rf w5]. run_simpl.
  rewrite run_bind, backupDashboards_run. run_simpl.
  destruct (api_GetDashboards ws w5) as [rb w6]. run_simpl.
  rewrite run_bind, backupApps_run. run_simpl.
  destruct (api_GetApps w6) as [ra w7]. run_simpl.
  rewrite run_bind, backupRefreshSchedules_run. run_simpl.
  set (datasets := backup.slice_of
                     match rd with
                     | Ok response =>
                         Ok (backup.collect backup.dataset_of response)
                     | Err e => Err e
                     end).
  assert (Hds : datasets = collected backup.dataset_of rd) by (by destruct rd).
  set (reports := backup.slice_of
                    match rr with
                    | Ok response =>
                        Ok (backup.collect backup.report_of response)
                    | Err e => Err e
                    end).
  assert (Hrs : reports = collected backup.report_of rr) by (by destruct rr).
  destruct (refreshSchedules_loop_spec ws datasets [] w7) as (Hsall & _ & _).
  set (loop := backup.refreshSchedules_loop ws datasets [] w7) in *.
  rewrite run_bind.
  destruct (backupReportsPBIX_spec s ws reports dir (world_of loop))
    as (Hpall & Hexp & _).
  set (pbix := backup.backupReportsPBIX s ws reports dir (world_of loop)) in *.
  rewrite run_bind.
  match goal with |- context [storage.SaveBackup ?st ?b ?w'] =>
    destruct (SaveBackup_spec st b w') as (Hvall & Hsave);
    set (save := storage.SaveBackup st b w') in *;
    assert (Hb : b = snapshot_of t0 ws j rr rd rf rb ra (events_of loop))
  end.
  { unfold snapshot_of. rewrite <- Hds, <- Hrs. by destruct rf, rb. }
  exists j, rr, rd, rf, rb, ra, (events_of loop), (events_of pbix),
         (events_of save).
  cbn [storage.backupPath WorkspaceID Timestamp] in Hsave. fold dir in Hsave.
  split.
  { run_simpl.
    destruct (result_of save); run_simpl; by rewrite app_nil_r. }
  split; [done|]. split; [done|]. split; [done|].
  split; [by rewrite <- Hrs|].
  cbn zeta. rewrite <- Hb.
  destruct Hsave as [(e & He & Hnow')|(data & Hok & _ & Hin)].
  - left. exists e. split; [|done]. run_simpl. by rewrite He.
  - right. split; [|by exists data]. run_simpl. by rewrite Hok.
Qed.

(** The run of [BackupWorkspace] written out on the answers of the
    environment: the run directory is created, the workspace settings are
    fetched, then the five collections, the refresh schedules and the
    artifacts, each at the world the previous call left, and the snapshot
    assembled from the answers is handed to [SaveBackup]. *)
Lemma BackupWorkspace_run (s : backup.Service) ws (w : W) :
  let t := (time_Now w).1 in
  let dir :=
    filepath.Join [storage.backupPath s.(backup.storageService); ws;
                   time_Format t] in
  let mk := os_MkdirAll dir (time_Now w).2 in
  let settings := api_GetWorkspaceSettings ws mk.2 in
  let rr := api_GetReports ws settings.2 in
  let rd := api_GetDatasets ws rr.2 in
  let rf := api_GetDataflows ws rd.2 in
  let rb := api_GetDashboards ws rf.2 in
  let ra := api_GetApps rb.2 in
  let sched :=
    backup.backupRefreshSchedules s ws (collected backup.dataset_of rd.1)
      ra.2 in
  let pbix :=
    backup.backupReportsPBIX s ws (collected backup.report_of rr.1) dir
      (world_of sched) in
  backup.BackupWorkspace s ws w
  = match mk.1 with
    | Err e => (Err e, mk.2, [ EvMkdirAll dir (Err e) ])
    | Ok _ =>
        match settings.1 with
        | Err e =>
            (Err e, settings.2,
             [ EvMkdirAll dir (Ok ()); EvGetWorkspaceSettings ws (Err e) ])
        | Ok j =>
            let b :=
              snapshot_of t ws j rr.1 rd.1 rf.1 rb.1 ra.1 (events_of sched) in
            let save :=
              storage.SaveBackup s.(backup.storageService) b (world_of pbix) in
            (match result_of save with Ok _ => Ok b | Err e => Err e end,
             world_of save,
             [ EvMkdirAll dir (Ok ()); EvGetWorkspaceSettings ws (Ok j);
               EvGetReports ws rr.1; EvGetDatasets ws rd.1;
               EvGetDataflows ws rf.1; EvGetDashboards ws rb.1;
               EvGetApps ra.1 ]
               ++ events_of sched ++ events_of pbix ++ events_of save)
        end
    end.
Proof.
  cbv zeta. unfold backup.BackupWorkspace.
  rewrite run_bind. unfold storage.GetBackupPath.
  destruct (time_Now w) as [t0 w0]. run_simpl.
  rewrite run_bind, call_run.
  destruct (os_MkdirAll _ w0) as [[[]|e] w1]; run_simpl; [|done].
  rewrite run_bind, call_run.
  destruct (api_GetWorkspaceSettings ws w1) as [[j|e] w2]; run_simpl; [|done].
  rewrite run_bind, backupReports_run. run_simpl.
  destruct (api_GetReports ws w2) as [rr w3]. run_simpl.
  rewrite run_bind, backupDatasets_run. run_simpl.
  destruct (api_GetDatasets ws w3) as [rd w4]. run_simpl.
  rewrite run_bind, backupDataflows_run. run_simpl.
  destruct (api_GetDataflows ws w4) as [rf w5]. run_simpl.
  rewrite run_bind, backupDashboards_run. run_simpl.
  destruct (api_GetDashboards ws w5) as [rb w6]. run_simpl.
  rewrite run_bind, backupApps_run. run_simpl.
  destruct (api_GetApps w6) as [ra w7]. run_simpl.
  assert (Hds : backup.slice_of
                  match rd with
                  | Ok response =>
                      Ok (backup.collect backup.dataset_of response)
                  | Err e => Err e
                  end = collected backup.dataset_of rd) by (by destruct rd).
  assert (Hrs : backup.slice_of
                  match rr with
                  | Ok response =>
                      Ok (backup.collect backup.report_of response)
                  | Err e => Err e
                  end = collected backup.report_of rr) by (by destruct rr).
  rewrite Hds, Hrs. rewrite run_bind.
  set (sched := backup.backupRefreshSchedules s ws
                  (collected backup.dataset_of rd) w7).
  assert (Hsch : backup.slice_of (result_of sched)
                 = omap schedule_kept
                     (zip (collected backup.dataset_of rd) (events_of sched))).
  { unfold sched. by rewrite backupRefreshSchedules_run. }
  rewrite run_bind.
  set (pbix := backup.backupReportsPBIX s ws (collected backup.report_of rr)
                 _ (world_of sched)).
  rewrite run_bind. rewrite Hsch.
  match goal with |- context [storage.SaveBackup ?st ?b ?w'] =>
    assert (Hb : b = snapshot_of t0 ws j rr rd rf rb ra (events_of sched))
      by (unfold snapshot_of; by destruct rf, rb)
  end.
  rewrite Hb.
  set (save := storage.SaveBackup _ _ (world_of pbix)).
  run_simpl.
  destruct (result_of save); run_simpl; by rewrite app_nil_r.
Qed.

End backup_whole.

Section backup_claims.
Context {W : Type} {env : Env W}.

Lemma no_schedule_kept datasets : ∀ sevs,
  Forall is_schedule_fetch sevs →
  (∀ ws id r, EvGetRefreshSchedule ws id r ∈ sevs → is_ok r = false) →
  omap schedule_kept (zip datasets sevs) = [].
Proof.
  induction datasets as [|ds datasets IH]; intros [|e sevs] Hall Hfail;
    try done.
  apply Forall_cons in Hall as [He Hall]. cbn.
  destruct e as [| | | | | | | | | | | |ws id r| | |]; try done.
  assert (Hr : is_ok r = false) by (apply (Hfail ws id); by left).
  destruct r as [sch|e]; [done|]. unfold schedule_kept at 1. cbn.
  apply IH; [done|]. intros ws' id' r' Hin. apply (Hfail ws' id'). by right.
Qed.

(** C3.  A backup run is read on the answers of the environment, each taken
    at the world the previous call left.  When the run directory was created
    and the workspace-settings fetch fails, the run returns that error after
    these two calls: nothing is written, no artifact is exported, no
    snapshot is produced.  When the workspace-settings fetch succeeds, the
    five collection fetches, the schedule fetches and the artifact step all
    run, whatever each of them answers, and the snapshot assembled from
    their answers is handed to [SaveBackup]: the run returns that snapshot
    when [SaveBackup] succeeds and the error of [SaveBackup] otherwise, so
    no failure of a collection fetch, of a schedule fetch or of the artifact
    step makes the run fail.  In the snapshot a collection whose fetch
    failed is empty and a collection whose fetch succeeded holds what the
    response lists; the refresh schedules are those of the datasets whose
    [GetRefreshSchedule] call succeeded, and so are empty when the dataset
    listing failed or every such call failed. *)
Theorem backup_tolerates_fetch_failures (s : backup.Service) (ws : string)
    (w : W) :
  let run := backup.BackupWorkspace s ws w in
  let t := (time_Now w).1 in
  let dir :=
    filepath.Join [storage.backupPath s.(backup.storageService); ws;
                   time_Format t] in
  let mk := os_MkdirAll dir (time_Now w).2 in
  let settings := api_GetWorkspaceSettings ws mk.2 in
  let rr := api_GetReports ws settings.2 in
  let rd := api_GetDatasets ws rr.2 in
  let rf := api_GetDataflows ws rd.2 in
  let rb := api_GetDashboards ws rf.2 in
  let ra := api_GetApps rb.2 in
  let sched :=
    backup.backupRefreshSchedules s ws (collected backup.dataset_of rd.1)
      ra.2 in
  let pbix :=
    backup.backupReportsPBIX s ws (collected backup.report_of rr.1) dir
      (world_of sched) in
  (∀ e, mk.1 = Ok () → settings.1 = Err e →
     result_of run = Err e ∧
     events_of run
     = [ EvMkdirAll dir (Ok ()); EvGetWorkspaceSettings ws (Err e) ] ∧
     nothing_written (events_of run) ∧ exports (events_of run) = []) ∧
  (∀ j, mk.1 = Ok () → settings.1 = Ok j →
     let b :=
       snapshot_of t ws j rr.1 rd.1 rf.1 rb.1 ra.1 (events_of sched) in
     let save :=
       storage.SaveBackup s.(backup.storageService) b (world_of pbix) in
     events_of run
     = [ EvMkdirAll dir (Ok ()); EvGetWorkspaceSettings ws (Ok j);
         EvGetReports ws rr.1; EvGetDatasets ws rd.1;
         EvGetDataflows ws rf.1; EvGetDashboards ws rb.1; EvGetApps ra.1 ]
         ++ events_of sched ++ events_of pbix ++ events_of save ∧
     (∀ e, result_of save = Err e → result_of run = Err e) ∧
     (∀ saved, result_of save = Ok saved →
        result_of run = Ok b ∧
        (∀ e, rr.1 = Err e → b.(Reports) = []) ∧
        (∀ e, rd.1 = Err e →
              b.(Datasets) = [] ∧ b.(RefreshSchedules) = []) ∧
        (∀ e, rf.1 = Err e → b.(Dataflows) = []) ∧
        (∀ e, rb.1 = Err e → b.(Dashboards) = []) ∧
        (schedule_fetches_failed (events_of sched) →
         b.(RefreshSchedules) = []) ∧
        b.(Reports) = collected backup.report_of rr.1 ∧
        b.(Datasets) = collected backup.dataset_of rd.1 ∧
        b.(Dataflows) = collected backup.dataflow_of rf.1 ∧
        b.(Dashboards) = collected backup.dashboard_of rb.1 ∧
        b.(RefreshSchedules)
        = omap schedule_kept (zip b.(Datasets) (events_of sched)))).
Proof.
  intros run t dir mk settings rr rd rf rb ra sched pbix.
  pose proof (BackupWorkspace_run s ws w) as Hrun. cbv zeta in Hrun.
  fold run t in Hrun. fold dir in Hrun. fold mk in Hrun.
  fold settings in Hrun. fold rr in Hrun. fold rd in Hrun. fold rf in Hrun.
  fold rb in Hrun. fold ra in Hrun. fold sched in Hrun. fold pbix in Hrun.
  split.
  - intros e Hmk Hset. rewrite Hmk, Hset in Hrun. rewrite Hrun. run_simpl.
    split; [done|]. split; [done|]. split; [|done].
    intros path data r Hin.
    repeat (apply elem_of_cons in Hin as [?|Hin]; [done|]).
    by apply elem_of_nil in Hin.
  - intros j Hmk Hset b save. rewrite Hmk, Hset in Hrun.
    fold b in Hrun. fold save in Hrun. rewrite Hrun. run_simpl.
    split; [done|]. split; [by intros e ->|]. intros saved ->.
    split; [done|]. unfold b, snapshot_of. cbn.
    split; [by intros e ->|]. split; [by intros e ->|].
    split; [by intros e ->|]. split; [by intros e ->|].
    split; [|done].
    intros Hfail. apply no_schedule_kept; [|exact Hfail].
    unfold sched. rewrite backupRefreshSchedules_run. run_simpl.
    apply refreshSchedules_loop_spec.
Qed.

End backup_claims.

Lemma backup_tolerates_fetch_failures_witness :
  (∃ b,
     result_of
       (backup.BackupWorkspace scenario.backup_service "W"
          (scenario_backup.failing "reports")) = Ok b ∧
     b.(Reports) = []) ∧
  (∃ b,
     result_of
       (backup.BackupWorkspace scenario.backup_service "W"
          (scenario_backup.failing "datasets")) = Ok b ∧
     b.(Datasets) = [] ∧ b.(RefreshSchedules) = []) ∧
  result_of
    (backup.BackupWorkspace scenario.backup_service "W"
       (scenario_backup.failing "settings")) = Err "API error 500".
Proof.
  split; [|split].
  - destruct (proj2 (backup_tolerates_fetch_failures (env := sim.env)
                       scenario.backup_service "W"
                       (scenario_backup.failing "reports"))
                [("id", JString "W"); ("name", JString "name of W")])
      as (_ & _ & Hok).
    + vm_compute. reflexivity.
    + vm_compute. reflexivity.
    + destruct (Hok "backups/W/7") as (Hres & Hrep & _).
      * vm_compute. reflexivity.
      * eexists. split; [exact Hres|]. apply (Hrep "API error 500").
        vm_compute. reflexivity.
  - destruct (proj2 (backup_tolerates_fetch_failures (env := sim.env)
                       scenario.backup_service "W"
                       (scenario_backup.failing "datasets"))
                [("id", JString "W"); ("name", JString "name of W")])
      as (_ & _ & Hok).
    + vm_compute. reflexivity.
    + vm_compute. reflexivity.
    + destruct (Hok "backups/W/7") as (Hres & _ & Hdat & _).
      * vm_compute. reflexivity.
      * eexists. split; [exact Hres|]. apply (Hdat "API error 500").
        vm_compute. reflexivity.
  - apply (proj1 (backup_tolerates_fetch_failures (env := sim.env)
                    scenario.backup_service "W"
                    (scenario_backup.failing "settings"))).
    + vm_compute. reflexivity.
    + vm_compute. reflexivity.
Defined.

Section backup_claims_2.
Context {W : Type} {env : Env W}.

Lemma BackupWorkspace_ok_iff_persisted (s : backup.Service) ws (w : W) :
  let run := backup.BackupWorkspace s ws w in
  (∃ b, result_of run = Ok b) ↔ persisted (events_of run).
Proof.
  intros run.
  destruct (BackupWorkspace_spec s ws w)
    as [(e & Hres & Hevs)|[(e & Hres & Hevs)
        |(j & rr & rd & rf & rb & ra & sevs & pevs & saveevs & Hevs
          & Hsall & Hpall & Hvall & _ & Hout)]];
    fold run in Hres || fold run in Hout; fold run in Hevs.
  - split; [intros [b Hb]; congruence|].
    intros (dir & data & Hin). rewrite Hevs in Hin.
    repeat (apply elem_of_cons in Hin as [?|Hin]; [done|]).
    by apply elem_of_nil in Hin.
  - split; [intros [b Hb]; congruence|].
    intros (dir & data & Hin). rewrite Hevs in Hin.
    repeat (apply elem_of_cons in Hin as [?|Hin]; [done|]).
    by apply elem_of_nil in Hin.
  - cbn zeta in Hout. cbn [app] in Hevs. split.
    + intros [b Hb].
      destruct Hout as [(e & He & _)|[_ (data & Hin)]]; [congruence|].
      eexists _, data. rewrite Hevs. do 7 right.
      apply elem_of_app. right. apply elem_of_app. right. exact Hin.
    + intros (dir & data & Hin). rewrite Hevs in Hin.
      repeat (apply elem_of_cons in Hin as [?|Hin]; [congruence|]).
      apply elem_of_app in Hin as [Hin|Hin];
        [by apply (proj1 (Forall_forall _ _) Hsall) in Hin|].
      apply elem_of_app in Hin as [Hin|Hin];
        [by apply (proj1 (Forall_forall _ _) Hpall) in Hin|].
      destruct Hout as [(e & _ & Hnone)|[Hok _]]; [by apply Hnone in Hin|].
      by eexists.
Qed.

(** C9.  [backupApps] never returns an error, and returns the empty slice
    when [GetApps] failed.  A backup run returns a snapshot exactly when its
    snapshot file was written, whatever [GetApps] answered; and in a run
    where [GetApps] failed and the snapshot file was written, the snapshot
    returned has no apps. *)
Theorem apps_failure_is_silent (s : backup.Service) (ws : string) (w : W) :
  let step := backup.backupApps s ws w in
  let run := backup.BackupWorkspace s ws w in
  (∃ apps, result_of step = Ok apps) ∧
  (∀ e, EvGetApps (Err e) ∈ events_of step → result_of step = Ok []) ∧
  ((∃ b, result_of run = Ok b) ↔ persisted (events_of run)) ∧
  (∀ e, EvGetApps (Err e) ∈ events_of run → persisted (events_of run) →
        ∃ b, result_of run = Ok b ∧ b.(Apps) = []).
Proof.
  intros step run. split; [|split; [|split]].
  - unfold step. rewrite backupApps_run. by eexists.
  - unfold step. rewrite backupApps_run. run_simpl. intros e Hin.
    apply elem_of_cons in Hin as [Heq|Hin]; [|by apply elem_of_nil in Hin].
    injection Heq as <-. done.
  - apply BackupWorkspace_ok_iff_persisted.
  - intros e Hin Hp.
    destruct (proj2 (BackupWorkspace_ok_iff_persisted s ws w) Hp) as [b Hb].
    fold run in Hb. exists b. split; [done|].
    destruct (BackupWorkspace_spec s ws w)
      as [(e' & Hres & Hevs)|[(e' & Hres & Hevs)
          |(j & rr & rd & rf & rb & ra & sevs & pevs & saveevs & Hevs
            & Hsall & Hpall & Hvall & _ & Hout)]];
      fold run in Hres || fold run in Hout; fold run in Hevs;
      [congruence..|].
    cbn zeta in Hout. cbn [app] in Hevs.
    destruct Hout as [(e' & He' & _)|[Hok _]]; [congruence|].
    rewrite Hok in Hb. injection Hb as <-. cbn.
    rewrite Hevs in Hin.
    repeat (apply elem_of_cons in Hin as [Heq|Hin];
            [try congruence; by injection Heq as <-|]).
    apply elem_of_app in Hin as [Hin|Hin];
      [by apply (proj1 (Forall_forall _ _) Hsall) in Hin|].
    apply elem_of_app in Hin as [Hin|Hin];
      [by apply (proj1 (Forall_forall _ _) Hpall) in Hin
      |by apply (proj1 (Forall_forall _ _) Hvall) in Hin].
Qed.

End backup_claims_2.

Lemma apps_failure_is_silent_witness :
  ∃ b,
    result_of
      (backup.BackupWorkspace scenario.backup_service "W"
         (scenario_backup.failing "apps")) = Ok b ∧
    b.(Apps) = [].
Proof.
  apply (proj2 (proj2 (proj2 (apps_failure_is_silent (env := sim.env)
                                scenario.backup_service "W"
                                (scenario_backup.failing "apps"))))
           "API error 500").
  - vm_compute. find_event.
  - pose (l := events_of
                 (backup.BackupWorkspace scenario.backup_service "W"
                    (scenario_backup.failing "apps"))).
    change (persisted l). vm_compute in l. subst l.
    exists "backups/W/7". eexists.
    change (filepath.Join ["backups/W/7"; "complete_backup.json"])
      with "backups/W/7/complete_backup.json".
    find_event.
Defined.

(** C4, the code at a failing input.  The run directory is created before
    the workspace settings are fetched, and [ListBackups] lists every
    directory: after a run that aborted on the settings fetch, or on a full
    disk, the store lists a location for that run, [GetLatestBackup] returns
    it, and [LoadBackup] cannot load it. *)
Lemma aborted_backup_is_listed :
  let store := scenario.store in
  let before := scenario_backup.failing "settings" in
  let run := backup.BackupWorkspace scenario.backup_service "W" before in
  let run' :=
    backup.BackupWorkspace scenario.backup_service "W"
      (scenario_backup.failing "write") in
  result_of (storage.ListBackups store "W" before) = Ok [] ∧
  result_of run = Err "API error 500" ∧
  result_of (storage.ListBackups store "W" (world_of run))
    = Ok [ "backups/W/7" ] ∧
  result_of (storage.GetLatestBackup store "W" (world_of run))
    = Ok "backups/W/7" ∧
  result_of (storage.LoadBackup store "backups/W/7" (world_of run))
    = Err "open: no such file or directory" ∧
  result_of run' = Err "write: no space left on device" ∧
  result_of (storage.ListBackups store "W" (world_of run'))
    = Ok [ "backups/W/7" ] ∧
  result_of (storage.GetLatestBackup store "W" (world_of run'))
    = Ok "backups/W/7".
Proof. cbv zeta. repeat split; vm_compute; reflexivity. Qed.

(** ** Artifact paths *)

Section artifact_paths.
Context {W : Type} {env : Env W}.

(** C8, as the code has it.  Every export of [backupReportsPBIX] is given
    the output path [filepath.Join(<run-dir>/pbix, name + ".pbix")] where
    [name] is the display name of the report, used as it is; and once the
    [pbix] directory has been created, every report is exported, in order,
    to that path. *)
Theorem artifact_path_from_display_name (s : backup.Service) (ws : string)
    (reports : list Report) (backupDir : string) (w : W) :
  let run := backup.backupReportsPBIX s ws reports backupDir w in
  let pbixDir := filepath.Join [backupDir; "pbix"] in
  (∀ id path ok, (id, path, ok) ∈ exports (events_of run) →
     ∃ r, r ∈ reports ∧ id = r.(r_ID) ∧
          path = filepath.Join [pbixDir; r.(r_Name) +:+ ".pbix"]) ∧
  (EvMkdirAll pbixDir (Ok ()) ∈ events_of run →
   (λ x : string * string * bool, (x.1.1, x.1.2)) <$> exports (events_of run)
   = (λ r, (r.(r_ID), filepath.Join [pbixDir; r.(r_Name) +:+ ".pbix"]))
       <$> reports).
Proof.
  intros run pbixDir.
  assert (Hcases :
    exports (events_of run) = [] ∧ EvMkdirAll pbixDir (Ok ()) ∉ events_of run ∨
    (λ x : string * string * bool, (x.1.1, x.1.2)) <$> exports (events_of run)
    = (λ r, (r.(r_ID), filepath.Join [pbixDir; r.(r_Name) +:+ ".pbix"]))
        <$> reports).
  { unfold run, backup.backupReportsPBIX. fold pbixDir. case_decide as Hlen.
    { left. run_simpl. split; [done|]. apply not_elem_of_nil. }
    rewrite run_bind, call_run. run_simpl.
    destruct (os_MkdirAll pbixDir w) as [[[]|e] w1]; run_simpl.
    - right. rewrite run_bind. run_simpl. rewrite app_nil_r.
      destruct (export_loop_spec ws pbixDir reports
                  {| backup.st_succeeded := 0; backup.st_failed := 0 |} w1)
        as (_ & Hexp & _).
      exact Hexp.
    - left. split; [done|]. intros Hin.
      apply elem_of_cons in Hin as [?|Hin]; [congruence|].
      by apply elem_of_nil in Hin. }
  split.
  - intros id path ok Hin. destruct Hcases as [[Hnil _]|Heq].
    + rewrite Hnil in Hin. by apply elem_of_nil in Hin.
    + assert (Hpair : (id, path) ∈
                (λ x : string * string * bool, (x.1.1, x.1.2))
                  <$> exports (events_of run)).
      { apply list_elem_of_fmap. by exists (id, path, ok). }
      rewrite Heq in Hpair.
      apply list_elem_of_fmap in Hpair as (r & [= -> ->] & Hr). by exists r.
  - intros Hin. by destruct Hcases as [[_ Hno]|Heq].
Qed.

End artifact_paths.

Lemma artifact_path_from_display_name_witness :
  (λ x : string * string * bool, (x.1.1, x.1.2))
    <$> exports
          (events_of
             (backup.backupReportsPBIX scenario.backup_service "W"
                [ {| r_ID := "r1"; r_Name := "A"; r_DatasetID := "";
                     r_EmbedURL := ""; r_WebURL := ""; r_Pages := [] |} ]
                "backups/W/7" scenario_backup.healthy))
  = [ ("r1", "backups/W/7/pbix/A.pbix") ].
Proof.
  apply (proj2 (artifact_path_from_display_name (env := sim.env)
                  scenario.backup_service "W"
                  [ {| r_ID := "r1"; r_Name := "A"; r_DatasetID := "";
                       r_EmbedURL := ""; r_WebURL := ""; r_Pages := [] |} ]
                  "backups/W/7" scenario_backup.healthy)).
  vm_compute. find_event.
Defined.

(** C8 as stated fails: the display name [../x] is used as it is, and the
    artifact of the report is written to [<run-dir>/x.pbix], which is not
    [<run-dir>/pbix/<name>.pbix] for any file-system-safe name. *)
Lemma artifact_name_not_sanitized :
  let run :=
    backup.BackupWorkspace scenario.backup_service "W"
      scenario_paths.escaping_name in
  exports (events_of run) = [ ("r1", "backups/W/7/x.pbix", true) ] ∧
  sim.file_lookup (world_of run) "backups/W/7/x.pbix"
    = Some (Bytes "pbix of r1") ∧
  ¬ under_sanitized_name "backups/W/7/pbix" "backups/W/7/x.pbix".
Proof.
  cbv zeta. split; [vm_compute; reflexivity|]. split; [vm_compute; reflexivity|].
  intros (name & _ & Heq). unfold String.app in Heq. simpl in Heq.
  discriminate Heq.
Qed.

(** ** Restoring the artifacts of a snapshot *)



(** * Further properties *)

(** ** Paths that end in a plain file name *)

Lemma file_system_safe_cons c s :
  file_system_safe (String c s) ↔ filepath.is_sep c = false ∧ file_system_safe s.
Proof.
  unfold file_system_safe. simpl. split.
  - intros H. split; [apply H; left|]. intros c' Hc'. apply H. by right.
  - intros [Hc Hs] c' [->|Hc']%elem_of_cons; auto.
Qed.

Lemma file_system_safe_Forall s :
  Forall (λ c, filepath.is_sep c = false) (list_ascii_of_string s) →
  file_system_safe s.
Proof. intros H. unfold file_system_safe. by apply Forall_forall. Qed.

Lemma file_system_safe_existsb s :
  file_system_safe s → existsb filepath.is_sep (list_ascii_of_string s) = false.
Proof.
  induction s as [|c s IH]; [done|].
  intros [Hc Hs]%file_system_safe_cons. simpl. rewrite Hc. by apply IH.
Qed.

Lemma file_system_safe_app a b :
  file_system_safe a → file_system_safe b → file_system_safe (a +:+ b).
Proof.
  induction a as [|c a IH]; [done|].
  intros [Hc Ha]%file_system_safe_cons Hb.
  change (String c a +:+ b) with (String c (a +:+ b)).
  apply file_system_safe_cons. auto.
Qed.

Lemma string_app_assoc (a b c : string) : (a +:+ b) +:+ c = a +:+ (b +:+ c).
Proof.
  induction a as [|x a IH]; [done|].
  change (String x ((a +:+ b) +:+ c) = String x (a +:+ (b +:+ c))). by rewrite IH.
Qed.

Lemma split_sep_nonempty s : filepath.split_sep s ≠ [].
Proof.
  destruct s as [|c s]; simpl; [done|].
  destruct (filepath.is_sep c); [done|]. by destruct (filepath.split_sep s).
Qed.

Lemma split_sep_app a b :
  filepath.split_sep (a +:+ "/" +:+ b)
  = filepath.split_sep a ++ filepath.split_sep b.
Proof.
  induction a as [|c a IH]; [done|].
  change (String c a +:+ "/" +:+ b) with (String c (a +:+ "/" +:+ b)).
  simpl. rewrite IH. destruct (filepath.is_sep c); [done|].
  pose proof (split_sep_nonempty a). by destruct (filepath.split_sep a).
Qed.

Lemma split_sep_safe f : file_system_safe f → filepath.split_sep f = [ f ].
Proof.
  induction f as [|c f IH]; [done|].
  intros [Hc Hf]%file_system_safe_cons. simpl. rewrite Hc. by rewrite IH.
Qed.

Lemma join_sep_snoc l f :
  filepath.join_sep (l ++ [ f ])
  = match l with [] => f | _ => filepath.join_sep l +:+ "/" +:+ f end.
Proof.
  induction l as [|x l IH]; [done|].
  destruct l as [|y l]; [done|].
  change (filepath.join_sep ((x :: y :: l) ++ [f]))
    with (x +:+ "/" +:+ filepath.join_sep ((y :: l) ++ [f])).
  rewrite IH.
  change (filepath.join_sep (x :: y :: l))
    with (x +:+ "/" +:+ filepath.join_sep (y :: l)).
  by rewrite !string_app_assoc.
Qed.

Lemma clean_step_plain rooted out f :
  plain_name f → filepath.clean_step rooted out f = f :: out.
Proof.
  intros (H1 & H2 & H3 & _). unfold filepath.clean_step.
  by rewrite !decide_False.
Qed.

Lemma Clean_plain f : plain_name f → filepath.Clean f = f.
Proof.
  intros Hf. pose proof Hf as (Hne & _ & _ & Hsafe).
  unfold filepath.Clean. rewrite split_sep_safe by done. simpl.
  rewrite clean_step_plain by done. simpl.
  destruct f as [|c f]; [done|].
  apply file_system_safe_cons in Hsafe as [-> _]. by rewrite decide_False.
Qed.

Lemma Clean_file f s :
  plain_name f → ends_with_file f s → ends_with_file f (filepath.Clean s).
Proof.
  intros Hf [->|[q ->]]; [left; by apply Clean_plain|].
  pose proof Hf as (Hne & _ & _ & Hsafe).
  unfold filepath.Clean. rewrite split_sep_app, (split_sep_safe f) by done.
  rewrite foldl_app. simpl. rewrite clean_step_plain by done.
  simpl rev. rewrite join_sep_snoc.
  set (rooted := match q +:+ "/" +:+ f with
                 | String c _ => filepath.is_sep c | _ => false end).
  set (l := rev (foldl (filepath.clean_step rooted) [] (filepath.split_sep q))).
  destruct rooted.
  - right. destruct l as [|x l].
    + by exists "".
    + exists ("/" +:+ filepath.join_sep (x :: l)). by rewrite !string_app_assoc.
  - destruct l as [|x l].
    + rewrite decide_False by done. by left.
    + rewrite decide_False.
      * right. by eexists.
      * destruct (filepath.join_sep (x :: l)); done.
Qed.

Lemma Join_file d f :
  plain_name f → ends_with_file f (filepath.Join [ d; f ]).
Proof.
  intros Hf. pose proof Hf as (Hne & _). unfold filepath.Join.
  destruct (decide (d = "")) as [->|Hd].
  - rewrite decide_False by done. apply Clean_file; [done|]. by left.
  - apply Clean_file; [done|]. right. by exists d.
Qed.

Lemma strip_trailing_sep_plain f :
  f ≠ "" → file_system_safe f → filepath.strip_trailing_sep f = f.
Proof.
  induction f as [|c f IH]; [done|].
  intros _ [Hc Hf]%file_system_safe_cons. simpl.
  destruct f as [|c' f]; [simpl; by rewrite Hc|].
  by rewrite IH.
Qed.

Lemma strip_trailing_sep_file a f :
  f ≠ "" → file_system_safe f →
  filepath.strip_trailing_sep (a +:+ f) = a +:+ f.
Proof.
  intros Hne Hf. induction a as [|c a IH]; [by apply strip_trailing_sep_plain|].
  change (String c a +:+ f) with (String c (a +:+ f)). simpl. rewrite IH.
  destruct (a +:+ f) eqn:E; [|done].
  destruct a; [|done]. simpl in E. by subst.
Qed.

Lemma existsb_sep_app a b :
  existsb filepath.is_sep (list_ascii_of_string (a +:+ "/" +:+ b)) = true.
Proof.
  induction a as [|c a IH]; [done|].
  change (String c a +:+ "/" +:+ b) with (String c (a +:+ "/" +:+ b)).
  simpl. rewrite IH. by destruct (filepath.is_sep c).
Qed.

Lemma last_elem_plain f :
  file_system_safe f → filepath.last_elem f = f.
Proof.
  destruct f as [|c f]; [done|].
  intros [Hc Hf]%file_system_safe_cons. simpl.
  by rewrite file_system_safe_existsb, Hc.
Qed.

Lemma last_elem_file q f :
  file_system_safe f → filepath.last_elem (q +:+ "/" +:+ f) = f.
Proof.
  intros Hf. induction q as [|c q IH].
  - change ("" +:+ "/" +:+ f) with (String "/" f). simpl.
    by rewrite file_system_safe_existsb.
  - change (String c q +:+ "/" +:+ f) with (String c (q +:+ "/" +:+ f)).
    simpl. by rewrite existsb_sep_app.
Qed.

Lemma Base_file f s :
  plain_name f → ends_with_file f s → filepath.Base s = f.
Proof.
  intros (Hne & _ & _ & Hsafe) Hs. unfold filepath.Base.
  assert (s ≠ "") as Hs'.
  { destruct Hs as [->|[q ->]]; [done|]. by destruct q. }
  rewrite decide_False by done.
  destruct Hs as [->|[q ->]].
  - rewrite strip_trailing_sep_plain, last_elem_plain by done.
    by rewrite decide_False.
  - rewrite <- string_app_assoc, strip_trailing_sep_file by done.
    rewrite string_app_assoc, last_elem_file by done.
    by rewrite decide_False.
Qed.

Lemma Base_Join_file d f :
  plain_name f → filepath.Base (filepath.Join [ d; f ]) = f.
Proof. intros Hf. apply Base_file; [done|]. by apply Join_file. Qed.

Lemma Base_Clean_Join_file d f :
  plain_name f → filepath.Base (filepath.Clean (filepath.Join [ d; f ])) = f.
Proof.
  intros Hf. apply Base_file; [done|]. apply Clean_file; [done|].
  by apply Join_file.
Qed.

Lemma plain_name_pbix name :
  file_system_safe name → plain_name (Sprintf_pbix name).
Proof.
  intros Hsafe. unfold Sprintf_pbix.
  assert (Hlen : (5 ≤ String.length (name +:+ ".pbix"))%nat).
  { rewrite length_app_string. simpl. lia. }
  repeat split.
  - intros E. rewrite E in Hlen. simpl in Hlen. lia.
  - intros E. rewrite E in Hlen. simpl in Hlen. lia.
  - intros E. rewrite E in Hlen. simpl in Hlen. lia.
  - apply file_system_safe_app; [done|].
    apply file_system_safe_Forall. by repeat constructor.
Qed.

(** ** The reconciler: size of the suffix *)

(** X1.  When the candidate name is taken, the suffix the reconciler picks
    is at least 1 and at most the number of names in the taken set: the
    probing loop tests at most that many suffixed forms. *)
Theorem reconciler_suffix_bounded (E : gset string) (d : string) :
  Z.of_nat (size E) ≤ int_max → d ∈ E →
  ∃ n, 1 ≤ n ≤ Z.of_nat (size E) ∧ finalName E d = Some (Sprintf_s_d d n).
Proof.
  intros Hsz Hd. unfold finalName. rewrite decide_True by done.
  destruct (probe_total E d Hd Hsz) as [n Hn].
  pose proof (probe_spec (size E) E d 1 ltac:(lia)) as Hp.
  rewrite Hn in Hp. unfold int_max in Hsz.
  destruct (Hp ltac:(lia)) as (Hr & _ & _).
  exists n. rewrite Hn. split; [lia|done].
Qed.

Lemma reconciler_suffix_bounded_witness :
  ∃ n, 1 ≤ n ≤ Z.of_nat (size ({[ "Sales"; "Sales_1" ]} : gset string)) ∧
       finalName {[ "Sales"; "Sales_1" ]} "Sales"
       = Some (Sprintf_s_d "Sales" n).
Proof.
  apply (reconciler_suffix_bounded {[ "Sales"; "Sales_1" ]} "Sales").
  - by vm_compute.
  - apply elem_of_union_l. by apply elem_of_singleton.
Defined.

(** ** Artifact names between export and import *)

Lemma datasetName_of_pbixFile (pbixDir : string) (r : Report) :
  file_system_safe r.(r_Name) →
  restore.datasetName_of (filepath.Base (backup.pbixFile_of pbixDir r))
  = Some r.(r_Name).
Proof.
  intros Hsafe. unfold backup.pbixFile_of.
  rewrite Base_Join_file by by apply plain_name_pbix.
  apply datasetName_of_pbix.
Qed.

(** X2.  Export and import agree on the name of an artifact: for a report
    whose display name has no path separator, stripping the directory and
    the last five bytes from the path the artifact is exported to gives the
    display name back, whatever the artifact directory is. *)
Theorem artifact_name_round_trip (pbixDir : string) (r : Report) :
  file_system_safe r.(r_Name) →
  restore.datasetName_of (filepath.Base (backup.pbixFile_of pbixDir r))
  = Some r.(r_Name).
Proof.
  intros Hsafe. unfold backup.pbixFile_of.
  rewrite Base_Join_file by by apply plain_name_pbix.
  apply datasetName_of_pbix.
Qed.

Lemma artifact_name_round_trip_witness :
  restore.datasetName_of
    (filepath.Base
       (backup.pbixFile_of "backups/W/7/pbix"
          {| r_ID := "r1"; r_Name := "Sales 2024"; r_DatasetID := "";
             r_EmbedURL := ""; r_WebURL := ""; r_Pages := [] |}))
  = Some "Sales 2024".
Proof.
  apply (artifact_name_round_trip "backups/W/7/pbix"
           {| r_ID := "r1"; r_Name := "Sales 2024"; r_DatasetID := "";
              r_EmbedURL := ""; r_WebURL := ""; r_Pages := [] |}).
  apply file_system_safe_Forall. by repeat constructor.
Defined.

(** X3.  Two reports whose display names have no path separator are
    exported to the same artifact path exactly when they carry the same
    display name: distinct names never overwrite each other, equal names
    always do. *)
Theorem artifact_paths_collide_iff_same_name (pbixDir : string)
    (r1 r2 : Report) :
  file_system_safe r1.(r_Name) → file_system_safe r2.(r_Name) →
  backup.pbixFile_of pbixDir r1 = backup.pbixFile_of pbixDir r2
  ↔ r1.(r_Name) = r2.(r_Name).
Proof.
  intros H1 H2. split.
  - intros Heq.
    pose proof (datasetName_of_pbixFile pbixDir r1 H1) as E1.
    pose proof (datasetName_of_pbixFile pbixDir r2 H2) as E2.
    rewrite Heq in E1. congruence.
  - intros Heq. unfold backup.pbixFile_of. by rewrite Heq.
Qed.

Lemma artifact_paths_collide_iff_same_name_witness :
  backup.pbixFile_of "backups/W/7/pbix"
    {| r_ID := "r1"; r_Name := "A"; r_DatasetID := "d1";
       r_EmbedURL := ""; r_WebURL := ""; r_Pages := [] |}
  = backup.pbixFile_of "backups/W/7/pbix"
      {| r_ID := "r2"; r_Name := "A"; r_DatasetID := "d2";
         r_EmbedURL := ""; r_WebURL := ""; r_Pages := [] |}.
Proof.
  apply (artifact_paths_collide_iff_same_name "backups/W/7/pbix"
           {| r_ID := "r1"; r_Name := "A"; r_DatasetID := "d1";
              r_EmbedURL := ""; r_WebURL := ""; r_Pages := [] |}
           {| r_ID := "r2"; r_Name := "A"; r_DatasetID := "d2";
              r_EmbedURL := ""; r_WebURL := ""; r_Pages := [] |}).
  - apply file_system_safe_Forall. by repeat constructor.
  - apply file_system_safe_Forall. by repeat constructor.
  - reflexivity.
Defined.

(** ** The dataset index of the schedule step *)

Lemma index_fold_keep (n id : string) : ∀ items acc,
  acc !! n = Some id →
  (∀ ds, JObject ds ∈ items → as_string (jlookup ds "name") = Some n →
         default "" (as_string (jlookup ds "id")) = "") →
  foldl restore.index_step acc items !! n = Some id.
Proof.
  induction items as [|item items IH]; intros acc Hacc Hlater; [done|].
  simpl. apply IH.
  - unfold restore.index_step. destruct item as [| | | | |ds]; try done.
    simpl. destruct (decide _) as [[Hname Hid]|]; [|done].
    destruct (decide (default "" (as_string (jlookup ds "name")) = n))
      as [Heq|Hne]; [|by rewrite lookup_insert_ne].
    exfalso. apply Hid. apply Hlater; [by left|].
    destruct (as_string (jlookup ds "name")) as [name|]; simpl in *;
      congruence.
  - intros ds Hin. apply Hlater. by right.
Qed.

(** X4.  When several datasets of the target workspace carry the same name,
    the index built by the schedule step maps the name to the last listed
    dataset that has an id: later entries overwrite earlier ones, and
    entries without an id are passed over. *)
Theorem name_index_last_wins (datasetsResp : jmap) (before after : list json)
    (ds : jmap) (name id : string) :
  as_array (jlookup datasetsResp "value")
    = Some (before ++ JObject ds :: after) →
  as_string (jlookup ds "name") = Some name →
  as_string (jlookup ds "id") = Some id →
  name ≠ "" → id ≠ "" →
  (∀ ds', JObject ds' ∈ after →
          as_string (jlookup ds' "name") = Some name →
          default "" (as_string (jlookup ds' "id")) = "") →
  restore.name_index datasetsResp !! name = Some id.
Proof.
  intros Hvalue Hname Hid Hn Hi Hlater. unfold restore.name_index.
  rewrite Hvalue, foldl_app. simpl.
  apply index_fold_keep; [|done].
  unfold restore.index_step. simpl. rewrite Hname, Hid. simpl.
  rewrite decide_True by done. apply lookup_insert_eq.
Qed.

Lemma name_index_last_wins_witness :
  restore.name_index
    [ ("value",
       JArray [ JObject [ ("id", JString "d1"); ("name", JString "A") ];
                JObject [ ("id", JString "d2"); ("name", JString "A") ];
                JObject [ ("name", JString "A") ] ]) ] !! "A"
  = Some "d2".
Proof.
  apply (name_index_last_wins _
           [ JObject [ ("id", JString "d1"); ("name", JString "A") ] ]
           [ JObject [ ("name", JString "A") ] ]
           [ ("id", JString "d2"); ("name", JString "A") ] "A" "d2").
  - reflexivity.
  - reflexivity.
  - reflexivity.
  - discriminate.
  - discriminate.
  - intros ds' Hin _. apply list_elem_of_singleton in Hin.
    injection Hin as ->. reflexivity.
Defined.

(** ** What a snapshot holds *)

Lemma collect_Forall {A} (P : A → Prop) (of_item : json → option A)
    (response : jmap) :
  (∀ item a, of_item item = Some a → P a) →
  Forall P (backup.collect of_item response).
Proof.
  intros Hof. unfold backup.collect.
  destruct (as_array (jlookup response "value")) as [value|]; [|constructor].
  apply Forall_forall. intros a (item & _ & Ha)%list_elem_of_omap. eauto.
Qed.

Lemma collected_Forall {A} (P : A → Prop) (of_item : json → option A)
    (r : res jmap) :
  (∀ item a, of_item item = Some a → P a) →
  Forall P (collected of_item r).
Proof.
  intros Hof. destruct r; simpl; [by apply collect_Forall|constructor].
Qed.

Lemma schedule_kept_Forall (datasets : list Dataset) (calls : list Event) :
  Forall (λ sch, ∃ d, d ∈ datasets ∧ sch.(DatasetID) = d.(ds_ID) ∧
                      sch.(DatasetName) = d.(ds_Name))
         (omap schedule_kept (zip datasets calls)).
Proof.
  apply Forall_forall. intros sch ([d e] & Hin & Hkept)%list_elem_of_omap.
  exists d. split; [by apply elem_of_zip_l in Hin|].
  unfold schedule_kept in Hkept. simpl in Hkept.
  destruct e; try done. destruct r; [|done]. by injection Hkept as <-.
Qed.

Section snapshot_content.
Context {W : Type} {env : Env W}.

(** X5.  What a snapshot returned by a backup run never holds, whatever the
    service answered: the pages of a report, the refresh type of a dataset,
    the description of a dataflow, and the type, state, read-only flag and
    settings of the workspace are left at their zero values.  The snapshot
    carries the workspace id the run was asked for and the time read at the
    start of the run, every app in it belongs to that workspace, and every
    schedule in it carries the id and name of a dataset of the snapshot. *)
Theorem snapshot_fields_left_empty (s : backup.Service) (ws : string)
    (w : W) (b : CompleteBackup) :
  result_of (backup.BackupWorkspace s ws w) = Ok b →
  b.(WorkspaceID) = ws ∧
  b.(Timestamp) = (time_Now w).1 ∧
  b.(WorkspaceSettings_)
    = {| ws_ID := ws; ws_Name := b.(WorkspaceName); ws_Type := "";
         ws_State := ""; ws_IsReadOnly := false; ws_Settings := [] |} ∧
  Forall (λ r, r.(r_Pages) = []) b.(Reports) ∧
  Forall (λ d, d.(ds_ConfigRefreshType) = None) b.(Datasets) ∧
  Forall (λ f, f.(df_Description) = None) b.(Dataflows) ∧
  Forall (λ a, a.(app_WorkspaceID) = ws) b.(Apps) ∧
  Forall (λ sch, ∃ d, d ∈ b.(Datasets) ∧ sch.(DatasetID) = d.(ds_ID) ∧
                      sch.(DatasetName) = d.(ds_Name))
         b.(RefreshSchedules).
Proof.
  intros Hres.
  destruct (BackupWorkspace_spec s ws w)
    as [(e & He & _)|[(e & He & _)
       |(j & rr & rd & rf & rb & ra & sevs & pevs & saveevs & _ & _ & _ & _
           & _ & Hcase)]];
    [congruence|congruence|].
  destruct Hcase as [(e & He & _)|[Hok _]]; [congruence|].
  rewrite Hres in Hok. injection Hok as ->. simpl.
  split; [done|]. split; [done|]. split; [done|].
  split.
  { apply collected_Forall. intros item a. unfold backup.report_of.
    destruct (as_object item); [|done]. simpl. by intros [= <-]. }
  split.
  { apply collected_Forall. intros item a. unfold backup.dataset_of.
    destruct (as_object item); [|done]. simpl. by intros [= <-]. }
  split.
  { apply collected_Forall. intros item a. unfold backup.dataflow_of.
    destruct (as_object item); [|done]. simpl. by intros [= <-]. }
  split.
  { apply collected_Forall. intros item a. unfold backup.app_of.
    destruct (as_object item) as [m|]; [|done]. simpl.
    destruct (decide _) as [Heq|]; [|done]. by intros [= <-]. }
  apply schedule_kept_Forall.
Qed.

End snapshot_content.

Lemma snapshot_fields_left_empty_witness :
  ∃ b, result_of
         (backup.BackupWorkspace scenario.backup_service "W"
            scenario_backup.healthy) = Ok b ∧
       Forall (λ r, r.(r_Pages) = []) b.(Reports) ∧
       Forall (λ a, a.(app_WorkspaceID) = "W") b.(Apps).
Proof.
  pose (r := result_of
               (backup.BackupWorkspace scenario.backup_service "W"
                  scenario_backup.healthy)).
  assert (∃ b, r = Ok b) as [b Hb].
  { vm_compute in r. subst r. by eexists. }
  exists b. split; [exact Hb|].
  destruct (snapshot_fields_left_empty (env := sim.env)
              scenario.backup_service "W" scenario_backup.healthy b Hb)
    as (_ & _ & _ & Hpages & _ & _ & Happs & _).
  by split.
Defined.

(** ** Refresh schedules and artifacts during a backup *)

Section backup_steps_2.
Context {W : Type} {env : Env W}.

Lemma refreshSchedules_loop_fetches ws : ∀ datasets acc (w : W),
  schedule_fetches (events_of (backup.refreshSchedules_loop ws datasets acc w))
  = (λ d, (ws, d.(ds_ID))) <$> datasets.
Proof.
  induction datasets as [|ds datasets IH]; intros acc w; simpl; [done|].
  rewrite events_bind, call_run. run_simpl.
  destruct (api_GetRefreshSchedule ws (ds_ID ds) w).1; simpl;
    unfold schedule_fetches in *; simpl; by rewrite IH.
Qed.

Lemma schedule_kept_sublist : ∀ (datasets : list Dataset) (calls : list Event),
  sublist
    ((λ sch, (sch.(DatasetID), sch.(DatasetName)))
       <$> omap schedule_kept (zip datasets calls))
    ((λ d, (d.(ds_ID), d.(ds_Name))) <$> datasets).
Proof.
  induction datasets as [|d datasets IH]; intros calls; [constructor|].
  destruct calls as [|e calls]; [apply sublist_nil_l|].
  simpl. unfold schedule_kept at 1. simpl.
  destruct e; try (apply sublist_cons, IH).
  destruct r; [|apply sublist_cons, IH].
  simpl. apply sublist_skip, IH.
Qed.

(** X6.  Capturing the refresh schedules never fails.  One fetch is made
    for every dataset handed in, in order and whether or not the dataset is
    refreshable; the schedules kept are those of the fetches that succeeded,
    each under the id and name of its dataset, in the order of the
    datasets. *)
Theorem one_schedule_fetch_per_dataset (s : backup.Service) (ws : string)
    (datasets : list Dataset) (w : W) :
  let run := backup.backupRefreshSchedules s ws datasets w in
  Forall is_schedule_fetch (events_of run) ∧
  schedule_fetches (events_of run) = (λ d, (ws, d.(ds_ID))) <$> datasets ∧
  ∃ schedules,
    result_of run = Ok schedules ∧
    schedules = omap schedule_kept (zip datasets (events_of run)) ∧
    sublist ((λ sch, (sch.(DatasetID), sch.(DatasetName))) <$> schedules)
            ((λ d, (d.(ds_ID), d.(ds_Name))) <$> datasets).
Proof.
  intros run. unfold run. rewrite backupRefreshSchedules_run. run_simpl.
  destruct (refreshSchedules_loop_spec ws datasets [] w) as (Hall & _ & _).
  split; [done|]. split; [apply refreshSchedules_loop_fetches|].
  eexists. split; [reflexivity|]. split; [done|].
  apply schedule_kept_sublist.
Qed.

(** X7.  The artifact export step at its edges.  Without reports it makes
    no call at all, so no artifact directory is created.  When the artifact
    directory cannot be created it returns that error without attempting an
    export.  Otherwise one export is attempted per report, and of the two
    totals it returns the first counts the exports that succeeded and both
    add up to the number of reports. *)
Theorem artifact_export_totals (s : backup.Service) (ws : string)
    (reports : list Report) (backupDir : string) (w : W) :
  let run := backup.backupReportsPBIX s ws reports backupDir w in
  let pbixDir := filepath.Join [backupDir; "pbix"] in
  (reports = [] →
   events_of run = [] ∧
   result_of run = Ok {| backup.st_succeeded := 0; backup.st_failed := 0 |}) ∧
  (∀ e, EvMkdirAll pbixDir (Err e) ∈ events_of run →
        result_of run = Err e ∧ events_of run = [ EvMkdirAll pbixDir (Err e) ]) ∧
  (∀ st, result_of run = Ok st →
         length (exports (events_of run)) = length reports ∧
         backup.st_succeeded st = length (exported (exports (events_of run))) ∧
         (backup.st_succeeded st + backup.st_failed st = length reports)%nat).
Proof.
  intros run pbixDir. unfold run, backup.backupReportsPBIX. fold pbixDir.
  case_decide as Hlen.
  { run_simpl. apply length_zero_iff_nil in Hlen as ->.
    split; [done|]. split; [by intros e Hin%elem_of_nil|].
    by intros st [= <-]. }
  rewrite run_bind, call_run. run_simpl.
  split; [by intros ->|].
  destruct (os_MkdirAll pbixDir w) as [[[]|e] w1]; run_simpl.
  - rewrite run_bind. run_simpl. rewrite app_nil_r.
    destruct (export_loop_spec ws pbixDir reports
                {| backup.st_succeeded := 0; backup.st_failed := 0 |} w1)
      as (Hall & Hpaths & Hsucc & Htotal).
    split.
    + intros e [Hin|Hin]%elem_of_cons; [congruence|].
      by apply (proj1 (Forall_forall _ _) Hall) in Hin.
    + intros st [= <-]. simpl in *.
      apply (f_equal length) in Hpaths. rewrite !length_fmap in Hpaths.
      done.
  - split; [|done].
    intros e' [Hin|Hin%elem_of_nil]%elem_of_cons; [|done].
    by injection Hin as <-.
Qed.

End backup_steps_2.

Lemma artifact_export_totals_witness :
  ∃ st,
    result_of
      (backup.backupReportsPBIX scenario.backup_service "W"
         [ {| r_ID := "r1"; r_Name := "A"; r_DatasetID := "";
              r_EmbedURL := ""; r_WebURL := ""; r_Pages := [] |} ]
         "backups/W/7" (scenario_backup.failing "write")) = Ok st ∧
    (st.(backup.st_succeeded) + st.(backup.st_failed) = 1)%nat.
Proof.
  pose (r := result_of
               (backup.backupReportsPBIX scenario.backup_service "W"
                  [ {| r_ID := "r1"; r_Name := "A"; r_DatasetID := "";
                       r_EmbedURL := ""; r_WebURL := ""; r_Pages := [] |} ]
                  "backups/W/7" (scenario_backup.failing "write"))).
  assert (r = Ok {| backup.st_succeeded := 0; backup.st_failed := 1 |}) as Hr.
  { by vm_compute. }
  eexists. split; [exact Hr|].
  destruct (proj2 (proj2 (artifact_export_totals (env := sim.env)
              scenario.backup_service "W"
              [ {| r_ID := "r1"; r_Name := "A"; r_DatasetID := "";
                   r_EmbedURL := ""; r_WebURL := ""; r_Pages := [] |} ]
              "backups/W/7" (scenario_backup.failing "write"))) _ Hr)
    as (_ & _ & Htotal).
  exact Htotal.
Defined.

(** ** How the import loop can end *)

Section import_outcomes.
Context {W : Type} {env : Env W}.

(** X8.  The three ways the import loop ends.  It attempts the artifacts in
    order, one import each.  When it ends normally every artifact has been
    attempted, the first counter is the number of imports the service
    accepted, and both counters add up to the number of artifacts.  It
    panics only at an artifact whose base name is shorter than five bytes,
    after attempting the artifacts before it.  The probing loop can only
    fail to come back when the number of taken names plus the number of
    artifacts exceeds the largest [int]. *)
Theorem import_loop_outcomes (ws : string) : ∀ (files : list string)
    (st : restore.ImportState) (w : W),
  let run := restore.import_loop ws files st w in
  let imps := imports (events_of run) in
  Forall is_import (events_of run) ∧
  (λ x : string * string * bool, x.1.1) <$> imps = take (length imps) files ∧
  match result_of run with
  | restore.LoopDone st' =>
      length imps = length files ∧
      st'.(restore.imported)
        = (st.(restore.imported) + length (reserved imps))%nat ∧
      (st'.(restore.imported) + st'.(restore.failed)
       = st.(restore.imported) + st.(restore.failed) + length files)%nat
  | restore.LoopPanicked =>
      ∃ f, files !! length imps = Some f ∧
           (String.length (filepath.Base f) < 5)%nat
  | restore.LoopOutOfFuel =>
      int_max < Z.of_nat (size st.(restore.existingDatasets))
                + Z.of_nat (length files)
  end.
Proof.
  induction files as [|f files IH]; intros st w; simpl.
  { run_simpl. simpl. split; [constructor|]. split; [done|]. lia. }
  destruct (restore.datasetName_of (filepath.Base f)) as [d|] eqn:Hd.
  2:{ run_simpl. simpl. split; [constructor|]. split; [done|].
      exists f. split; [done|]. unfold restore.datasetName_of in Hd.
      case_decide; [done|lia]. }
  destruct (finalName (restore.existingDatasets st) d) as [final|] eqn:Hfinal.
  2:{ run_simpl. simpl. split; [constructor|]. split; [done|].
      destruct (decide (Z.of_nat (size (restore.existingDatasets st))
                        ≤ int_max)) as [Hsz|Hsz]; [|lia].
      destruct (finalName_not_taken (restore.existingDatasets st) d Hsz)
        as (final & Hf & _).
      congruence. }
  rewrite result_bind, events_bind, call_run. run_simpl.
  set (r := (api_ImportPBIX ws f final w).1).
  set (w1 := (api_ImportPBIX ws f final w).2).
  destruct (succeeded r) eqn:Hok.
  - match goal with |- context [restore.import_loop ws files ?st1 w1] =>
      specialize (IH st1 w1);
      destruct (restore.import_loop ws files st1 w1) as [[res w2] evs]
    end.
    unfold result_of, events_of in *. simpl in *.
    destruct IH as (Hall & Hpre & Hend).
    split; [by constructor|]. split; [by f_equal|].
    destruct res as [st'| |]; simpl in *.
    + destruct Hend as (Hl & Hi & Hc). split; [by f_equal|]. lia.
    + done.
    + pose proof (size_union_alt ({[ final ]} : gset string)
                    (restore.existingDatasets st)) as Hsz.
      pose proof (subseteq_size (restore.existingDatasets st ∖ {[ final ]})
                    (restore.existingDatasets st) ltac:(set_solver)).
      rewrite size_singleton in Hsz. lia.
  - match goal with |- context [restore.import_loop ws files ?st1 w1] =>
      specialize (IH st1 w1);
      destruct (restore.import_loop ws files st1 w1) as [[res w2] evs]
    end.
    unfold result_of, events_of in *. simpl in *.
    destruct IH as (Hall & Hpre & Hend).
    split; [by constructor|]. split; [by f_equal|].
    destruct res as [st'| |]; simpl in *.
    + destruct Hend as (Hl & Hi & Hc). split; [by f_equal|]. lia.
    + done.
    + lia.
Qed.

End import_outcomes.

(** ** A restore that fails *)

Lemma omap_length_le {A B} (f : A → option B) (l : list A) :
  (length (omap f l) ≤ length l)%nat.
Proof.
  induction l as [|x l IH]; [done|].
  change (omap f (x :: l))
    with (match f x with Some y => y :: omap f l | None => omap f l end).
  destruct (f x); simpl; lia.
Qed.

Section restore_edges.
Context {W : Type} {env : Env W}.

Lemma restoreReportsPBIX_error (s : restore.Service) ws path (w : W) e :
  let pbixDir := filepath.Join [path; "pbix"] in
  let pattern := filepath.Join [pbixDir; "*.pbix"] in
  result_of (restore.restoreReportsPBIX s ws path w)
    = restore.Returned (Some e) →
  events_of (restore.restoreReportsPBIX s ws path w)
    = [ EvStat pbixDir false; EvGlob pattern (Err e) ].
Proof.
  intros pbixDir pattern. unfold restore.restoreReportsPBIX.
  fold pbixDir. fold pattern. unfold bind, call, ret, result_of, events_of.
  destruct (os_Stat_IsNotExist pbixDir w) as [[|] w1]; [done|].
  destruct (filepath_Glob pattern w1) as [[files|e'] w2];
    [|by intros [= ->]].
  case_decide; [done|].
  destruct (api_GetDatasets ws w2) as [resp w3].
  destruct (restore.import_loop ws files _ w3) as [[[]] evs]; done.
Qed.

(** X9.  A restore returns an error in three situations only: the snapshot
    file cannot be read, the snapshot file cannot be decoded, or the listing
    of the artifact directory fails.  In each of them the run consists of
    local reads alone: the service has not been contacted, so nothing has
    been imported and no schedule has been pushed. *)
Theorem failed_restore_stays_local (s : restore.Service)
    (ws path : string) (w : W) (e : error) :
  let run := restore.RestoreWorkspace s ws path w in
  let snapshotFile := filepath.Join [path; "complete_backup.json"] in
  let pbixDir := filepath.Join [path; "pbix"] in
  let pattern := filepath.Join [pbixDir; "*.pbix"] in
  result_of run = restore.Returned (Some e) →
  (events_of run = [ EvReadFile snapshotFile (Err e) ] ∨
   (∃ d, events_of run = [ EvReadFile snapshotFile (Ok d) ] ∧
         json_UnmarshalBackup d = Err e) ∨
   (∃ d, events_of run
         = [ EvReadFile snapshotFile (Ok d); EvStat pbixDir false;
             EvGlob pattern (Err e) ])) ∧
  Forall is_local_call (events_of run) ∧
  imports (events_of run) = [] ∧ updates (events_of run) = [].
Proof.
  intros run snapshotFile pbixDir pattern Hres.
  assert (Hcases :
    events_of run = [ EvReadFile snapshotFile (Err e) ] ∨
    (∃ d, events_of run = [ EvReadFile snapshotFile (Ok d) ] ∧
          json_UnmarshalBackup d = Err e) ∨
    (∃ d, events_of run
          = [ EvReadFile snapshotFile (Ok d); EvStat pbixDir false;
              EvGlob pattern (Err e) ])).
  { pose proof (RestoreWorkspace_run s ws path w) as Hrun.
    cbv zeta in Hrun. fold run in Hrun.
    destruct (LoadBackup_events (restore.storageService s) path w)
      as (r & Hlev & Hlres).
    fold snapshotFile in Hlev.
    destruct (result_of (storage.LoadBackup (restore.storageService s) path w))
      as [b|e'] eqn:Hload.
    - destruct r as [d|e'']; [|done].
      destruct (result_of (restore.restoreReportsPBIX s ws path _))
        as [[e'|]| |] eqn:Hstep;
        destruct Hrun as [Hr Hevs]; rewrite Hr in Hres; try done.
      injection Hres as ->.
      apply restoreReportsPBIX_error in Hstep.
      right. right. exists d. rewrite Hevs, Hlev, Hstep. done.
    - destruct Hrun as [Hr Hevs]. rewrite Hr in Hres. injection Hres as ->.
      rewrite Hevs, Hlev. destruct r as [d|e'']; [|left; congruence].
      right. left. exists d. done. }
  split; [done|].
  destruct Hcases as [->|[(d & -> & _)|(d & ->)]];
    by repeat constructor.
Qed.

(** X10.  The schedule step at its edges.  Without captured schedules it
    makes no call.  With schedules it starts with exactly one listing of the
    datasets of the target workspace; when that listing fails the step
    returns its error and pushes nothing.  It never pushes more updates than
    there are captured schedules. *)
Theorem schedule_step_edges (s : restore.Service) (ws : string)
    (schedules : list RefreshSchedule) (w : W) :
  let run := restore.restoreRefreshSchedules s ws schedules w in
  (schedules = [] → events_of run = [] ∧ result_of run = (None, None)) ∧
  (schedules ≠ [] →
   ∃ r rest, events_of run = EvGetDatasets ws r :: rest ∧
             Forall is_update rest ∧
             (∀ e, r = Err e → rest = [] ∧ result_of run = (Some e, None))) ∧
  (length (updates (events_of run)) ≤ length schedules)%nat.
Proof.
  intros run. unfold run, restore.restoreRefreshSchedules.
  case_decide as Hlen.
  { apply length_zero_iff_nil in Hlen as ->. run_simpl. simpl.
    split; [done|]. split; [done|lia]. }
  assert (schedules ≠ []) as Hne by (by intros ->).
  split; [done|].
  rewrite result_bind, events_bind, call_run. run_simpl.
  destruct (api_GetDatasets ws w).1 as [resp|e] eqn:Hresp; run_simpl.
  - rewrite result_bind, events_bind. run_simpl. rewrite app_nil_r.
    destruct (schedule_loop_spec ws (restore.name_index resp) schedules
                {| restore.restored := 0; restore.sc_failed := 0 |}
                (api_GetDatasets ws w).2) as (Hall & Hupd & _).
    split.
    + intros _. eexists _, _. split; [reflexivity|]. split; [done|]. done.
    + change (length (updates (events_of
        (restore.schedule_loop ws (restore.name_index resp) schedules
           {| restore.restored := 0; restore.sc_failed := 0 |}
           (api_GetDatasets ws w).2))) ≤ length schedules)%nat.
      rewrite Hupd. unfold remapped. apply omap_length_le.
  - split.
    + intros _. eexists _, _. split; [reflexivity|]. split; [constructor|].
      by intros e' [= ->].
    + simpl. lia.
Qed.

End restore_edges.

Lemma failed_restore_stays_local_witness :
  Forall is_local_call
    (events_of
       (restore.RestoreWorkspace scenario.restore_service "T" "elsewhere"
          scenario_restore.no_pbix_dir)).
Proof.
  apply (failed_restore_stays_local (env := sim.env) scenario.restore_service
           "T" "elsewhere" scenario_restore.no_pbix_dir
           "open: no such file or directory").
  by vm_compute.
Defined.

(** ** Listing the snapshots of a workspace *)

Lemma omap_dirs (dir : string) (entries : list (string * bool)) :
  omap (λ entry : string * bool,
          if entry.2 then Some (filepath.Join [dir; entry.1]) else None)
       entries
  = (λ e : string * bool, filepath.Join [dir; e.1])
      <$> filter (λ e : string * bool, e.2 = true) entries.
Proof.
  induction entries as [|[name isdir] entries IH]; [done|].
  rewrite filter_cons. destruct isdir.
  - rewrite decide_True by done. rewrite fmap_cons, <- IH. done.
  - rewrite decide_False by done. rewrite <- IH. done.
Qed.

Section listing.
Context {W : Type} {env : Env W}.

(** X11.  Listing and picking the latest snapshot of a workspace, read on
    the answers of [os.Stat] and [os.ReadDir].  Picking the latest makes the
    calls of one listing and nothing more.  When [os.Stat] reports that the
    directory of the workspace does not exist, the listing is empty, without
    error and without reading any directory, and picking the latest fails
    with [no backups found].  Otherwise the directory is read once: a
    failure to read it is returned by both; when it is read, the listing
    holds the directory joined with the name of every entry that is a
    directory, in the order read (plain files are left out), and the latest
    snapshot is the last of them; picking the latest fails when no entry is
    a directory. *)
Theorem latest_backup_is_last_directory (s : storage.StorageService)
    (ws : string) (w : W) :
  let dir := filepath.Join [s.(storage.backupPath); ws] in
  let none := "no backups found for workspace: " +:+ ws in
  let stat := os_Stat_IsNotExist dir w in
  let read := os_ReadDir dir stat.2 in
  let list := storage.ListBackups s ws w in
  let latest := storage.GetLatestBackup s ws w in
  events_of latest = events_of list ∧
  world_of latest = world_of list ∧
  (stat.1 = true →
   events_of list = [ EvStat dir true ] ∧ world_of list = stat.2 ∧
   result_of list = Ok [] ∧ result_of latest = Err none) ∧
  (stat.1 = false →
   events_of list = [ EvStat dir false; EvReadDir dir read.1 ] ∧
   world_of list = read.2 ∧
   (∀ e, read.1 = Err e →
         result_of list = Err e ∧ result_of latest = Err e) ∧
   (∀ entries, read.1 = Ok entries →
      let dirs := filter (λ e : string * bool, e.2 = true) entries in
      result_of list
        = Ok ((λ e : string * bool, filepath.Join [dir; e.1]) <$> dirs) ∧
      result_of latest
        = match last dirs with
          | Some e => Ok (filepath.Join [dir; e.1])
          | None => Err none
          end)).
Proof.
  intros dir none stat read list latest.
  assert (Hlatest : events_of latest = events_of list ∧
            world_of latest = world_of list ∧
            result_of latest
            = match result_of list with
              | Ok backups =>
                  match last backups with
                  | Some d => Ok d
                  | None => Err none
                  end
              | Err e => Err e
              end).
  { unfold latest, storage.GetLatestBackup. fold list.
    rewrite run_bind. fold list.
    destruct (result_of list) as [backups|e]; run_simpl.
    - destruct (last backups); run_simpl; by rewrite app_nil_r.
    - by rewrite app_nil_r. }
  destruct Hlatest as (Hlev & Hlw & Hlres). split; [done|]. split; [done|].
  rewrite Hlres.
  unfold list, storage.ListBackups. fold dir.
  rewrite run_bind, call_run. fold stat. run_simpl. split.
  - intros ->. by run_simpl.
  - intros ->. rewrite run_bind, call_run. fold read. run_simpl.
    split; [by destruct read.1|]. split; [by destruct read.1|]. split.
    + by intros e ->.
    + intros entries ->. run_simpl. rewrite omap_dirs. split; [done|].
      rewrite fmap_last. by destruct (last _).
Qed.

End listing.

Lemma latest_backup_is_last_directory_witness :
  result_of (storage.ListBackups scenario.store "W" scenario_listing.two_runs)
    = Ok [ "backups/W/7"; "backups/W/8" ] ∧
  result_of
    (storage.GetLatestBackup scenario.store "W" scenario_listing.two_runs)
    = Ok "backups/W/8".
Proof.
  destruct (latest_backup_is_last_directory (env := sim.env) scenario.store
              "W" scenario_listing.two_runs) as (_ & _ & _ & Hread).
  destruct Hread as (_ & _ & _ & Hok); [vm_compute; reflexivity|].
  destruct (Hok [ ("7", true); ("8", true); ("notes.txt", false) ])
    as [Hlist Hlatest]; [vm_compute; reflexivity|].
  split.
  - rewrite Hlist. vm_compute. reflexivity.
  - rewrite Hlatest. vm_compute. reflexivity.
Defined.

(** ** Saving and loading in the in-memory file system *)

Lemma world_bind {W : Type} {A B} (m : M W A) (k : A → M W B) (w : W) :
  world_of (bind m k w) = world_of (k (result_of (m w)) (world_of (m w))).
Proof. by rewrite run_bind. Qed.

Lemma result_of_run {W A} (a : A) (w : W) (evs : list Event) :
  result_of (a, w, evs) = a.
Proof. reflexivity. Qed.

Lemma world_of_run {W A} (a : A) (w : W) (evs : list Event) :
  world_of (a, w, evs) = w.
Proof. reflexivity. Qed.

Lemma result_ret {W A} (a : A) (w : W) : result_of (ret a w) = a.
Proof. reflexivity. Qed.

Lemma world_ret {W A} (a : A) (w : W) : world_of (ret a w) = w.
Proof. reflexivity. Qed.

Lemma assoc_filter_ne {A} (p q : string) (l : list (string * A)) :
  q ≠ p → sim.assoc q (filter (λ e : string * A, e.1 ≠ p) l) = sim.assoc q l.
Proof.
  intros Hq. induction l as [|[k v] l IH]; [done|].
  rewrite filter_cons. simpl. destruct (decide (k ≠ p)) as [Hk|Hk]; simpl.
  - by rewrite IH.
  - rewrite IH. rewrite decide_False; [done|].
    intros ->. apply Hk. done.
Qed.

Lemma write_lookup (path : string) (data : Data) (w : sim.World) (q : string) :
  sim.file_lookup (sim.write path data w).2 q
  = if is_ok (sim.write path data w).1
       && bool_decide (filepath.Clean path = q)
    then Some data else sim.file_lookup w q.
Proof.
  unfold sim.write.
  destruct (sim.is_down w "write"); [done|].
  destruct (negb _); [done|].
  destruct (sim.dir_exists w (filepath.Clean path)); [done|].
  simpl. unfold sim.file_lookup. simpl.
  case_bool_decide as Hq.
  - by rewrite decide_True.
  - rewrite decide_False by done. apply assoc_filter_ne. congruence.
Qed.

Lemma MkdirAll_lookup (path : string) (w : sim.World) (q : string) :
  sim.file_lookup (sim.MkdirAll path w).2 q = sim.file_lookup w q.
Proof.
  unfold sim.MkdirAll.
  destruct (sim.is_down w "mkdir"); [done|].
  by destruct (existsb _ _).
Qed.

Lemma Clean_Join_file_ne (dir f g : string) :
  plain_name f → plain_name g → f ≠ g →
  filepath.Clean (filepath.Join [dir; f])
  ≠ filepath.Clean (filepath.Join [dir; g]).
Proof.
  intros Hf Hg Hne Heq. apply Hne.
  rewrite <- (Base_Clean_Join_file dir f Hf), Heq.
  by apply Base_Clean_Join_file.
Qed.

Ltac plain_name_tac :=
  repeat split; try done; apply file_system_safe_Forall; by repeat constructor.

Lemma sim_os_WriteFile path data (w : sim.World) :
  os_WriteFile path data w = sim.write path data w.
Proof. reflexivity. Qed.

Lemma sim_os_MkdirAll path (w : sim.World) :
  os_MkdirAll path w = sim.MkdirAll path w.
Proof. reflexivity. Qed.

Lemma sim_os_ReadFile path (w : sim.World) :
  os_ReadFile path w = sim.ReadFile path w.
Proof. reflexivity. Qed.

Lemma sim_json_MarshalComponent c :
  json_MarshalComponent (Env := sim.env) c = Ok (ComponentJSON c).
Proof. reflexivity. Qed.

Lemma sim_json_MarshalBackup b :
  json_MarshalBackup (Env := sim.env) b = Ok (BackupJSON b).
Proof. reflexivity. Qed.

Lemma sim_json_UnmarshalBackup b :
  json_UnmarshalBackup (Env := sim.env) (BackupJSON b) = Ok b.
Proof. reflexivity. Qed.

Lemma saveComponent_lookup (dir name : string) (c : Component)
    (w : sim.World) (q : string) :
  filepath.Clean (filepath.Join [dir; name]) ≠ q →
  sim.file_lookup (world_of (storage.saveComponent dir name c w)) q
  = sim.file_lookup w q.
Proof.
  intros Hne. unfold storage.saveComponent.
  rewrite sim_json_MarshalComponent, call_run, sim_os_WriteFile.
  rewrite world_of_run, write_lookup. rewrite bool_decide_eq_false_2 by done.
  by rewrite andb_false_r.
Qed.

Lemma SaveBackup_lookup (st : storage.StorageService) (b : CompleteBackup)
    (w : sim.World) (dir : string) :
  result_of (storage.SaveBackup st b w) = Ok dir →
  dir = filepath.Join [st.(storage.backupPath); b.(WorkspaceID);
                       time_Format b.(Timestamp)] ∧
  sim.file_lookup (world_of (storage.SaveBackup st b w))
    (filepath.Clean (filepath.Join [dir; "complete_backup.json"]))
  = Some (BackupJSON b).
Proof.
  unfold storage.SaveBackup.
  remember (filepath.Join [st.(storage.backupPath); b.(WorkspaceID);
                           time_Format b.(Timestamp)]) as d eqn:Hd.
  rewrite result_bind, world_bind, call_run, sim_os_MkdirAll.
  rewrite result_of_run, world_of_run.
  destruct (sim.MkdirAll d w).1 as [[]|e] eqn:Hmk;
    [|rewrite result_ret; discriminate].
  rewrite sim_json_MarshalBackup.
  rewrite result_bind, world_bind, call_run, sim_os_WriteFile.
  rewrite result_of_run, world_of_run.
  destruct (sim.write _ _ _).1 as [[]|e] eqn:Hwr;
    [|rewrite result_ret; discriminate].
  rewrite !result_bind, !world_bind, result_ret, world_ret.
  intros [= <-]. split; [done|].
  do 7 (rewrite saveComponent_lookup
          by (apply Clean_Join_file_ne; (plain_name_tac || done))).
  rewrite write_lookup, Hwr. cbn [is_ok andb].
  by rewrite bool_decide_eq_true_2.
Qed.

(** X12.  Save then load is the identity in the in-memory file system:
    whenever [SaveBackup] reports success, [LoadBackup] on the directory it
    returned gives back the snapshot that was saved, from any state of the
    file system and whichever of the seven component files could be
    written. *)
Theorem saved_snapshot_loads_back (st st' : storage.StorageService)
    (b : CompleteBackup) (w : sim.World) (dir : string) :
  result_of (storage.SaveBackup st b w) = Ok dir →
  result_of (storage.LoadBackup st' dir
               (world_of (storage.SaveBackup st b w))) = Ok b.
Proof.
  intros [_ Hlook]%SaveBackup_lookup. unfold storage.LoadBackup.
  rewrite result_bind, call_run, sim_os_ReadFile.
  rewrite result_of_run, world_of_run.
  unfold sim.ReadFile. rewrite Hlook. cbn [fst snd]. rewrite result_ret.
  apply sim_json_UnmarshalBackup.
Qed.

Lemma saved_snapshot_loads_back_witness :
  result_of
    (storage.LoadBackup scenario.store "backups/W/7"
       (world_of
          (storage.SaveBackup scenario.store scenario.empty_snapshot
             scenario_backup.healthy)))
  = Ok scenario.empty_snapshot.
Proof.
  apply (saved_snapshot_loads_back scenario.store scenario.store
           scenario.empty_snapshot scenario_backup.healthy "backups/W/7").
  by vm_compute.
Defined.
Section backup_saved.
Context {W : Type} {env : Env W}.

(** A backup run that succeeds ends with the successful save of the
    snapshot it returns. *)
Lemma BackupWorkspace_saved (s : backup.Service) ws (w : W) b :
  result_of (backup.BackupWorkspace s ws w) = Ok b →
  b.(WorkspaceID) = ws ∧ b.(Timestamp) = (time_Now w).1 ∧
  ∃ w' dir,
    result_of (storage.SaveBackup s.(backup.storageService) b w') = Ok dir ∧
    world_of (backup.BackupWorkspace s ws w)
    = world_of (storage.SaveBackup s.(backup.storageService) b w').
Proof.
  unfold backup.BackupWorkspace.
  rewrite result_bind, world_bind.
  destruct (time_Now w) as [t0 w0]. run_simpl.
  rewrite result_bind, world_bind, call_run. run_simpl.
  destruct (os_MkdirAll _ w0) as [[[]|e] w1]; run_simpl; [|done].
  rewrite result_bind, world_bind, call_run. run_simpl.
  destruct (api_GetWorkspaceSettings ws w1) as [[j|e] w2]; run_simpl; [|done].
  do 8 rewrite result_bind, world_bind.
  match goal with
  | |- context [storage.SaveBackup _ ?b0 ?w9] =>
      set (backup0 := b0); set (w' := w9)
  end.
  destruct (result_of (storage.SaveBackup (backup.storageService s) backup0 w'))
    as [dir|e] eqn:Hsave; run_simpl; [|done].
  intros [= <-]. split; [done|]. split; [done|]. by exists w', dir.
Qed.

End backup_saved.

Lemma LoadBackup_lookup (st : storage.StorageService) (dir : string)
    (b : CompleteBackup) (w : sim.World) :
  sim.file_lookup w (filepath.Clean (filepath.Join [dir; "complete_backup.json"]))
  = Some (BackupJSON b) →
  result_of (storage.LoadBackup st dir w) = Ok b.
Proof.
  intros Hlook. unfold storage.LoadBackup.
  rewrite result_bind, call_run, sim_os_ReadFile.
  rewrite result_of_run, world_of_run.
  unfold sim.ReadFile. rewrite Hlook. cbn [fst snd]. rewrite result_ret.
  apply sim_json_UnmarshalBackup.
Qed.

(** X13.  A whole backup run round-trips in the in-memory file system:
    whenever [BackupWorkspace] returns a snapshot, loading from the
    directory of the run (the store path, the workspace id and the time read
    at the start of the run) gives back that same snapshot. *)
Theorem backup_run_loads_back (s : backup.Service)
    (st' : storage.StorageService) (ws : string) (w : sim.World)
    (b : CompleteBackup) :
  let run := backup.BackupWorkspace s ws w in
  let dir :=
    filepath.Join [storage.backupPath s.(backup.storageService); ws;
                   time_Format (time_Now w).1] in
  result_of run = Ok b →
  result_of (storage.LoadBackup st' dir (world_of run)) = Ok b.
Proof.
  intros run dir (Hws & Ht & w' & dir' & Hsave & Hworld)%BackupWorkspace_saved.
  fold run in Hworld. rewrite Hworld.
  apply SaveBackup_lookup in Hsave as [Hdir Hlook].
  apply LoadBackup_lookup. rewrite Hws, Ht in Hdir. fold dir in Hdir.
  by rewrite <- Hdir.
Qed.

Lemma backup_run_loads_back_witness :
  ∃ b,
    result_of
      (backup.BackupWorkspace scenario.backup_service "W"
         scenario_backup.healthy) = Ok b ∧
    result_of
      (storage.LoadBackup scenario.store "backups/W/7"
         (world_of
            (backup.BackupWorkspace scenario.backup_service "W"
               scenario_backup.healthy))) = Ok b.
Proof.
  pose (r := result_of
               (backup.BackupWorkspace scenario.backup_service "W"
                  scenario_backup.healthy)).
  assert (∃ b, r = Ok b) as [b Hb].
  { vm_compute in r. subst r. by eexists. }
  exists b. split; [exact Hb|].
  exact (backup_run_loads_back scenario.backup_service scenario.store "W"
           scenario_backup.healthy b Hb).
Defined.

(** ** The token cache *)

Section client_runs.
Context {W : Type} {net : Net W}.

Lemma nrun_bind {A B} (m : N W A) (k : A → N W B) (st : State W) :
  nbind m k st
  = (value_of (k (value_of (m st)) (state_of (m st))),
     state_of (k (value_of (m st)) (state_of (m st))),
     calls_of (m st) ++ calls_of (k (value_of (m st)) (state_of (m st)))).
Proof.
  unfold nbind, value_of, state_of, calls_of.
  destruct (m st) as [[a st1] c1]. simpl.
  by destruct (k a st1) as [[b st2] c2].
Qed.

Lemma ncall_run {A} (op : W → A * W) (c : A → Call) (st : State W) :
  ncall op c st
  = ((op st.(world)).1,
     {| tokenCache := st.(tokenCache); world := (op st.(world)).2 |},
     [ c (op st.(world)).1 ]).
Proof. unfold ncall. by destruct (op (world st)). Qed.

(** The ways [GetAccessToken] can go. *)
Lemma GetAccessToken_cases (a : auth.AuthService) (st : State W) :
  let run := auth.GetAccessToken a st in
  (st.(tokenCache) ≠ "" ∧ run = (Ok st.(tokenCache), st, [])) ∨
  (st.(tokenCache) = "" ∧
   ((∃ e, auth.tokenRequest a = Err e ∧ run = (Err e, st, [])) ∨
    (∃ req, auth.tokenRequest a = Ok req ∧
       let r := (http_Do req st.(world)).1 in
       calls_of run = [ CDo req r ] ∧
       (state_of run).(world) = (http_Do req st.(world)).2 ∧
       ((∃ tok, value_of run = Ok tok ∧
                (state_of run).(tokenCache) = tok ∧
                ∃ resp body tokenResp,
                  r = Ok resp ∧ resp.(http.StatusCode) = http.StatusOK ∧
                  resp.(http.ReadAll) = (body, None) ∧
                  json_UnmarshalToken body = Ok tokenResp ∧
                  tok = tokenResp.(AccessToken)) ∨
        (∃ e, value_of run = Err e ∧
              (state_of run).(tokenCache) = ""))))).
Proof.
  intros run. unfold run, auth.GetAccessToken.
  case_decide as Hcache; [left; by split|].
  right. assert (tokenCache st = "") as Hempty.
  { by destruct (decide (tokenCache st = "")). }
  split; [done|].
  destruct (auth.tokenRequest a) as [req|e]; [|left; by exists e].
  right. exists req. split; [done|].
  rewrite nrun_bind, ncall_run. unfold value_of, state_of, calls_of.
  cbn [fst snd].
  destruct (http_Do req (world st)).1 as [resp|e]; cbn.
  - destruct resp as [status [body [e|]]]; cbn.
    + split; [done|]. split; [done|]. right. by exists e.
    + case_decide as Hstatus; cbn.
      * split; [done|]. split; [done|]. right. by eexists.
      * destruct (json_UnmarshalToken body) as [tokenResp|e] eqn:Htok; cbn.
        -- split; [done|]. split; [done|]. left. eexists. split; [done|].
           split; [done|]. eexists _, body, tokenResp.
           split; [done|]. cbn. split; [|done].
           by destruct (decide (status = http.StatusOK)).
        -- split; [done|]. split; [done|]. right. by exists e.
  - split; [done|]. split; [done|]. right. by exists e.
Qed.

(** X14.  The token cache.  [GetAccessToken] sends at most one request, and
    none when a token is cached.  The token it returns is the token the
    cache holds afterwards, and a failure leaves the cache as it was; so a
    second call right after a success that gave a non-empty token returns
    the same token without sending anything.  A success that gave the empty
    token caches nothing. *)
Theorem token_is_cached (a : auth.AuthService) (st : State W) :
  let first := auth.GetAccessToken a st in
  let second := auth.GetAccessToken a (state_of first) in
  (length (calls_of first) ≤ 1)%nat ∧
  (st.(tokenCache) ≠ "" → first = (Ok st.(tokenCache), st, [])) ∧
  (∀ tok, value_of first = Ok tok → (state_of first).(tokenCache) = tok) ∧
  (∀ e, value_of first = Err e →
        (state_of first).(tokenCache) = st.(tokenCache)) ∧
  (∀ tok, value_of first = Ok tok → tok ≠ "" →
          second = (Ok tok, state_of first, [])).
Proof.
  intros first second.
  assert (Hhit : ∀ st', st'.(tokenCache) ≠ "" →
            auth.GetAccessToken a st' = (Ok st'.(tokenCache), st', [])).
  { intros st' Hne. unfold auth.GetAccessToken. by rewrite decide_True. }
  assert (Hkeep : ∀ tok, value_of first = Ok tok →
            (state_of first).(tokenCache) = tok).
  { intros tok Hval.
    destruct (GetAccessToken_cases a st)
      as [[Hne Hrun]|[Hempty [(e & _ & Hrun)|(req & _ & _ & _ & Hend)]]];
      fold first in Hrun || fold first in Hend.
    - rewrite Hrun in *. by injection Hval as <-.
    - rewrite Hrun in Hval. discriminate.
    - destruct Hend as [(tok' & Hv & Hc & _)|(e & Hv & _)]; congruence. }
  split.
  { destruct (GetAccessToken_cases a st)
      as [[Hne Hrun]|[Hempty [(e & _ & Hrun)|(req & _ & Hcalls & _)]]];
      fold first in Hrun || fold first in Hcalls.
    - rewrite Hrun. simpl. lia.
    - rewrite Hrun. simpl. lia.
    - rewrite Hcalls. simpl. lia. }
  split; [apply Hhit|]. split; [done|]. split.
  { intros e Hval.
    destruct (GetAccessToken_cases a st)
      as [[Hne Hrun]|[Hempty [(e' & _ & Hrun)|(req & _ & _ & _ & Hend)]]];
      fold first in Hrun || fold first in Hend.
    - rewrite Hrun in Hval. discriminate.
    - by rewrite Hrun.
    - destruct Hend as [(tok' & Hv & _)|(e' & _ & Hc)]; congruence. }
  intros tok Hval Hne. unfold second.
  rewrite Hhit; rewrite (Hkeep tok Hval); done.
Qed.

End client_runs.

Lemma token_is_cached_witness :
  auth.GetAccessToken simnet.service
    (state_of
       (auth.GetAccessToken simnet.service
          (simnet.fresh [ simnet.reply 200 "t0k" ])))
  = (Ok "t0k",
     state_of
       (auth.GetAccessToken simnet.service
          (simnet.fresh [ simnet.reply 200 "t0k" ])), []).
Proof.
  apply (proj2 (proj2 (proj2 (proj2
           (token_is_cached (net := simnet.net) simnet.service
              (simnet.fresh [ simnet.reply 200 "t0k" ])))))).
  - reflexivity.
  - discriminate.
Defined.

(** ** Authenticated requests *)

Section client_fetch.
Context {W : Type} {net : Net W}.

Lemma fetchWithAuth_cases (c : api.Client) (method endpoint : string)
    (body : option jmap) (st : State W) :
  let tok := auth.GetAccessToken c.(api.authService) st in
  let run := api.fetchWithAuth c method endpoint body st in
  match value_of tok with
  | Err e => run = (Err e, state_of tok, calls_of tok)
  | Ok token =>
      match api.apiRequest c token method endpoint body with
      | Err e => run = (Err e, state_of tok, calls_of tok)
      | Ok req =>
          let sent := http_Do req (state_of tok).(world) in
          run = (fetch_value sent.1,
                 {| tokenCache := (state_of tok).(tokenCache);
                    world := sent.2 |},
                 calls_of tok ++ [ CDo req sent.1 ])
      end
  end.
Proof.
  intros tok run. unfold run, api.fetchWithAuth. rewrite nrun_bind.
  fold tok. destruct (value_of tok) as [token|e].
  2:{ unfold nret, value_of, state_of, calls_of. cbn. by rewrite app_nil_r. }
  destruct (api.apiRequest c token method endpoint body) as [req|e].
  2:{ unfold nret, value_of, state_of, calls_of. cbn. by rewrite app_nil_r. }
  rewrite nrun_bind, ncall_run. unfold value_of, state_of, calls_of.
  cbn [fst snd]. unfold fetch_value.
  destruct (http_Do req (world tok.1.2)).1 as [resp|e]; cbn; [|done].
  destruct (http.ReadAll resp) as [respBody [e|]]; cbn; [done|].
  case_decide; done.
Qed.

Lemma Header_Set_elem (req : http.Request) (key value : string) :
  (key, value) ∈ (Header_Set req key value).(http.Header).
Proof. unfold Header_Set. simpl. apply elem_of_app. right. by left. Qed.

Lemma Header_Set_other (req : http.Request) (key value k v : string) :
  k ≠ key → (k, v) ∈ req.(http.Header) →
  (k, v) ∈ (Header_Set req key value).(http.Header).
Proof.
  intros Hk Hin. unfold Header_Set. simpl. apply elem_of_app. left.
  apply list_elem_of_filter. by split.
Qed.

(** X15.  What a successful call of [fetchWithAuth] means.  When no token
    can be obtained nothing else is sent and the token error is returned.
    The call returns a result exactly when a token was obtained, the one
    request then sent was answered with a status below 400 and a body that
    could be read in full, and that body decodes to the result; statuses
    from 400 up, unreadable and undecodable bodies all give an error.  The
    request goes to the base URL followed by the endpoint, with the given
    method, the token as bearer in its [Authorization] header and, when a
    body is given, its JSON text. *)
Theorem fetch_result (c : api.Client) (method endpoint : string)
    (body : option jmap) (st : State W) :
  let tok := auth.GetAccessToken c.(api.authService) st in
  let run := api.fetchWithAuth c method endpoint body st in
  (∀ e, value_of tok = Err e → run = (Err e, state_of tok, calls_of tok)) ∧
  (∀ j, value_of run = Ok j ↔
     ∃ token req resp respBody,
       value_of tok = Ok token ∧
       api.apiRequest c token method endpoint body = Ok req ∧
       calls_of run = calls_of tok ++ [ CDo req (Ok resp) ] ∧
       resp.(http.StatusCode) < 400 ∧
       resp.(http.ReadAll) = (respBody, None) ∧
       json_Unmarshal respBody = Ok j) ∧
  (∀ token req, api.apiRequest c token method endpoint body = Ok req →
     req.(http.Method) = method ∧
     req.(http.URL) = c.(api.baseURL) +:+ endpoint ∧
     presents token req ∧
     match body with
     | None => req.(http.Body) = None
     | Some b => ∃ text, json_Marshal b = Ok text ∧
                         req.(http.Body) = Some text
     end).
Proof.
  intros tok run.
  pose proof (fetchWithAuth_cases c method endpoint body st) as Hcases.
  cbv zeta in Hcases. fold tok run in Hcases.
  split; [|split].
  - intros e He. by rewrite He in Hcases.
  - intros j. split.
    + intros Hval. destruct (value_of tok) as [token|e].
      2:{ rewrite Hcases in Hval. discriminate. }
      destruct (api.apiRequest c token method endpoint body) as [req|e] eqn:Hreq.
      2:{ rewrite Hcases in Hval. discriminate. }
      rewrite Hcases in Hval |- *. unfold value_of, calls_of in *.
      cbn [fst snd] in *. unfold fetch_value in Hval.
      destruct (http_Do req (world (state_of tok))).1 as [resp|e]; [|done].
      destruct (http.ReadAll resp) as [respBody [e|]] eqn:Hbody; [done|].
      case_decide; [done|].
      exists token, req, resp, respBody. split_and!; try done. lia.
    + intros (token & req & resp & respBody & Htok & Hreq & Hcalls & Hst
              & Hbody & Hj).
      rewrite Htok, Hreq in Hcases. rewrite Hcases in Hcalls |- *.
      unfold value_of, calls_of in *. cbn [fst snd] in *.
      apply app_inv_head in Hcalls. injection Hcalls as Hsent.
      rewrite Hsent. unfold fetch_value. rewrite Hbody.
      by rewrite decide_False by lia.
  - intros token req Hreq. unfold api.apiRequest in Hreq.
    destruct body as [b|].
    + destruct (json_Marshal b) as [text|e] eqn:Hm; [|done].
      unfold NewRequest in Hreq.
      destruct (http_NewRequest method _); [done|].
      injection Hreq as <-. split; [done|]. split; [done|]. split.
      * apply Header_Set_other; [done|]. apply Header_Set_elem.
      * by exists text.
    + unfold NewRequest in Hreq.
      destruct (http_NewRequest method _); [done|].
      injection Hreq as <-. split; [done|]. split; [done|]. split; [|done].
      apply Header_Set_other; [done|]. apply Header_Set_elem.
Qed.

End client_fetch.

(** ** Export and import of artifacts *)

Section client_artifacts.
Context {W : Type} {net : Net W}.

Lemma value_of_run {A} (a : A) (st : State W) (cs : list Call) :
  value_of (a, st, cs) = a.
Proof. reflexivity. Qed.

Lemma state_of_run {A} (a : A) (st : State W) (cs : list Call) :
  state_of (a, st, cs) = st.
Proof. reflexivity. Qed.

Lemma calls_of_run {A} (a : A) (st : State W) (cs : list Call) :
  calls_of (a, st, cs) = cs.
Proof. reflexivity. Qed.

Lemma GetAccessToken_requests (a : auth.AuthService) (st : State W) :
  Forall is_request (calls_of (auth.GetAccessToken a st)).
Proof.
  destruct (GetAccessToken_cases a st)
    as [[_ ->]|[_ [(e & _ & ->)|(req & _ & -> & _)]]];
    by repeat constructor.
Qed.

Lemma ExportReport_cases (c : api.Client) (ws id path : string)
    (st : State W) :
  let tok := auth.GetAccessToken c.(api.authService) st in
  let run := api.ExportReport c ws id path st in
  let cache := (state_of tok).(tokenCache) in
  match value_of tok with
  | Err e => run = ((false, Some e), state_of tok, calls_of tok)
  | Ok token =>
      match api.exportRequest c token ws id with
      | Err e => run = ((false, Some e), state_of tok, calls_of tok)
      | Ok req =>
          let sent := http_Do req (state_of tok).(world) in
          match sent.1 with
          | Err e =>
              run = ((false, Some e),
                     {| tokenCache := cache; world := sent.2 |},
                     calls_of tok ++ [ CDo req (Err e) ])
          | Ok resp =>
              if decide (resp.(http.StatusCode) ≠ http.StatusOK) then
                run = ((false, Some ("export failed: status "
                                     +:+ pretty resp.(http.StatusCode))),
                       {| tokenCache := cache; world := sent.2 |},
                       calls_of tok ++ [ CDo req (Ok resp) ])
              else
                let file := os_Create path sent.2 in
                match file.1 with
                | Err e =>
                    run = ((false, Some e),
                           {| tokenCache := cache; world := file.2 |},
                           calls_of tok
                             ++ [ CDo req (Ok resp); CCreate path (Err e) ])
                | Ok _ =>
                    let copied := io_Copy path resp file.2 in
                    run = (match copied.1 with
                           | Ok _ => (true, None)
                           | Err e => (false, Some e)
                           end,
                           {| tokenCache := cache; world := copied.2 |},
                           calls_of tok
                             ++ [ CDo req (Ok resp); CCreate path (Ok ());
                                  CCopy path copied.1 ])
                end
          end
      end
  end.
Proof.
  intros tok run cache. unfold run, api.ExportReport. rewrite nrun_bind.
  fold tok. destruct (value_of tok) as [token|e].
  2:{ unfold nret, value_of, state_of, calls_of. cbn. by rewrite app_nil_r. }
  destruct (api.exportRequest c token ws id) as [req|e].
  2:{ unfold nret, value_of, state_of, calls_of. cbn. by rewrite app_nil_r. }
  rewrite nrun_bind, ncall_run. unfold value_of, state_of, calls_of.
  cbn [fst snd].
  destruct (http_Do req (world tok.1.2)).1 as [resp|e]; cbn; [|done].
  case_decide as Hstatus; cbn; [done|].
  rewrite nrun_bind, ncall_run. unfold value_of, state_of, calls_of.
  cbn [fst snd tokenCache world].
  destruct (os_Create path _).1 as [[]|e]; cbn; [|done].
  rewrite nrun_bind, ncall_run. unfold value_of, state_of, calls_of.
  cbn [fst snd tokenCache world].
  by destruct (io_Copy path resp _).1 as [[]|e]; cbn.
Qed.

(** X17.  [ExportReport] and the file it writes.  The pair it returns is
    either [(true, nil)] or [(false, err)] with a non-nil error, never
    anything else.  It returns [(true, nil)] exactly when a token was
    obtained, the export request was answered with status 200, the output
    file was created and the body was copied to it.  The output file is
    created only after a reply with status 200 to the export request.  When
    the copy fails the error is returned and the file has been created: it
    is left behind. *)
Theorem export_creates_file_after_ok (c : api.Client)
    (ws id path : string) (st : State W) :
  let tok := auth.GetAccessToken c.(api.authService) st in
  let run := api.ExportReport c ws id path st in
  (value_of run = (true, None) ∨ ∃ e, value_of run = (false, Some e)) ∧
  (value_of run = (true, None) ↔
     ∃ token req resp,
       value_of tok = Ok token ∧ api.exportRequest c token ws id = Ok req ∧
       resp.(http.StatusCode) = http.StatusOK ∧
       calls_of run
       = calls_of tok
           ++ [ CDo req (Ok resp); CCreate path (Ok ());
                CCopy path (Ok ()) ]) ∧
  (∀ r, CCreate path r ∈ calls_of run →
     ∃ token req resp,
       value_of tok = Ok token ∧ api.exportRequest c token ws id = Ok req ∧
       resp.(http.StatusCode) = http.StatusOK ∧
       CDo req (Ok resp) ∈ calls_of run) ∧
  (∀ e, CCopy path (Err e) ∈ calls_of run →
     value_of run = (false, Some e) ∧ CCreate path (Ok ()) ∈ calls_of run).
Proof.
  intros tok run.
  pose proof (ExportReport_cases c ws id path st) as Hcases.
  cbv zeta in Hcases. fold tok run in Hcases.
  pose proof (GetAccessToken_requests c.(api.authService) st) as Htok.
  fold tok in Htok.
  assert (Hnot1 : ∀ r, CCreate path r ∈ calls_of tok → False).
  { intros r Hin. by apply (proj1 (Forall_forall _ _) Htok) in Hin. }
  assert (Hnot2 : ∀ r, CCopy path r ∈ calls_of tok → False).
  { intros r Hin. by apply (proj1 (Forall_forall _ _) Htok) in Hin. }
  destruct (value_of tok) as [token|e0] eqn:Hval.
  2:{ rewrite Hcases, value_of_run, calls_of_run.
      split; [right; by eexists|]. split.
      { split; [done|]. by intros (? & ? & ? & ? & _). }
      split; [intros r Hin; by apply Hnot1 in Hin|].
      intros e Hin. by apply Hnot2 in Hin. }
  destruct (api.exportRequest c token ws id) as [req|e0] eqn:Hreq.
  2:{ rewrite Hcases, value_of_run, calls_of_run.
      split; [right; by eexists|]. split.
      { split; [done|]. intros (? & ? & ? & [= <-] & ? & _). congruence. }
      split; [intros r Hin; by apply Hnot1 in Hin|].
      intros e Hin. by apply Hnot2 in Hin. }
  destruct (http_Do req (world (state_of tok))).1 as [resp|e0].
  2:{ rewrite Hcases, value_of_run, calls_of_run.
      split; [right; by eexists|]. split.
      { split; [done|]. intros (? & ? & ? & _ & _ & _ & Hc).
        by apply app_inv_head in Hc. }
      split.
      - intros r [Hin|Hin]%elem_of_app; [by apply Hnot1 in Hin|].
        by apply list_elem_of_singleton in Hin.
      - intros e [Hin|Hin]%elem_of_app; [by apply Hnot2 in Hin|].
        by apply list_elem_of_singleton in Hin. }
  case_decide as Hstatus.
  { rewrite Hcases, value_of_run, calls_of_run.
    split; [right; by eexists|]. split.
    { split; [done|]. intros (? & ? & ? & _ & _ & _ & Hc).
      by apply app_inv_head in Hc. }
    split.
    - intros r [Hin|Hin]%elem_of_app; [by apply Hnot1 in Hin|].
      by apply list_elem_of_singleton in Hin.
    - intros e [Hin|Hin]%elem_of_app; [by apply Hnot2 in Hin|].
      by apply list_elem_of_singleton in Hin. }
  assert (http.StatusCode resp = http.StatusOK) as Hok.
  { by destruct (decide (http.StatusCode resp = http.StatusOK)). }
  destruct (os_Create path _).1 as [[]|e0].
  2:{ rewrite Hcases, value_of_run, calls_of_run.
      split; [right; by eexists|]. split.
      { split; [done|]. intros (? & ? & ? & _ & _ & _ & Hc).
        by apply app_inv_head in Hc. }
      split.
      - intros r _. exists token, req, resp. split_and!; try done.
        apply elem_of_app. right. by left.
      - intros e [Hin|Hin]%elem_of_app; [by apply Hnot2 in Hin|].
        repeat (apply elem_of_cons in Hin as [Hin|Hin]; [done|]).
        by apply elem_of_nil in Hin. }
  rewrite Hcases, value_of_run, calls_of_run.
  destruct (io_Copy path resp _).1 as [[]|e0].
  - split; [by left|]. split.
    { split; [|done]. intros _. by exists token, req, resp. }
    split.
    + intros r _. exists token, req, resp. split_and!; try done.
      apply elem_of_app. right. by left.
    + intros e [Hin|Hin]%elem_of_app; [by apply Hnot2 in Hin|].
      repeat (apply elem_of_cons in Hin as [Hin|Hin]; [done|]).
      by apply elem_of_nil in Hin.
  - split; [right; by eexists|]. split.
    { split; [done|]. intros (? & ? & ? & _ & _ & _ & Hc).
      by apply app_inv_head in Hc. }
    split.
    + intros r _. exists token, req, resp. split_and!; try done.
      apply elem_of_app. right. by left.
    + intros e [Hin|Hin]%elem_of_app; [by apply Hnot2 in Hin|].
      apply elem_of_cons in Hin as [Hin|Hin]; [done|].
      apply elem_of_cons in Hin as [Hin|Hin]; [done|].
      apply list_elem_of_singleton in Hin. injection Hin as <-.
      split; [done|]. apply elem_of_app. right. right. by left.
Qed.

Lemma ImportPBIX_cases (c : api.Client) (ws path name : string)
    (st : State W) :
  let tok := auth.GetAccessToken c.(api.authService) st in
  let run := api.ImportPBIX c ws path name st in
  let cache := (state_of tok).(tokenCache) in
  match value_of tok with
  | Err e => run = ((false, Some e), state_of tok, calls_of tok)
  | Ok token =>
      let file := os_Open path (state_of tok).(world) in
      match file.1 with
      | Err e =>
          run = ((false, Some e),
                 {| tokenCache := cache; world := file.2 |},
                 calls_of tok ++ [ COpen path (Err e) ])
      | Ok _ =>
          let form :=
            multipart_FormFile "file" (filepath.Base path) path file.2 in
          let opened :=
            [ COpen path (Ok ());
              CFormFile "file" (filepath.Base path) path form.1 ] in
          match form.1 with
          | Err e =>
              run = ((false, Some e),
                     {| tokenCache := cache; world := form.2 |},
                     calls_of tok ++ opened)
          | Ok (body, contentType) =>
              match api.importRequest c token ws name body contentType with
              | Err e =>
                  run = ((false, Some e),
                         {| tokenCache := cache; world := form.2 |},
                         calls_of tok ++ opened)
              | Ok req =>
                  let sent := http_Do req form.2 in
                  run = (match sent.1 with
                         | Err e => (false, Some e)
                         | Ok resp =>
                             if decide (resp.(http.StatusCode)
                                          = http.StatusAccepted
                                        ∨ resp.(http.StatusCode)
                                          = http.StatusOK)
                             then (true, None)
                             else (false,
                                   Some ("import failed: "
                                         +:+ pretty resp.(http.StatusCode)
                                         +:+ " - " +:+ resp.(http.ReadAll).1))
                         end,
                         {| tokenCache := cache; world := sent.2 |},
                         calls_of tok ++ opened ++ [ CDo req sent.1 ])
              end
          end
      end
  end.
Proof.
  intros tok run cache. unfold run, api.ImportPBIX. rewrite nrun_bind.
  fold tok. destruct (value_of tok) as [token|e].
  2:{ unfold nret, value_of, state_of, calls_of. cbn. by rewrite app_nil_r. }
  rewrite nrun_bind, ncall_run. unfold value_of, state_of, calls_of.
  cbn [fst snd tokenCache world].
  destruct (os_Open path _).1 as [[]|e]; cbn; [|done].
  rewrite nrun_bind, ncall_run. unfold value_of, state_of, calls_of.
  cbn [fst snd tokenCache world].
  destruct (multipart_FormFile "file" _ path _).1 as [[body ct]|e]; cbn;
    [|done].
  destruct (api.importRequest c token ws name body ct) as [req|e]; cbn;
    [|done].
  rewrite nrun_bind, ncall_run. unfold value_of, state_of, calls_of.
  cbn [fst snd tokenCache world].
  destruct (http_Do req _).1 as [resp|e]; cbn; [|done].
  case_decide; done.
Qed.

(** X18.  [ImportPBIX] and the upload it makes.  The pair it returns is
    either [(true, nil)] or [(false, err)] with a non-nil error.  It returns
    [(true, nil)] exactly when a token was obtained, the artifact was opened
    and packed, and the upload was answered with status 202 or 200.  When
    the artifact cannot be opened nothing is uploaded.  The upload is a
    [POST] of the packed artifact to the import URL of the workspace, in
    which the dataset name appears as it was given, with
    [nameConflict=Abort]. *)
Theorem import_accepted_iff (c : api.Client) (ws path name : string)
    (st : State W) :
  let tok := auth.GetAccessToken c.(api.authService) st in
  let run := api.ImportPBIX c ws path name st in
  (value_of run = (true, None) ∨ ∃ e, value_of run = (false, Some e)) ∧
  (value_of run = (true, None) ↔
     ∃ token body contentType req resp,
       value_of tok = Ok token ∧
       api.importRequest c token ws name body contentType = Ok req ∧
       (resp.(http.StatusCode) = 202 ∨ resp.(http.StatusCode) = 200) ∧
       calls_of run
       = calls_of tok
           ++ [ COpen path (Ok ());
                CFormFile "file" (filepath.Base path) path
                  (Ok (body, contentType));
                CDo req (Ok resp) ]) ∧
  (∀ e, COpen path (Err e) ∈ calls_of run →
        value_of run = (false, Some e) ∧
        calls_of run = calls_of tok ++ [ COpen path (Err e) ]) ∧
  (∀ token body contentType req,
     api.importRequest c token ws name body contentType = Ok req →
     req.(http.Method) = "POST" ∧
     req.(http.URL)
     = c.(api.baseURL) +:+ "/groups/" +:+ ws
         +:+ "/imports?datasetDisplayName=" +:+ name
         +:+ "&nameConflict=Abort" ∧
     req.(http.Body) = Some body ∧ presents token req ∧
     ("Content-Type", contentType) ∈ req.(http.Header)).
Proof.
  intros tok run.
  pose proof (ImportPBIX_cases c ws path name st) as Hcases.
  cbv zeta in Hcases. fold tok run in Hcases.
  pose proof (GetAccessToken_requests c.(api.authService) st) as Htok.
  fold tok in Htok.
  assert (Hnot : ∀ r, COpen path r ∈ calls_of tok → False).
  { intros r Hin. by apply (proj1 (Forall_forall _ _) Htok) in Hin. }
  assert (Hreqs : ∀ token body contentType req,
     api.importRequest c token ws name body contentType = Ok req →
     req.(http.Method) = "POST" ∧
     req.(http.URL)
     = c.(api.baseURL) +:+ "/groups/" +:+ ws
         +:+ "/imports?datasetDisplayName=" +:+ name
         +:+ "&nameConflict=Abort" ∧
     req.(http.Body) = Some body ∧ presents token req ∧
     ("Content-Type", contentType) ∈ req.(http.Header)).
  { intros token body ct req Hreq. unfold api.importRequest, NewRequest in Hreq.
    destruct (http_NewRequest "POST" _); [done|]. injection Hreq as <-.
    split_and!; try done.
    - apply Header_Set_other; [done|]. apply Header_Set_elem.
    - apply Header_Set_elem. }
  destruct (value_of tok) as [token|e0] eqn:Hval.
  2:{ rewrite Hcases, value_of_run, calls_of_run.
      split; [right; by eexists|]. split.
      { split; [done|]. by intros (? & ? & ? & ? & ? & ? & _). }
      split; [|done]. intros e Hin. by apply Hnot in Hin. }
  destruct (os_Open path _).1 as [[]|e0].
  2:{ rewrite Hcases, value_of_run, calls_of_run.
      split; [right; by eexists|]. split.
      { split; [done|]. intros (? & ? & ? & ? & ? & _ & _ & _ & Hc).
        by apply app_inv_head in Hc. }
      split; [|done].
      intros e [Hin|Hin]%elem_of_app; [by apply Hnot in Hin|].
      apply list_elem_of_singleton in Hin. by injection Hin as <-. }
  destruct (multipart_FormFile "file" _ path _).1 as [[body ct]|e0] eqn:Hform.
  2:{ rewrite Hcases, value_of_run, calls_of_run.
      split; [right; by eexists|]. split.
      { split; [done|]. intros (? & ? & ? & ? & ? & _ & _ & _ & Hc).
        by apply app_inv_head in Hc. }
      split; [|done].
      intros e [Hin|Hin]%elem_of_app; [by apply Hnot in Hin|].
      repeat (apply elem_of_cons in Hin as [Hin|Hin]; [done|]).
      by apply elem_of_nil in Hin. }
  destruct (api.importRequest c token ws name body ct) as [req|e0] eqn:Hreq.
  2:{ rewrite Hcases, value_of_run, calls_of_run.
      split; [right; by eexists|]. split.
      { split; [done|]. intros (? & ? & ? & ? & ? & _ & _ & _ & Hc).
        by apply app_inv_head in Hc. }
      split; [|done].
      intros e [Hin|Hin]%elem_of_app; [by apply Hnot in Hin|].
      repeat (apply elem_of_cons in Hin as [Hin|Hin]; [done|]).
      by apply elem_of_nil in Hin. }
  rewrite Hcases, value_of_run, calls_of_run.
  assert (Hopen : ∀ e l,
            COpen path (Err e)
              ∈ calls_of tok
                  ++ [ COpen path (Ok ());
                       CFormFile "file" (filepath.Base path) path
                         (Ok (body, ct)) ] ++ [ CDo req l ] → False).
  { intros e l [Hin|Hin]%elem_of_app; [by apply Hnot in Hin|].
    repeat (apply elem_of_cons in Hin as [Hin|Hin]; [done|]).
    by apply elem_of_nil in Hin. }
  destruct (http_Do req _).1 as [resp|e0].
  2:{ split; [right; by eexists|]. split.
      { split; [done|]. intros (? & ? & ? & ? & ? & _ & _ & _ & Hc).
        by apply app_inv_head in Hc. }
      split; [|done]. intros e Hin. by apply Hopen in Hin. }
  case_decide as Hstatus.
  - split; [by left|]. split.
    { split; [|done]. intros _. by exists token, body, ct, req, resp. }
    split; [|done]. intros e Hin. by apply Hopen in Hin.
  - split; [right; by eexists|]. split.
    { split; [done|]. intros (? & ? & ? & ? & resp' & _ & _ & Hst & Hc).
      apply app_inv_head in Hc. injection Hc as _ _ _ <-.
      exfalso. apply Hstatus. done. }
    split; [|done]. intros e Hin. by apply Hopen in Hin.
Qed.

End client_artifacts.

(** ** A cached token is kept *)

Section client_cache.
Context {W : Type} {net : Net W}.

(** X16.  A cached token is never replaced.  With a token in the cache, each
    of [fetchWithAuth], [ExportReport] and [ImportPBIX] leaves the cache as
    it is whatever the service answers (a status of 401 included), sends no
    token request, and presents the cached token in every request it
    sends. *)
Theorem cached_token_is_never_replaced (c : api.Client) (st : State W)
    (method endpoint : string) (body : option jmap)
    (ws id path name : string) :
  st.(tokenCache) ≠ "" →
  let fetch := api.fetchWithAuth c method endpoint body st in
  let export := api.ExportReport c ws id path st in
  let import := api.ImportPBIX c ws path name st in
  (state_of fetch).(tokenCache) = st.(tokenCache) ∧
  (state_of export).(tokenCache) = st.(tokenCache) ∧
  (state_of import).(tokenCache) = st.(tokenCache) ∧
  (length (calls_of fetch) ≤ 1)%nat ∧
  (∀ req r, CDo req r ∈ calls_of fetch ++ calls_of export ++ calls_of import →
            presents st.(tokenCache) req).
Proof.
  intros Hcache fetch export import.
  assert (Htok : auth.GetAccessToken c.(api.authService) st
                 = (Ok st.(tokenCache), st, [])).
  { unfold auth.GetAccessToken. by rewrite decide_True. }
  pose proof (fetchWithAuth_cases c method endpoint body st) as Hf.
  pose proof (ExportReport_cases c ws id path st) as He.
  pose proof (ImportPBIX_cases c ws path name st) as Hi.
  cbv zeta in Hf, He, Hi. rewrite Htok in Hf, He, Hi.
  rewrite value_of_run, state_of_run, calls_of_run in Hf, He, Hi.
  cbn [app] in Hf, He, Hi.
  fold fetch in Hf. fold export in He. fold import in Hi.
  assert (Hfetch : (state_of fetch).(tokenCache) = st.(tokenCache) ∧
            (length (calls_of fetch) ≤ 1)%nat ∧
            ∀ req r, CDo req r ∈ calls_of fetch →
                     presents st.(tokenCache) req).
  { destruct (api.apiRequest c (tokenCache st) method endpoint body)
      as [req|e] eqn:Hreq; rewrite Hf, state_of_run, calls_of_run.
    - split; [done|]. split; [simpl; lia|].
      intros req' r Hin%list_elem_of_singleton. injection Hin as -> _.
      unfold api.apiRequest in Hreq.
      destruct (match body with
                | Some body0 =>
                    match json_Marshal body0 with
                    | Ok jsonData => Ok (Some jsonData)
                    | Err e => Err e
                    end
                | None => Ok None
                end) as [reqBody|e]; [|done].
      unfold NewRequest in Hreq. destruct (http_NewRequest _ _); [done|].
      injection Hreq as <-.
      apply Header_Set_other; [done|]. apply Header_Set_elem.
    - split; [done|]. split; [simpl; lia|]. by intros req r Hin%elem_of_nil. }
  assert (Hexport : (state_of export).(tokenCache) = st.(tokenCache) ∧
            ∀ req r, CDo req r ∈ calls_of export →
                     presents st.(tokenCache) req).
  { destruct (api.exportRequest c (tokenCache st) ws id) as [req|e] eqn:Hreq.
    2:{ rewrite He, state_of_run, calls_of_run. split; [done|].
        by intros req r Hin%elem_of_nil. }
    assert (presents (tokenCache st) req) as Hp.
    { unfold api.exportRequest, NewRequest in Hreq.
      destruct (http_NewRequest _ _); [done|]. injection Hreq as <-.
      apply Header_Set_elem. }
    assert (Hone : ∀ req' r l, CDo req' r ∈ CDo req l :: [] →
                     presents (tokenCache st) req').
    { intros req' r l Hin%list_elem_of_singleton. by injection Hin as -> _. }
    destruct (http_Do req (world st)).1 as [resp|e].
    2:{ rewrite He, state_of_run, calls_of_run. split; [done|]. intros ? ?; apply Hone. }
    case_decide.
    { rewrite He, state_of_run, calls_of_run. split; [done|]. intros ? ?; apply Hone. }
    destruct (os_Create path _).1 as [[]|e];
      rewrite He, state_of_run, calls_of_run; (split; [done|]);
      intros req' r Hin;
      repeat (apply elem_of_cons in Hin as [Hin|Hin];
              [try done; by injection Hin as -> _|]);
      by apply elem_of_nil in Hin. }
  assert (Himport : (state_of import).(tokenCache) = st.(tokenCache) ∧
            ∀ req r, CDo req r ∈ calls_of import →
                     presents st.(tokenCache) req).
  { destruct (os_Open path (world st)).1 as [[]|e].
    2:{ rewrite Hi, state_of_run, calls_of_run. split; [done|].
        intros req' r Hin%list_elem_of_singleton. done. }
    destruct (multipart_FormFile "file" _ path _).1 as [[b ct]|e].
    2:{ rewrite Hi, state_of_run, calls_of_run. split; [done|].
        intros req' r Hin.
        repeat (apply elem_of_cons in Hin as [Hin|Hin]; [done|]).
        by apply elem_of_nil in Hin. }
    destruct (api.importRequest c (tokenCache st) ws name b ct)
      as [req|e] eqn:Hreq.
    2:{ rewrite Hi, state_of_run, calls_of_run. split; [done|].
        intros req' r Hin.
        repeat (apply elem_of_cons in Hin as [Hin|Hin]; [done|]).
        by apply elem_of_nil in Hin. }
    rewrite Hi, state_of_run, calls_of_run. split; [done|].
    intros req' r Hin.
    repeat (apply elem_of_cons in Hin as [Hin|Hin];
            [try done; injection Hin as -> _|]);
      [|by apply elem_of_nil in Hin].
    unfold api.importRequest, NewRequest in Hreq.
    destruct (http_NewRequest _ _); [done|]. injection Hreq as <-.
    apply Header_Set_other; [done|]. apply Header_Set_elem. }
  destruct Hfetch as (? & ? & Hf1). destruct Hexport as (? & He1).
  destruct Himport as (? & Hi1).
  split_and!; try done.
  intros req r [Hin|[Hin|Hin]%elem_of_app]%elem_of_app; eauto.
Qed.

End client_cache.

Lemma cached_token_is_never_replaced_witness :
  value_of
    (api.fetchWithAuth simnet.client "GET" "/groups" None
       (simnet.cached "t0k" [ simnet.reply 401 "expired" ]))
  = Err "API error 401: expired" ∧
  (state_of
     (api.fetchWithAuth simnet.client "GET" "/groups" None
        (simnet.cached "t0k" [ simnet.reply 401 "expired" ]))).(tokenCache)
  = "t0k".
Proof.
  split; [reflexivity|].
  apply (cached_token_is_never_replaced (net := simnet.net) simnet.client
           (simnet.cached "t0k" [ simnet.reply 401 "expired" ])
           "GET" "/groups" None "W" "r1" "out.pbix" "A").
  discriminate.
Defined.

(** ** The command line *)

Section command_line.
Context {W : Type} {env : Env W}.
Variable api_GetWorkspaces : W → res jmap * W.

(** X19.  The command line is turned down before any work is done.  When a
    credential is missing, the command is neither [backup] nor [restore],
    [backup] comes with neither [--all] nor a workspace id, or [restore]
    lacks the workspace id or the backup path, the process exits with
    status 1 and has made no call: no clock reading, no file, no request. *)
Theorem command_line_turned_down (flags : cli.Flags)
    (environ : string → string) (w : W) :
  turned_down flags (config.LoadConfig environ) →
  cli.main api_GetWorkspaces flags environ w = (cli.Exit 1, w, []).
Proof.
  unfold turned_down, cli.main.
  intros Hdown. case_decide as Hcred; [done|].
  destruct Hdown as [H|[H|[H|Hdown]]]; [exfalso; apply Hcred; auto..|].
  destruct Hdown as [(Hcmd & Hall & Hws)|[(Hcmd & Hargs)|(Hb & Hr)]].
  - rewrite decide_True by done. rewrite Hall.
    rewrite decide_False; [done|]. intros H. by apply H.
  - rewrite decide_False by (rewrite Hcmd; discriminate).
    rewrite decide_True by done. by rewrite decide_True.
  - by rewrite !decide_False.
Qed.

Lemma backupAll_loop_counts (service : backup.Service) :
  ∀ (value : list json) (s f : nat) (w : W),
  let loop := cli.backupAll_loop service value s f w in
  (s ≤ (result_of loop).1)%nat ∧ (f ≤ (result_of loop).2)%nat ∧
  ((result_of loop).1 + (result_of loop).2
   = s + f + length (listed_ids value))%nat.
Proof.
  induction value as [|item value IH]; intros s f w; simpl.
  { run_simpl. simpl. lia. }
  unfold listed_ids. simpl. fold (listed_ids value).
  destruct (as_object item) as [m|]; simpl.
  2:{ apply IH. }
  rewrite result_bind.
  destruct (result_of (backup.BackupWorkspace service _ w)) as [b|e].
  - specialize (IH (S s) f (world_of (backup.BackupWorkspace service
        (default "" (as_string (jlookup m "id"))) w))).
    cbv zeta in IH. lia.
  - specialize (IH s (S f) (world_of (backup.BackupWorkspace service
        (default "" (as_string (jlookup m "id"))) w))).
    cbv zeta in IH. lia.
Qed.

(** X20.  Backing up all workspaces.  With [--all] the workspace id of the
    command line is not looked at.  When the listing of the workspaces
    fails the process exits with status 1 without any further call; in
    every other case [main] returns, so the exit status is 0 however many
    of the backups failed.  The loop runs one backup per listed item that
    is an object (passing the empty id when the item has none) and goes on
    after a failure: its two counters add up to the number of such items. *)
Theorem backup_all_exit_status (flags : cli.Flags)
    (environ : string → string) (w : W) :
  let settings := config.LoadConfig environ in
  let store := {| storage.backupPath := settings.(config.BackupPath) |} in
  let service := {| backup.storageService := store |} in
  let run := cli.main api_GetWorkspaces flags environ w in
  settings.(config.PowerBIClientID) ≠ "" →
  settings.(config.PowerBIClientSecret) ≠ "" →
  settings.(config.PowerBITenantID) ≠ "" →
  flags.(cli.cmd) = "backup" → flags.(cli.allWorkspaces) = true →
  run = cli.backupAllWorkspaces api_GetWorkspaces store w ∧
  (∀ e, (api_GetWorkspaces w).1 = Err e →
        run = (cli.Exit 1, (api_GetWorkspaces w).2, [])) ∧
  (∀ resp, (api_GetWorkspaces w).1 = Ok resp → result_of run = cli.Return) ∧
  (∀ resp value, (api_GetWorkspaces w).1 = Ok resp →
     as_array (jlookup resp "value") = Some value → value ≠ [] →
     let loop :=
       cli.backupAll_loop service value 0 0 (api_GetWorkspaces w).2 in
     events_of run = events_of loop ∧
     ((result_of loop).1 + (result_of loop).2
      = length (listed_ids value))%nat).
Proof.
  intros settings store service run H1 H2 H3 Hcmd Hall.
  assert (Hrun : run = cli.backupAllWorkspaces api_GetWorkspaces store w).
  { unfold run, cli.main. fold settings.
    rewrite decide_False by (intros [?|[?|?]]; done).
    rewrite decide_True by done. by rewrite Hall. }
  split; [done|]. rewrite Hrun. unfold cli.backupAllWorkspaces.
  rewrite run_bind.
  destruct (api_GetWorkspaces w) as [[resp|e] w1]; run_simpl.
  - split; [done|]. split.
    + intros resp' [= <-].
      destruct (as_array (jlookup resp "value")) as [value|]; [|done].
      case_decide; [done|]. by rewrite result_bind.
    + intros resp' value [= <-] Hvalue Hne. rewrite Hvalue.
      rewrite decide_False by (by destruct value).
      rewrite events_bind. run_simpl. rewrite app_nil_r. split; [done|].
      destruct (backupAll_loop_counts service value 0 0 w1) as (_ & _ & Hc).
      exact Hc.
  - split; [by intros e' [= <-]|]. split; [done|]. done.
Qed.

(** X21.  The exit status of a single backup or restore.  Started for one
    workspace with nothing to turn down, [backup] makes the calls of one
    backup run and returns (status 0) exactly when the snapshot file of the
    run has been written; otherwise it exits with status 1.  [restore]
    returns exactly when the restore returned no error, and exits with
    status 1 exactly when the restore returned one. *)
Theorem exit_status_of_single_run (flags : cli.Flags)
    (environ : string → string) (w : W) :
  let settings := config.LoadConfig environ in
  let store := {| storage.backupPath := settings.(config.BackupPath) |} in
  let run := cli.main api_GetWorkspaces flags environ w in
  let started := (time_Now w).2 in
  settings.(config.PowerBIClientID) ≠ "" →
  settings.(config.PowerBIClientSecret) ≠ "" →
  settings.(config.PowerBITenantID) ≠ "" →
  flags.(cli.workspaceID) ≠ "" →
  (flags.(cli.cmd) = "backup" → flags.(cli.allWorkspaces) = false →
   let job :=
     backup.BackupWorkspace {| backup.storageService := store |}
       flags.(cli.workspaceID) started in
   events_of run = events_of job ∧
   (result_of run = cli.Return ↔ persisted (events_of run)) ∧
   (result_of run = cli.Exit 1 ↔ ¬ persisted (events_of run))) ∧
  (flags.(cli.cmd) = "restore" → flags.(cli.backupPathArg) ≠ "" →
   let job :=
     restore.RestoreWorkspace {| restore.storageService := store |}
       flags.(cli.workspaceID) flags.(cli.backupPathArg) started in
   events_of run = events_of job ∧
   (result_of run = cli.Return ↔ result_of job = restore.Returned None) ∧
   (result_of run = cli.Exit 1
    ↔ ∃ e, result_of job = restore.Returned (Some e))).
Proof.
  intros settings store run started H1 H2 H3 Hws.
  assert (Hnow : ∀ w0, cli.now w0 = ((time_Now w0).1, (time_Now w0).2, [])).
  { intros w0. unfold cli.now. by destruct (time_Now w0). }
  split.
  - intros Hcmd Hall job.
    assert (Hrun : run = cli.backupWorkspace flags.(cli.workspaceID) store w).
    { unfold run, cli.main. fold settings.
      rewrite decide_False by (intros [?|[?|?]]; done).
      rewrite decide_True by done. rewrite Hall. by rewrite decide_True. }
    rewrite Hrun. unfold cli.backupWorkspace.
    rewrite result_bind, events_bind, Hnow. run_simpl. fold started.
    rewrite result_bind, events_bind. fold job.
    pose proof (BackupWorkspace_ok_iff_persisted
                  {| backup.storageService := store |}
                  flags.(cli.workspaceID) started) as Hiff.
    cbv zeta in Hiff. fold job in Hiff.
    destruct (result_of job) as [b|e] eqn:Hjob.
    + rewrite result_bind, events_bind, Hnow. run_simpl.
      rewrite app_nil_r. split; [done|].
      assert (persisted (events_of job)) by (apply Hiff; by eexists).
      split; split; done.
    + run_simpl. rewrite app_nil_r. split; [done|].
      assert (¬ persisted (events_of job)) as Hnp.
      { intros [b Hb]%Hiff. congruence. }
      split; split; try done.
  - intros Hcmd Hpath job.
    assert (Hrun : run = cli.restoreWorkspace flags.(cli.workspaceID)
                           flags.(cli.backupPathArg) store w).
    { unfold run, cli.main. fold settings.
      rewrite decide_False by (intros [?|[?|?]]; done).
      rewrite decide_False by (rewrite Hcmd; discriminate).
      rewrite decide_True by done.
      by rewrite decide_False by (intros [?|?]; done). }
    rewrite Hrun. unfold cli.restoreWorkspace.
    rewrite result_bind, events_bind, Hnow. run_simpl. fold started.
    rewrite result_bind, events_bind. fold job.
    destruct (result_of job) as [[e|]| |] eqn:Hjob.
    + run_simpl. rewrite app_nil_r. split; [done|].
      split; split; try done. intros _. by eexists.
    + rewrite result_bind, events_bind, Hnow. run_simpl.
      rewrite app_nil_r. split; [done|].
      split; split; try done. by intros [e He].
    + run_simpl. rewrite app_nil_r. split; [done|].
      split; split; try done. by intros [e He].
    + run_simpl. rewrite app_nil_r. split; [done|].
      split; split; try done. by intros [e He].
Qed.

End command_line.

Lemma command_line_turned_down_witness :
  cli.main scenario_cli.GetWorkspaces scenario_flags.restore_without_path
    scenario_cli.environ scenario_backup.healthy
  = (cli.Exit 1, scenario_backup.healthy, []).
Proof.
  apply (command_line_turned_down (env := sim.env)).
  unfold turned_down. do 4 right. left. split; [reflexivity|].
  right. reflexivity.
Defined.

Lemma backup_all_exit_status_witness :
  result_of
    (cli.main scenario_cli.GetWorkspaces scenario_flags.backup_all
       scenario_cli.environ (scenario_backup.failing "settings"))
  = cli.Return.
Proof.
  refine (proj1 (proj2 (proj2
            (backup_all_exit_status (env := sim.env)
               scenario_cli.GetWorkspaces scenario_flags.backup_all
               scenario_cli.environ (scenario_backup.failing "settings")
               _ _ _ _ _))) _ _);
    try discriminate; reflexivity.
Defined.

Lemma exit_status_of_single_run_witness :
  result_of
    (cli.main scenario_cli.GetWorkspaces scenario_flags.backup_one
       scenario_cli.environ scenario_backup.healthy) = cli.Return
  ↔ persisted
      (events_of
         (cli.main scenario_cli.GetWorkspaces scenario_flags.backup_one
            scenario_cli.environ scenario_backup.healthy)).
Proof.
  refine (proj1 (proj2 (proj1
            (exit_status_of_single_run (env := sim.env)
               scenario_cli.GetWorkspaces scenario_flags.backup_one
               scenario_cli.environ scenario_backup.healthy _ _ _ _)
            _ _)));
    try discriminate; reflexivity.
Defined.

(** ** The metadata file *)

Lemma map_set_lookup (m : jmap) (key : string) (v : json) (k : string) :
  jlookup (metadata.map_set m key v) k
  = if decide (k = key) then Some v else jlookup m k.
Proof.
  unfold metadata.map_set. cbn [jlookup].
  destruct (decide (key = k)) as [->|Hne].
  { rewrite (decide_True (P := k = k)) by reflexivity. reflexivity. }
  rewrite (decide_False (P := k = key)) by congruence.
  induction m as [|[k' v'] m IH]; [done|].
  rewrite filter_cons. cbn [fst].
  destruct (decide (k' ≠ key)) as [Hk|Hk]; cbn [jlookup].
  - by rewrite IH.
  - rewrite IH. rewrite decide_False; [done|].
    intros ->. by apply Hk.
Qed.

Section metadata_file.
Context {W : Type} {env : Env W}.
Variable time_Format_RFC3339 : Time → string.
Variable json_MarshalMetadata : jmap → res Data.

(** X22.  [CreateBackupMetadata] stamps the caller's map.  Handed the nil
    map it panics before any call.  Otherwise the map the caller holds
    afterwards maps [created_at] to the time read at the start (a value the
    caller had put there is overwritten) and is unchanged at every other
    key, and this holds whether or not the file could be produced: the map
    stays stamped when encoding or writing fails.  At most one file is
    written, [metadata.json] in the given directory, holding the stamped
    map, and the error returned is the one of the encoding or of that
    write. *)
Theorem metadata_is_stamped (s : storage.StorageService) (dir : string)
    (m : option jmap) (w : W) :
  let run :=
    metadata.CreateBackupMetadata time_Format_RFC3339 json_MarshalMetadata
      s dir m w in
  let stamp := JString (time_Format_RFC3339 (time_Now w).1) in
  let file := filepath.Join [dir; "metadata.json"] in
  (m = None → result_of run = metadata.Panicked ∧ events_of run = []) ∧
  (∀ m0, m = Some m0 →
     ∃ err m',
       result_of run = metadata.Returned err m' ∧
       jlookup m' "created_at" = Some stamp ∧
       (∀ k, k ≠ "created_at" → jlookup m' k = jlookup m0 k) ∧
       (∀ e, json_MarshalMetadata m' = Err e →
             err = Some e ∧ events_of run = []) ∧
       (∀ data, json_MarshalMetadata m' = Ok data →
          ∃ r, events_of run = [ EvWriteFile file data r ] ∧
               err = match r with Ok _ => None | Err e => Some e end)).
Proof.
  intros run stamp file. unfold run, metadata.CreateBackupMetadata.
  rewrite result_bind, events_bind.
  destruct (time_Now w) as [t w0]. run_simpl. subst stamp. cbn [fst].
  split.
  { by intros ->. }
  intros m0 ->. fold file.
  set (m' := metadata.map_set m0 "created_at"
               (JString (time_Format_RFC3339 t))).
  assert (Hm' : jlookup m' "created_at"
                = Some (JString (time_Format_RFC3339 t)) ∧
                ∀ k, k ≠ "created_at" → jlookup m' k = jlookup m0 k).
  { split.
    - unfold m'. rewrite map_set_lookup. by rewrite decide_True.
    - intros k Hk. unfold m'. rewrite map_set_lookup.
      by rewrite decide_False. }
  destruct Hm' as [Hstamp Hrest].
  destruct (json_MarshalMetadata m') as [data|e] eqn:Hmarshal; run_simpl.
  - rewrite result_bind, events_bind, call_run. run_simpl.
    eexists _, m'. split; [reflexivity|]. split; [done|]. split; [done|].
    split; [intros e' He'; congruence|].
    intros data' Hd. rewrite Hmarshal in Hd. injection Hd as <-.
    by eexists.
  - exists (Some e), m'. split; [done|]. split; [done|]. split; [done|].
    split; [|intros data' Hd; congruence].
    intros e' He'. rewrite Hmarshal in He'. by injection He' as <-.
Qed.

End metadata_file.

(** ** Reading and writing a refresh schedule *)

Section client_schedule.
Context {W : Type} {net : Net W}.

(** X23.  A schedule is written where it is read, and the write counts as
    done only on a reply the client can decode.  [UpdateRefreshSchedule]
    returns nil exactly when a token was obtained and its one [PATCH]
    request was answered with a status below 400 and a readable body that
    decodes as a JSON object; a reply with a success status whose body does
    not decode makes it return the decoding error.  That request carries
    the JSON text of the schedule and goes to the URL that
    [GetRefreshSchedule] reads from. *)
Theorem schedule_update_needs_decodable_reply (c : api.Client)
    (ws id : string) (schedule : jmap) (st : State W) :
  let tok := auth.GetAccessToken c.(api.authService) st in
  let run := api.UpdateRefreshSchedule c ws id schedule st in
  let endpoint := api.refreshSchedule_endpoint ws id in
  (value_of run = None ↔
     ∃ token req resp respBody j,
       value_of tok = Ok token ∧
       api.apiRequest c token "PATCH" endpoint (Some schedule) = Ok req ∧
       calls_of run = calls_of tok ++ [ CDo req (Ok resp) ] ∧
       resp.(http.StatusCode) < 400 ∧
       resp.(http.ReadAll) = (respBody, None) ∧
       json_Unmarshal respBody = Ok j) ∧
  (∀ token req resp respBody e,
     value_of tok = Ok token →
     api.apiRequest c token "PATCH" endpoint (Some schedule) = Ok req →
     calls_of run = calls_of tok ++ [ CDo req (Ok resp) ] →
     resp.(http.StatusCode) < 400 →
     resp.(http.ReadAll) = (respBody, None) →
     json_Unmarshal respBody = Err e →
     value_of run = Some e) ∧
  (∀ token reqP reqG,
     api.apiRequest c token "PATCH" endpoint (Some schedule) = Ok reqP →
     api.apiRequest c token "GET" endpoint None = Ok reqG →
     api.GetRefreshSchedule c ws id = api.fetchWithAuth c "GET" endpoint None ∧
     reqP.(http.URL) = reqG.(http.URL) ∧
     ∃ text, json_Marshal schedule = Ok text ∧
             reqP.(http.Body) = Some text).
Proof.
  intros tok run endpoint.
  pose proof (fetchWithAuth_cases c "PATCH" endpoint (Some schedule) st)
    as Hcases.
  cbv zeta in Hcases. fold tok in Hcases.
  assert (Hrun : run
    = (match value_of (api.fetchWithAuth c "PATCH" endpoint (Some schedule) st)
       with Ok _ => None | Err e => Some e end,
       state_of (api.fetchWithAuth c "PATCH" endpoint (Some schedule) st),
       calls_of (api.fetchWithAuth c "PATCH" endpoint (Some schedule) st))).
  { unfold run, api.UpdateRefreshSchedule. fold endpoint.
    rewrite nrun_bind. unfold nret, value_of, state_of, calls_of.
    cbn [fst snd]. by rewrite app_nil_r. }
  assert (Hvalue : ∀ token req resp respBody,
     value_of tok = Ok token →
     api.apiRequest c token "PATCH" endpoint (Some schedule) = Ok req →
     calls_of run = calls_of tok ++ [ CDo req (Ok resp) ] →
     resp.(http.StatusCode) < 400 →
     resp.(http.ReadAll) = (respBody, None) →
     value_of run
     = match json_Unmarshal respBody with Ok _ => None | Err e => Some e end).
  { intros token req resp respBody Htok Hreq Hcalls Hst Hbody.
    rewrite Htok, Hreq in Hcases. rewrite Hrun in Hcalls |- *.
    rewrite Hcases in Hcalls |- *.
    rewrite value_of_run, calls_of_run in *.
    apply app_inv_head in Hcalls. injection Hcalls as Hsent.
    rewrite Hsent. unfold fetch_value. rewrite Hbody.
    by rewrite decide_False by lia. }
  split; [|split].
  - split.
    + intros Hval. rewrite Hrun, value_of_run in Hval.
      destruct (value_of tok) as [token|e].
      2:{ rewrite Hcases, value_of_run in Hval. discriminate. }
      destruct (api.apiRequest c token "PATCH" endpoint (Some schedule))
        as [req|e] eqn:Hreq.
      2:{ rewrite Hcases, value_of_run in Hval. discriminate. }
      rewrite Hrun, Hcases, calls_of_run. rewrite Hcases, value_of_run in Hval.
      unfold fetch_value in Hval.
      destruct (http_Do req (world (state_of tok))).1 as [resp|e]; [|done].
      destruct (http.ReadAll resp) as [respBody [e|]] eqn:Hbody; [done|].
      case_decide; [done|].
      destruct (json_Unmarshal respBody) as [j|e] eqn:Hj; [|done].
      exists token, req, resp, respBody, j. split_and!; try done. lia.
    + intros (token & req & resp & respBody & j & Htok & Hreq & Hcalls
              & Hst & Hbody & Hj).
      rewrite (Hvalue token req resp respBody) by done. by rewrite Hj.
  - intros token req resp respBody e Htok Hreq Hcalls Hst Hbody He.
    rewrite (Hvalue token req resp respBody) by done. by rewrite He.
  - intros token reqP reqG HP HG. split; [done|].
    unfold api.apiRequest in HP, HG.
    destruct (json_Marshal schedule) as [text|e]; [|done].
    unfold NewRequest in HP, HG.
    destruct (http_NewRequest "PATCH" _); [done|].
    destruct (http_NewRequest "GET" _); [done|].
    injection HP as <-. injection HG as <-. split; [done|]. by exists text.
Qed.

End client_schedule.

Lemma schedule_update_needs_decodable_reply_witness :
  value_of
    (api.UpdateRefreshSchedule simnet.client "T" "d1"
       [ ("enabled", JBool true) ]
       (simnet.cached "t0k" [ simnet.reply 200 "" ]))
  = Some "invalid character".
Proof.
  eapply (proj1 (proj2
            (schedule_update_needs_decodable_reply (net := simnet.net)
               simnet.client "T" "d1" [ ("enabled", JBool true) ]
               (simnet.cached "t0k" [ simnet.reply 200 "" ])))).
  - reflexivity.
  - reflexivity.
  - reflexivity.
  - reflexivity.
  - reflexivity.
  - reflexivity.
Defined.

(** ** The background jobs of the server *)

Section server_jobs.
Context {W : Type} {env : Env W}.
Variable api_GetWorkspaces : W → res jmap * W.

Lemma now_run (w : W) : cli.now w = ((time_Now w).1, (time_Now w).2, []).
Proof. unfold cli.now. by destruct (time_Now w). Qed.

Lemma server_loop_is_cli_loop (service : backup.Service) :
  ∀ (value : list json) (s f : nat) (w : W),
  server.backupAll_loop service value s f w
  = cli.backupAll_loop service value s f w.
Proof.
  induction value as [|item value IH]; intros s f w; simpl; [done|].
  destruct (as_object item) as [m|]; [|apply IH].
  unfold backup.getString. rewrite !run_bind.
  destruct (result_of (backup.BackupWorkspace service _ w)); by rewrite IH.
Qed.

(** X24.  The background jobs of the web server do the work of the command
    line.  For the same store and arguments a job makes the same calls and
    leaves the same world as the corresponding command: one backup, the
    backup of all workspaces, one restore.  They differ in how they end:
    where the command exits with status 1 the job just returns, and a
    restore that panics takes the server down. *)
Theorem server_jobs_match_command_line (store : storage.StorageService)
    (ws path : string) (w : W) :
  (same_work (server.backupWorkspace store ws)
             (cli.backupWorkspace ws store) w ∧
   result_of (server.backupWorkspace store ws w) = server.Finished) ∧
  (same_work (server.backupAllWorkspaces api_GetWorkspaces store)
             (cli.backupAllWorkspaces api_GetWorkspaces store) w ∧
   result_of (server.backupAllWorkspaces api_GetWorkspaces store w)
   = server.Finished) ∧
  (same_work (server.restoreWorkspace store ws path)
             (cli.restoreWorkspace ws path store) w ∧
   (result_of (server.restoreWorkspace store ws path w) = server.Crashed
    ↔ result_of (cli.restoreWorkspace ws path store w) = cli.Panic) ∧
   (result_of (server.restoreWorkspace store ws path w) = server.Finished
    ↔ result_of (cli.restoreWorkspace ws path store w) = cli.Return
      ∨ result_of (cli.restoreWorkspace ws path store w) = cli.Exit 1)).
Proof.
  unfold same_work. split; [|split].
  - unfold server.backupWorkspace, cli.backupWorkspace.
    rewrite !run_bind, !now_run. run_simpl.
    destruct (result_of (backup.BackupWorkspace _ ws _)); run_simpl.
    + rewrite !run_bind, !now_run. by run_simpl.
    + done.
  - unfold server.backupAllWorkspaces, cli.backupAllWorkspaces.
    rewrite !run_bind.
    destruct (api_GetWorkspaces w) as [[resp|e] w1]; run_simpl; [|done].
    destruct (as_array (jlookup resp "value")) as [value|]; [|done].
    case_decide as Hlen.
    + apply length_zero_iff_nil in Hlen as ->. rewrite run_bind. by run_simpl.
    + rewrite !run_bind, server_loop_is_cli_loop. by run_simpl.
  - unfold server.restoreWorkspace, cli.restoreWorkspace.
    rewrite !run_bind, !now_run. run_simpl.
    destruct (result_of (restore.RestoreWorkspace _ ws path _))
      as [[e|]| |]; run_simpl.
    + split; [done|]. split; split; try done. intros _. by right.
    + rewrite !run_bind, !now_run. run_simpl.
      split; [done|]. split; split; try done. intros _. by left.
    + split; [done|]. split; split; try done. by intros [?|?].
    + split; [done|]. split; split; try done. by intros [?|?].
Qed.

End server_jobs.

(** ** Counting the snapshot files written *)

Lemma snapshots_written_app (l1 l2 : list Event) :
  snapshots_written (l1 ++ l2)
  = (snapshots_written l1 + snapshots_written l2)%nat.
Proof. unfold snapshots_written. by rewrite filter_app, length_app. Qed.

Lemma snapshots_written_cons (e : Event) (l : list Event) :
  snapshots_written (e :: l)
  = ((if snapshot_write e then 1 else 0) + snapshots_written l)%nat.
Proof.
  unfold snapshots_written. rewrite filter_cons.
  destruct (snapshot_write e).
  - by rewrite decide_True.
  - by rewrite decide_False.
Qed.

Lemma snapshots_written_none (P : Event → Prop) (l : list Event) :
  (∀ e, P e → snapshot_write e = false) → Forall P l →
  snapshots_written l = 0%nat.
Proof.
  intros HP Hall. unfold snapshots_written.
  induction Hall as [|e l He Hall IH]; [done|].
  rewrite filter_cons. rewrite decide_False; [done|].
  rewrite (HP e He). discriminate.
Qed.

Lemma snapshot_write_file (dir name : string) (data : Data) (r : res unit) :
  plain_name name →
  snapshot_write (EvWriteFile (filepath.Join [dir; name]) data r)
  = is_ok r && bool_decide (name = "complete_backup.json").
Proof.
  intros Hname. unfold snapshot_write. rewrite Base_Join_file by done.
  by destruct r.
Qed.

Section snapshot_counts.
Context {W : Type} {env : Env W}.

Lemma saveComponent_no_snapshot (dir name : string) (c : Component) (w : W) :
  plain_name name → name ≠ "complete_backup.json" →
  snapshots_written (events_of (storage.saveComponent dir name c w)) = 0%nat.
Proof.
  intros Hname Hne. unfold storage.saveComponent.
  destruct (json_MarshalComponent c) as [data|e]; [|done].
  rewrite call_run. run_simpl. unfold snapshots_written.
  rewrite filter_cons, snapshot_write_file by done.
  rewrite bool_decide_eq_false_2 by done. rewrite andb_false_r.
  by rewrite decide_False.
Qed.

Lemma SaveBackup_snapshots (st : storage.StorageService) (b : CompleteBackup)
    (w : W) :
  snapshots_written (events_of (storage.SaveBackup st b w))
  = if is_ok (result_of (storage.SaveBackup st b w)) then 1%nat else 0%nat.
Proof.
  unfold storage.SaveBackup.
  set (dir := filepath.Join [storage.backupPath st; WorkspaceID b;
                             time_Format (Timestamp b)]).
  rewrite result_bind, events_bind, call_run. run_simpl.
  rewrite snapshots_written_cons. cbn [snapshot_write].
  destruct (os_MkdirAll dir w).1 as [[]|e]; run_simpl; [|done].
  destruct (json_MarshalBackup b) as [data|e]; run_simpl; [|done].
  rewrite result_bind, events_bind, call_run. run_simpl.
  rewrite snapshots_written_cons, snapshot_write_file by plain_name_tac.
  rewrite bool_decide_eq_true_2 by done. rewrite andb_true_r.
  destruct (os_WriteFile _ data _).1 as [[]|e]; run_simpl; [|done].
  rewrite !result_bind, !events_bind. run_simpl.
  rewrite !snapshots_written_app.
  rewrite !saveComponent_no_snapshot by (plain_name_tac || done).
  done.
Qed.

End snapshot_counts.
Section snapshot_counts_2.
Context {W : Type} {env : Env W}.

(** A backup run writes one snapshot file when it succeeds and none when it
    fails. *)
Lemma BackupWorkspace_snapshots (s : backup.Service) (ws : string) (w : W) :
  snapshots_written (events_of (backup.BackupWorkspace s ws w))
  = if is_ok (result_of (backup.BackupWorkspace s ws w)) then 1%nat
    else 0%nat.
Proof.
  unfold backup.BackupWorkspace.
  rewrite run_bind. destruct (time_Now w) as [t0 w0]. run_simpl.
  rewrite run_bind, call_run. run_simpl. rewrite snapshots_written_cons.
  cbn [snapshot_write].
  destruct (os_MkdirAll _ w0) as [[[]|e] w1]; run_simpl; [|done].
  rewrite run_bind, call_run. run_simpl. rewrite snapshots_written_cons.
  cbn [snapshot_write].
  destruct (api_GetWorkspaceSettings ws w1) as [[j|e] w2]; run_simpl; [|done].
  rewrite run_bind, backupReports_run. run_simpl.
  rewrite snapshots_written_cons. cbn [snapshot_write].
  rewrite run_bind, backupDatasets_run. run_simpl.
  rewrite snapshots_written_cons. cbn [snapshot_write].
  rewrite run_bind, backupDataflows_run. run_simpl.
  rewrite snapshots_written_cons. cbn [snapshot_write].
  rewrite run_bind, backupDashboards_run. run_simpl.
  rewrite snapshots_written_cons. cbn [snapshot_write].
  rewrite run_bind, backupApps_run. run_simpl.
  rewrite snapshots_written_cons. cbn [snapshot_write].
  rewrite run_bind, backupRefreshSchedules_run. run_simpl.
  rewrite snapshots_written_app.
  match goal with
  | |- context [backup.refreshSchedules_loop ws ?ds [] ?w7] =>
      destruct (refreshSchedules_loop_spec ws ds [] w7) as (Hsall & _ & _);
      set (loop := backup.refreshSchedules_loop ws ds [] w7) in *
  end.
  rewrite (snapshots_written_none is_schedule_fetch (events_of loop))
    by (done || by intros []).
  rewrite run_bind. run_simpl. rewrite snapshots_written_app.
  match goal with
  | |- context [backup.backupReportsPBIX s ws ?rs ?dir ?w8] =>
      destruct (backupReportsPBIX_spec s ws rs dir w8) as (Hpall & _ & _);
      set (pbix := backup.backupReportsPBIX s ws rs dir w8) in *
  end.
  rewrite (snapshots_written_none is_pbix_call (events_of pbix))
    by (done || by intros []).
  rewrite run_bind. run_simpl.
  match goal with
  | |- context [storage.SaveBackup ?st ?b ?w'] =>
      pose proof (SaveBackup_snapshots st b w') as Hsave;
      set (save := storage.SaveBackup st b w') in *
  end.
  rewrite snapshots_written_app, Hsave.
  destruct (result_of save); run_simpl;
    change (snapshots_written []) with 0%nat; simpl; lia.
Qed.

(** X25.  The success counter counts snapshot files.  A backup run writes
    exactly one file named [complete_backup.json] when it succeeds and none
    when it fails; so over the loop of the backup of all workspaces the
    number of successes it reports is the number of snapshot files written
    during the loop. *)
Theorem success_count_is_snapshots_written (service : backup.Service) :
  ∀ (value : list json) (s f : nat) (w : W),
  let loop := cli.backupAll_loop service value s f w in
  (result_of loop).1 = (s + snapshots_written (events_of loop))%nat ∧
  (snapshots_written (events_of loop) ≤ length (listed_ids value))%nat.
Proof.
  induction value as [|item value IH]; intros s f w; simpl.
  { run_simpl. change (snapshots_written []) with 0%nat. simpl. lia. }
  unfold listed_ids. simpl. fold (listed_ids value).
  destruct (as_object item) as [m|]; simpl; [|apply IH].
  rewrite result_bind, events_bind, snapshots_written_app.
  rewrite BackupWorkspace_snapshots.
  set (run := backup.BackupWorkspace service
                (default "" (as_string (jlookup m "id"))) w).
  destruct (result_of run) as [b|e]; simpl.
  - specialize (IH (S s) f (world_of run)). cbv zeta in IH. lia.
  - specialize (IH s (S f) (world_of run)). cbv zeta in IH. lia.
Qed.

End snapshot_counts_2.

(** ** From the configuration to the token request *)

Section configured_client.
Context {W : Type} {net : Net W}.

(** X26.  What the configuration decides about the token request.  For the
    services built from the loaded configuration, the token request is a
    form-encoded [POST] to [<authority>/<tenant>/oauth2/token] in which the
    authority and the resource are the two fixed addresses, whatever the
    environment holds; the tenant, the client id and the client secret are
    the values of their environment variables.  The base URL of the API is
    the value of [API_BASE_URL], or the public address when that variable is
    empty or unset. *)
Theorem token_request_of_configuration (environ : string → string)
    (req : http.Request) :
  let settings := config.LoadConfig environ in
  let service := NewAuthService settings in
  auth.tokenRequest service = Ok req →
  req.(http.Method) = "POST" ∧
  req.(http.URL)
  = "https://login.microsoftonline.com/" +:+ environ "POWERBI_TENANT_ID"
      +:+ "/oauth2/token" ∧
  req.(http.Body)
  = Some (url_Values_Encode
            [ ("grant_type", "client_credentials");
              ("client_id", environ "POWERBI_CLIENT_ID");
              ("client_secret", environ "POWERBI_CLIENT_SECRET");
              ("resource", "https://analysis.windows.net/powerbi/api") ]) ∧
  req.(http.Header)
  = [ ("Content-Type", "application/x-www-form-urlencoded") ] ∧
  (NewClient service settings).(api.baseURL)
  = (if decide (environ "API_BASE_URL" = "")
     then "https://api.powerbi.com/v1.0/myorg"
     else environ "API_BASE_URL").
Proof.
  intros settings service Hreq.
  assert (Hget : ∀ key, config.getEnv environ key "" = environ key).
  { intros key. unfold config.getEnv. by case_decide. }
  unfold auth.tokenRequest, NewRequest in Hreq.
  destruct (http_NewRequest "POST" _); [done|]. injection Hreq as <-.
  cbn [http.Method http.URL http.Body http.Header Header_Set filter
       list_filter app].
  unfold service, settings, NewAuthService, config.LoadConfig.
  cbn [auth.authorityURL auth.tenantID auth.clientID auth.clientSecret
       auth.resource config.AuthorityURL config.PowerBITenantID
       config.PowerBIClientID config.PowerBIClientSecret config.Resource
       NewClient api.baseURL config.APIBaseURL].
  rewrite !Hget. split; [done|]. split; [done|]. split; [done|].
  split; [done|]. unfold config.getEnv. by case_decide.
Qed.

End configured_client.

Lemma token_request_of_configuration_witness :
  ∃ req,
    auth.tokenRequest (net := simnet.net)
      (NewAuthService (config.LoadConfig scenario_cli.environ)) = Ok req ∧
    req.(http.URL) = "https://login.microsoftonline.com/tenant/oauth2/token".
Proof.
  eexists. split; [reflexivity|].
  refine (proj1 (proj2
            (token_request_of_configuration (net := simnet.net)
               scenario_cli.environ _ _))).
  reflexivity.
Defined.


(** ** The order of a restore *)

Section restore_order.
Context {W : Type} {env : Env W}.

Lemma restoreRefreshSchedules_shape (s : restore.Service) ws schedules (w : W) :
  let run := restore.restoreRefreshSchedules s ws schedules w in
  events_of run = [] ∨
  ∃ r rest, events_of run = EvGetDatasets ws r :: rest ∧ Forall is_update rest.
Proof.
  intros run. unfold run, restore.restoreRefreshSchedules.
  case_decide; [by left|]. right.
  rewrite events_bind, call_run. run_simpl.
  destruct (api_GetDatasets ws w).1 as [resp|e]; run_simpl.
  - rewrite events_bind. run_simpl. rewrite app_nil_r.
    eexists _, _. split; [reflexivity|]. apply schedule_loop_spec.
  - eexists _, _. split; [reflexivity|]. constructor.
Qed.

Lemma imports_none (P : Event → Prop) (l : list Event) :
  (∀ e, P e → import_of e = None) → Forall P l → imports l = [].
Proof.
  intros HP Hall. unfold imports.
  induction Hall as [|e l He Hall IH]; [done|].
  simpl. by rewrite (HP e He).
Qed.

Lemma updates_none (P : Event → Prop) (l : list Event) :
  (∀ e, P e → update_of e = None) → Forall P l → updates l = [].
Proof.
  intros HP Hall. unfold updates.
  induction Hall as [|e l He Hall IH]; [done|].
  simpl. by rewrite (HP e He).
Qed.

(** X27.  The order of a restore.  The calls of a restore run split in two
    parts.  The first part holds the read of the snapshot and the whole
    artifact step, with every import of the run and no schedule update.  The
    second part holds every schedule update of the run and no import; when
    it is not empty it starts with the listing of the datasets that the
    remapping uses, followed by updates only.  So that listing is taken
    after the last import, and no schedule is pushed before it. *)
Theorem imports_precede_schedule_updates (s : restore.Service)
    (ws path : string) (w : W) :
  let run := restore.RestoreWorkspace s ws path w in
  ∃ first second,
    events_of run = first ++ second ∧
    imports first = imports (events_of run) ∧ updates first = [] ∧
    updates second = updates (events_of run) ∧ imports second = [] ∧
    (second = [] ∨
     ∃ r rest, second = EvGetDatasets ws r :: rest ∧ Forall is_update rest).
Proof.
  intros run.
  pose proof (RestoreWorkspace_run s ws path w) as Hrun.
  cbv zeta in Hrun. fold run in Hrun.
  set (load := storage.LoadBackup (restore.storageService s) path w) in *.
  assert (Hload : imports (events_of load) = [] ∧ updates (events_of load) = []).
  { destruct (LoadBackup_events (restore.storageService s) path w)
      as (r & Hev & _). fold load in Hev. by rewrite Hev. }
  destruct Hload as [Hli Hlu].
  assert (Hsplit : ∀ l1 l2, imports (l1 ++ l2) = imports l1 ++ imports l2).
  { intros. unfold imports. apply omap_app. }
  assert (Hsplit' : ∀ l1 l2, updates (l1 ++ l2) = updates l1 ++ updates l2).
  { intros. unfold updates. apply omap_app. }
  destruct (result_of load) as [b|e].
  2:{ destruct Hrun as [_ Hev]. exists (events_of load), [].
      rewrite Hev, app_nil_r. split_and!; try done. by left. }
  set (step := restore.restoreReportsPBIX s ws path (world_of load)) in *.
  assert (Hsu : updates (events_of step) = []).
  { apply (updates_none is_step_call); [by intros []|].
    apply restoreReportsPBIX_events. }
  assert (Hnone :
            events_of run = events_of load ++ events_of step →
            ∃ first second,
              events_of run = first ++ second ∧
              imports first = imports (events_of run) ∧ updates first = [] ∧
              updates second = updates (events_of run) ∧
              imports second = [] ∧
              (second = [] ∨
               ∃ r rest, second = EvGetDatasets ws r :: rest ∧
                         Forall is_update rest)).
  { intros Hev. exists (events_of load ++ events_of step), [].
    rewrite Hev, app_nil_r, Hsplit', Hlu, Hsu.
    split_and!; try done. by left. }
  destruct (result_of step) as [[e|]| |].
  - destruct Hrun as [_ Hev].
    exact (Hnone Hev).
  - destruct Hrun as [_ Hev].
    set (sched := restore.restoreRefreshSchedules s ws (RefreshSchedules b)
                    (world_of step)) in *.
    exists (events_of load ++ events_of step), (events_of sched).
    assert (Hsi : imports (events_of sched) = []).
    { apply (imports_none is_remap_call); [by intros []|].
      apply restoreRefreshSchedules_events. }
    rewrite Hev. split; [by rewrite app_assoc|].
    split.
    { rewrite app_assoc, (Hsplit (events_of load ++ events_of step)), Hsi.
      by rewrite app_nil_r. }
    split; [by rewrite Hsplit', Hlu, Hsu|].
    split; [by rewrite !Hsplit', Hlu, Hsu|].
    split; [done|].
    apply restoreRefreshSchedules_shape.
  - destruct Hrun as [_ Hev].
    exact (Hnone Hev).
  - destruct Hrun as [_ Hev].
    exact (Hnone Hev).
Qed.

End restore_order.

(** ** The reports of a snapshot and the artifacts of the run *)

Lemma exports_none (P : Event → Prop) (l : list Event) :
  (∀ e, P e → export_of e = None) → Forall P l → exports l = [].
Proof.
  intros HP Hall. unfold exports.
  induction Hall as [|e l He Hall IH]; [done|].
  simpl. by rewrite (HP e He).
Qed.

Lemma exports_cons_none (e : Event) (l : list Event) :
  export_of e = None → exports (e :: l) = exports l.
Proof. intros He. unfold exports. simpl. by rewrite He. Qed.

Lemma exports_app (l1 l2 : list Event) :
  exports (l1 ++ l2) = exports l1 ++ exports l2.
Proof. unfold exports. apply omap_app. Qed.

Section snapshot_artifacts.
Context {W : Type} {env : Env W}.

Lemma backupReportsPBIX_shape (s : backup.Service) ws reports dir (w : W) :
  let run := backup.backupReportsPBIX s ws reports dir w in
  let pbixDir := filepath.Join [dir; "pbix"] in
  (reports = [] ∧ events_of run = []) ∨
  (reports ≠ [] ∧ ∃ e, events_of run = [ EvMkdirAll pbixDir (Err e) ]) ∨
  (∃ rest, events_of run = EvMkdirAll pbixDir (Ok ()) :: rest ∧
     (λ x : string * string * bool, (x.1.1, x.1.2)) <$> exports rest
     = (λ r, (r.(r_ID), backup.pbixFile_of pbixDir r)) <$> reports).
Proof.
  intros run pbixDir. unfold run, backup.backupReportsPBIX. fold pbixDir.
  case_decide as Hlen.
  { left. by apply length_zero_iff_nil in Hlen as ->. }
  right. rewrite events_bind, call_run. run_simpl.
  destruct (os_MkdirAll pbixDir w).1 as [[]|e]; run_simpl.
  - right. rewrite events_bind. run_simpl. rewrite app_nil_r.
    eexists. split; [reflexivity|]. apply export_loop_spec.
  - left. split; [by intros ->|]. by exists e.
Qed.

(** The calls of a successful backup run around its artifact step. *)
Lemma BackupWorkspace_around_artifacts (s : backup.Service) ws (w : W) b :
  let dir :=
    filepath.Join [storage.backupPath s.(backup.storageService); ws;
                   time_Format (time_Now w).1] in
  result_of (backup.BackupWorkspace s ws w) = Ok b →
  ∃ before w' after,
    events_of (backup.BackupWorkspace s ws w)
    = before
        ++ events_of (backup.backupReportsPBIX s ws b.(Reports) dir w')
        ++ after ∧
    exports before = [] ∧ exports after = [].
Proof.
  intros dir. unfold backup.BackupWorkspace.
  rewrite run_bind. unfold dir. clear dir.
  destruct (time_Now w) as [t0 w0]. run_simpl.
  unfold storage.GetBackupPath.
  rewrite run_bind, call_run. run_simpl.
  destruct (os_MkdirAll _ w0) as [[[]|e] w1]; run_simpl; [|done].
  rewrite run_bind, call_run. run_simpl.
  destruct (api_GetWorkspaceSettings ws w1) as [[j|e] w2]; run_simpl; [|done].
  rewrite run_bind, backupReports_run. run_simpl.
  rewrite run_bind, backupDatasets_run. run_simpl.
  rewrite run_bind, backupDataflows_run. run_simpl.
  rewrite run_bind, backupDashboards_run. run_simpl.
  rewrite run_bind, backupApps_run. run_simpl.
  rewrite run_bind, backupRefreshSchedules_run. run_simpl.
  match goal with
  | |- context [backup.refreshSchedules_loop ws ?ds [] ?w7] =>
      destruct (refreshSchedules_loop_spec ws ds [] w7) as (Hsall & _ & _);
      set (loop := backup.refreshSchedules_loop ws ds [] w7) in *
  end.
  rewrite run_bind. run_simpl.
  match goal with
  | |- context [backup.backupReportsPBIX s ws ?rs ?dir ?w8] =>
      set (pbix := backup.backupReportsPBIX s ws rs dir w8) in *
  end.
  rewrite run_bind. run_simpl.
  match goal with
  | |- context [storage.SaveBackup ?st ?b0 ?w'] =>
      destruct (SaveBackup_spec st b0 w') as (Hvall & _);
      set (save := storage.SaveBackup st b0 w') in *
  end.
  destruct (result_of save) as [saved|e]; run_simpl; [|done].
  intros [= <-]. cbn [Reports].
  eexists (_ :: _ :: _ :: _ :: _ :: _ :: _ :: events_of loop), _,
          (events_of save).
  split.
  { rewrite app_nil_r. cbn [app]. reflexivity. }
  split.
  - do 7 (rewrite exports_cons_none by done).
    apply (exports_none is_schedule_fetch); [by intros []|done].
  - apply (exports_none is_save_call); [by intros []|done].
Qed.

(** X28.  The reports of a snapshot and the artifacts of the run.  When a
    backup run returns a snapshot, an export was attempted for exactly the
    reports of the snapshot, in their order, each with the id of the report
    and to the path made of its display name in the [pbix] directory of the
    run; the one exception is a run whose [pbix] directory could not be
    created, which has reports in its snapshot and attempted no export. *)
Theorem snapshot_reports_match_exports (s : backup.Service) (ws : string)
    (w : W) (b : CompleteBackup) :
  let run := backup.BackupWorkspace s ws w in
  let dir :=
    filepath.Join [storage.backupPath s.(backup.storageService); ws;
                   time_Format (time_Now w).1] in
  let pbixDir := filepath.Join [dir; "pbix"] in
  result_of run = Ok b →
  (λ x : string * string * bool, (x.1.1, x.1.2)) <$> exports (events_of run)
  = (λ r, (r.(r_ID), backup.pbixFile_of pbixDir r)) <$> b.(Reports)
  ∨ (b.(Reports) ≠ [] ∧ exports (events_of run) = [] ∧
     ∃ e, EvMkdirAll pbixDir (Err e) ∈ events_of run).
Proof.
  intros run dir pbixDir Hres.
  destruct (BackupWorkspace_around_artifacts s ws w b Hres)
    as (before & w' & after & Hev & Hbefore & Hafter).
  fold run dir in Hev. rewrite Hev, !exports_app, Hbefore, Hafter.
  rewrite app_nil_r. cbn [app].
  destruct (backupReportsPBIX_shape s ws b.(Reports) dir w')
    as [[Hnil Hpev]|[[Hne (e & Hpev)]|(rest & Hpev & Hpaths)]];
    fold pbixDir in Hpev; rewrite Hpev.
  - left. by rewrite Hnil.
  - right. split; [done|]. split; [done|]. exists e.
    apply elem_of_app. right. by left.
  - left. exact Hpaths.
Qed.

End snapshot_artifacts.

Lemma snapshot_reports_match_exports_witness :
  ∃ b,
    result_of
      (backup.BackupWorkspace scenario.backup_service "W"
         scenario_backup.healthy) = Ok b ∧
    ((λ x : string * string * bool, (x.1.1, x.1.2))
       <$> exports
             (events_of
                (backup.BackupWorkspace scenario.backup_service "W"
                   scenario_backup.healthy))
     = (λ r, (r.(r_ID), backup.pbixFile_of "backups/W/7/pbix" r))
         <$> b.(Reports)
     ∨ (b.(Reports) ≠ [] ∧
        exports
          (events_of
             (backup.BackupWorkspace scenario.backup_service "W"
                scenario_backup.healthy)) = [] ∧
        ∃ e, EvMkdirAll "backups/W/7/pbix" (Err e)
             ∈ events_of
                 (backup.BackupWorkspace scenario.backup_service "W"
                    scenario_backup.healthy))).
Proof.
  pose (r := result_of
               (backup.BackupWorkspace scenario.backup_service "W"
                  scenario_backup.healthy)).
  assert (∃ b, r = Ok b) as [b Hb].
  { vm_compute in r. subst r. by eexists. }
  exists b. split; [exact Hb|].
  exact (snapshot_reports_match_exports (env := sim.env)
           scenario.backup_service "W" scenario_backup.healthy b Hb).
Defined.

(** ** From the artifacts of a backup to the imports of a restore *)






Section round_trip.
Context {W : Type} {env : Env W}.




End round_trip.

